(** * The revision controller of the static-pod operator

    A shallow embedding of
    [vendor/github.com/openshift/library-go/pkg/operator/staticpod/controller/revision/deployment_controller.go]
    and the properties of its reconciliation pass.

    The controller is a client of four collaborators (the kube client, the
    operator config client, the event recorder and its work queue).  Every call that leaves
    the controller is a constructor of [Call]; a controller function is a
    program of [Prog], a tree of such calls, and [run] executes a program
    against any implementation of the collaborators while recording the calls
    made and the replies received. *)

From Stdlib Require Import ZArith Lia.
From stdpp Require Import base strings list gmap pretty.

Local Open Scope Z_scope.
Local Open Scope string_scope.
Local Open Scope list_scope.

(** ** Go's [int32] *)

Module Int32.
Definition min_int : Z := -2147483648.
Definition max_int : Z := 2147483647.

Definition in_range (z : Z) : Prop := min_int <= z <= max_int.

(** Two's complement wrap-around of a mathematical integer. *)
Definition wrap (z : Z) : Z := (z + 2147483648) `mod` 4294967296 - 2147483648.

(** [x + y] on [int32]. *)
Definition add (x y : Z) : Z := wrap (x + y).
End Int32.

(** ** Formatting verbs of [fmt] *)

Module fmt.
(** The double quote character. *)
Definition dquote : string := String (Ascii.ascii_of_nat 34) EmptyString.

(** [%d] of an integer. *)
Definition verb_d (z : Z) : string := pretty z.

(** [%q] of a string without characters that need escaping (object names
    are DNS labels). *)
Definition verb_q (s : string) : string := dquote +:+ s +:+ dquote.
End fmt.

(** ** Errors

    A Go [error] is either an API status error (with the reason the API
    machinery classifies it by) or a plain formatted error.  An interface
    value that may be [nil] is an [option error]. *)

Module apierrors.
Inductive StatusReason : Type :=
| StatusReasonUnknown
| StatusReasonNotFound
| StatusReasonAlreadyExists
| StatusReasonConflict
| StatusReasonForbidden
| StatusReasonTimeout
| StatusReasonInternalError.

Inductive error : Type :=
| StatusError (reason : StatusReason) (detailsKind detailsName : string)
              (message : string)
| errorString (s : string).

#[global] Instance StatusReason_eq_dec : EqDecision StatusReason.
Proof. solve_decision. Defined.
#[global] Instance error_eq_dec : EqDecision error.
Proof. solve_decision. Defined.

(** [err.Error()] *)
Definition Error (e : error) : string :=
  match e with
  | StatusError _ _ _ message => message
  | errorString s => s
  end.

(** [apierrors.NewNotFound(qualifiedResource, name)] for a resource of the
    core group: the constructor receives the resource and the object name,
    and nothing else. *)
Definition NewNotFound (resource name : string) : error :=
  StatusError StatusReasonNotFound resource name
    (resource +:+ " " +:+ fmt.verb_q name +:+ " not found").

Definition ReasonForError (err : option error) : StatusReason :=
  match err with
  | Some (StatusError reason _ _ _) => reason
  | _ => StatusReasonUnknown
  end.

(** [apierrors.IsNotFound(err)] *)
Definition IsNotFound (err : option error) : bool :=
  bool_decide (ReasonForError err = StatusReasonNotFound).

(** The error behind a true [IsNotFound(err)], the receiver of the
    [err.Error()] that follows the test in the source. *)
Definition notFound (err : option error) : option error :=
  match err with
  | Some e => if IsNotFound (Some e) then Some e else None
  | None => None
  end.
End apierrors.
Export apierrors.

(** ** API objects *)

Module metav1.
Record TypeMeta : Type := mkTypeMeta { APIVersion : string; Kind : string }.

Record OwnerReference : Type := mkOwnerReference {
  ownerAPIVersion : string;
  ownerKind : string;
  ownerName : string;
  ownerUID : string
}.

Record ObjectMeta : Type := mkObjectMeta {
  Namespace : string;
  Name : string;
  UID : string;
  OwnerReferences : list OwnerReference
}.

#[global] Instance TypeMeta_eq_dec : EqDecision TypeMeta.
Proof. solve_decision. Defined.
#[global] Instance OwnerReference_eq_dec : EqDecision OwnerReference.
Proof. solve_decision. Defined.
#[global] Instance ObjectMeta_eq_dec : EqDecision ObjectMeta.
Proof. solve_decision. Defined.
End metav1.
Export metav1.

Module corev1.
#[global] Instance byte_eq_dec : EqDecision Byte.byte := Byte.byte_eq_dec.

Record ConfigMap : Type := mkConfigMap {
  cmTypeMeta : TypeMeta;
  cmObjectMeta : ObjectMeta;
  cmData : gmap string string
}.

Record Secret : Type := mkSecret {
  secretTypeMeta : TypeMeta;
  secretObjectMeta : ObjectMeta;
  secretData : gmap string (list Byte.byte)
}.

(** The zero values [corev1.ConfigMap{}] and [corev1.Secret{}]. *)
Definition zeroTypeMeta : TypeMeta := mkTypeMeta "" "".
Definition zeroObjectMeta : ObjectMeta := mkObjectMeta "" "" "" [].
Definition zeroConfigMap : ConfigMap := mkConfigMap zeroTypeMeta zeroObjectMeta ∅.
Definition zeroSecret : Secret := mkSecret zeroTypeMeta zeroObjectMeta ∅.
End corev1.
Export corev1.

Module operatorv1.
(** [type ManagementState string] and its constants. *)
Definition ManagementState : Type := string.
Definition Managed : ManagementState := "Managed".
Definition Unmanaged : ManagementState := "Unmanaged".
Definition Removed : ManagementState := "Removed".

Inductive ConditionStatus : Type := ConditionTrue | ConditionFalse | ConditionUnknown.

Record OperatorCondition : Type := mkOperatorCondition {
  Type_ : string;
  Status : ConditionStatus;
  Reason : string;
  Message : string
}.

Record OperatorSpec : Type := mkOperatorSpec { managementState : ManagementState }.

Record StaticPodOperatorStatus : Type := mkStaticPodOperatorStatus {
  Conditions : list OperatorCondition;
  LatestAvailableRevision : Z
}.

#[global] Instance ConditionStatus_eq_dec : EqDecision ConditionStatus.
Proof. solve_decision. Defined.
#[global] Instance OperatorCondition_eq_dec : EqDecision OperatorCondition.
Proof. solve_decision. Defined.
#[global] Instance StaticPodOperatorStatus_eq_dec : EqDecision StaticPodOperatorStatus.
Proof. solve_decision. Defined.
End operatorv1.
Export operatorv1.

(** [equality.Semantic.DeepEqual] on the [Data] maps: equality of contents, a
    [nil] map and an empty map being the same. *)
Definition DeepEqual {V} `{EqDecision V} (a b : gmap string V) : bool :=
  bool_decide (a = b).

(** ** Calls to the collaborators *)

(** [common.UpdateStatusFunc]: a Go function from a pointer to a
    [StaticPodOperatorStatus] to an [error]; it mutates the status it is
    handed and may fail. *)
Definition UpdateStatusFunc : Type :=
  StaticPodOperatorStatus → StaticPodOperatorStatus * option error.

Inductive Call : Type :=
| ConfigMapsGet (namespace name : string)
| SecretsGet (namespace name : string)
| ApplyConfigMap (required : ConfigMap)
| SyncConfigMap (sourceNamespace sourceName targetNamespace targetName : string)
                (ownerRefs : list OwnerReference)
| SyncSecret (sourceNamespace sourceName targetNamespace targetName : string)
             (ownerRefs : list OwnerReference)
| OperatorClientGet
| UpdateStatus (updateFuncs : list UpdateStatusFunc)
| Warningf (reason message : string)
| Eventf (reason message : string)
| QueueGet
| QueueDone (key : string)
| QueueForget (key : string)
| QueueAddRateLimited (key : string)
| HandleError (err : error).

(** What each call returns.  The typed client allocates the object of a [Get]
    before the request, so a [Get] always yields an object (the zero value
    when the request failed); [SyncConfigMap] and [SyncSecret] yield a pointer
    that is [nil] when the source is absent. *)
Definition Reply (c : Call) : Type :=
  match c with
  | ConfigMapsGet _ _ => ConfigMap * option error
  | SecretsGet _ _ => Secret * option error
  | ApplyConfigMap _ => ConfigMap * bool * option error
  | SyncConfigMap _ _ _ _ _ => option ConfigMap * bool * option error
  | SyncSecret _ _ _ _ _ => option Secret * bool * option error
  | OperatorClientGet => OperatorSpec * StaticPodOperatorStatus * string * option error
  | UpdateStatus _ => StaticPodOperatorStatus * bool * option error
  | Warningf _ _ => unit
  | Eventf _ _ => unit
  | QueueGet => string * bool
  | QueueDone _ => unit
  | QueueForget _ => unit
  | QueueAddRateLimited _ => unit
  | HandleError _ => unit
  end%type.

(** ** Programs *)

Inductive Prog (A : Type) : Type :=
| Return (a : A)
| Do (c : Call) (k : Reply c → Prog A).
Arguments Return {A} a.
Arguments Do {A} c k.

Fixpoint bind {A B} (m : Prog A) (f : A → Prog B) : Prog B :=
  match m with
  | Return a => f a
  | Do c k => Do c (λ r, bind (k r) f)
  end.

#[global] Instance Prog_ret : MRet Prog := λ A a, Return a.
#[global] Instance Prog_bind : MBind Prog := λ A B f m, bind m f.

Definition call (c : Call) : Prog (Reply c) := Do c Return.

(** [for _, x := range l { body }] where the body either falls through
    ([None]) or returns from the enclosing function ([Some v]). *)
Fixpoint range {A R} (l : list A) (body : A → Prog (option R)) : Prog (option R) :=
  match l with
  | [] => mret None
  | x :: l' =>
      r ← body x;
      match r with
      | Some v => mret (Some v)
      | None => range l' body
      end
  end.

(** A call together with the reply it received. *)
Record Step : Type := mkStep { stepCall : Call; stepReply : Reply stepCall }.

(** An implementation of the collaborators over a world [W]. *)
Definition Handler (W : Type) : Type := ∀ c : Call, W → Reply c * W.

(** [run h m w] executes [m] from the world [w]: the result, the final world
    and the calls made, in order. *)
Fixpoint run {W A} (h : Handler W) (m : Prog A) (w : W) : A * W * list Step :=
  match m with
  | Return a => (a, w, [])
  | Do c k =>
      let '(r, w1) := h c w in
      let '(a, w2, t) := run h (k r) w1 in
      (a, w2, mkStep c r :: t)
  end.

Definition result {W A} (h : Handler W) (m : Prog A) (w : W) : A := (run h m w).1.1.
Definition final {W A} (h : Handler W) (m : Prog A) (w : W) : W := (run h m w).1.2.
Definition trace {W A} (h : Handler W) (m : Prog A) (w : W) : list Step := (run h m w).2.

(** ** The controller *)

(** The configuration of a [RevisionController]; its clients, recorder and
    queue are the collaborators reached through [Call]. *)
Record RevisionController : Type := mkRevisionController {
  targetNamespace : string;
  configMaps : list string;
  secrets : list string
}.

Definition operatorStatusRevisionControllerFailing : string := "RevisionControllerFailing".
Definition revisionControllerWorkQueueKey : string := "key".

(** Modelled from the spec: [v1helpers.SetOperatorCondition], which lives in
    library-go outside the controller's file.  Conditions are keyed by type
    with at most one condition per type: the condition of the same type is
    replaced, a new type is appended. *)
Fixpoint SetOperatorCondition (conditions : list OperatorCondition)
    (newCondition : OperatorCondition) : list OperatorCondition :=
  match conditions with
  | [] => [newCondition]
  | cond :: rest =>
      if bool_decide (Type_ cond = Type_ newCondition)
      then newCondition :: rest
      else cond :: SetOperatorCondition rest newCondition
  end.

(** [common.UpdateConditionFn(cond)] *)
Definition UpdateConditionFn (cond : OperatorCondition) : UpdateStatusFunc :=
  λ oldStatus,
    (mkStaticPodOperatorStatus
       (SetOperatorCondition (Conditions oldStatus) cond)
       (LatestAvailableRevision oldStatus),
     None).

Definition nameFor (name : string) (revision : Z) : string :=
  name +:+ "-" +:+ fmt.verb_d revision.

(** [isLatestRevisionCurrent] returns whether the latest revision is up to
    date and an optional reason. *)
Definition isLatestRevisionCurrent (c : RevisionController) (revision : Z)
  : Prog (bool * string) :=
  r ← range (configMaps c) (λ name,
    '(required, err) ← call (ConfigMapsGet (targetNamespace c) name);
    match notFound err with
    | Some e => mret (Some (false, Error e))
    | None =>
    '(existing, err) ← call (ConfigMapsGet (targetNamespace c) (nameFor name revision));
    match notFound err with
    | Some e => mret (Some (false, Error e))
    | None =>
    if negb (DeepEqual (cmData existing) (cmData required))
    then mret (Some (false, "configmap/" +:+ Name (cmObjectMeta required) +:+ " has changed"))
    else mret None
    end end);
  match r with
  | Some v => mret v
  | None =>
  r ← range (secrets c) (λ name,
    '(required, err) ← call (SecretsGet (targetNamespace c) name);
    match notFound err with
    | Some e => mret (Some (false, Error e))
    | None =>
    '(existing, err) ← call (SecretsGet (targetNamespace c) (nameFor name revision));
    match notFound err with
    | Some e => mret (Some (false, Error e))
    | None =>
    if negb (DeepEqual (secretData existing) (secretData required))
    then mret (Some (false, "secret/" +:+ Name (secretObjectMeta required) +:+ " has changed"))
    else mret None
    end end);
  match r with
  | Some v => mret v
  | None => mret (true, "")
  end end.

(** The marker [createNewRevision] applies first. *)
Definition statusConfigMapFor (c : RevisionController) (revision : Z) : ConfigMap :=
  mkConfigMap zeroTypeMeta
    (mkObjectMeta (targetNamespace c) (nameFor "revision-status" revision) "" [])
    (<["status" := "InProgress"]> (<["revision" := fmt.verb_d revision]> ∅)).

Definition ownerRefsOf (statusConfigMap : ConfigMap) : list OwnerReference :=
  [ mkOwnerReference
      (APIVersion (cmTypeMeta statusConfigMap))
      (Kind (cmTypeMeta statusConfigMap))
      (Name (cmObjectMeta statusConfigMap))
      (UID (cmObjectMeta statusConfigMap)) ].

Definition createNewRevision (c : RevisionController) (revision : Z)
  : Prog (option error) :=
  let statusConfigMap := statusConfigMapFor c revision in
  '(statusConfigMap, _, err) ← call (ApplyConfigMap statusConfigMap);
  match err with
  | Some e => mret (Some e)
  | None =>
  let ownerRefs := ownerRefsOf statusConfigMap in
  r ← range (configMaps c) (λ name,
    '(obj, _, err) ← call (SyncConfigMap (targetNamespace c) name
                             (targetNamespace c) (nameFor name revision) ownerRefs);
    match err with
    | Some e => mret (Some (Some e))
    | None =>
    match obj with
    | None => mret (Some (Some (NewNotFound "configmaps" name)))
    | Some _ => mret None
    end end);
  match r with
  | Some v => mret v
  | None =>
  r ← range (secrets c) (λ name,
    '(obj, _, err) ← call (SyncSecret (targetNamespace c) name
                             (targetNamespace c) (nameFor name revision) ownerRefs);
    match err with
    | Some e => mret (Some (Some e))
    | None =>
    match obj with
    | None => mret (Some (Some (NewNotFound "secrets" name)))
    | Some _ => mret None
    end end);
  match r with
  | Some v => mret v
  | None => mret None
  end end end.

(** [createRevisionIfNeeded] takes care of creating content for the static
    pods to use.  It returns whether or not to requeue and whether an error
    happened when updating status.  [operatorStatus] is the function's own
    deep copy of its argument: nothing else holds a reference to it, so it
    keeps the value it was copied with.  The [glog] line that announces the
    new revision writes to the process log only and is left out. *)
Definition createRevisionIfNeeded (c : RevisionController)
    (operatorSpec : OperatorSpec) (operatorStatusOriginal : StaticPodOperatorStatus)
    (resourceVersion : string) : Prog (bool * option error) :=
  let operatorStatus := operatorStatusOriginal in
  let latestRevision := LatestAvailableRevision operatorStatus in
  '(isCurrent, reason) ← isLatestRevisionCurrent c latestRevision;
  if isCurrent : bool then mret (false, None) else
  let nextRevision := Int32.add latestRevision 1 in
  err ← createNewRevision c nextRevision;
  match err with
  | Some err =>
      let cond := mkOperatorCondition "RevisionControllerFailing" ConditionTrue
                    "ContentCreationError" (Error err) in
      '(_, _, updateError) ← call (UpdateStatus [UpdateConditionFn cond]);
      match updateError with
      | Some updateError =>
          _ ← call (Warningf "RevisionCreateFailed"
                 ("Failed to create revision " +:+ fmt.verb_d nextRevision +:+ ": " +:+ Error err));
          mret (true, Some updateError)
      | None => mret (true, None)
      end
  | None =>
      let cond := mkOperatorCondition "RevisionControllerFailing" ConditionFalse "" "" in
      '(_, updated, updateError) ← call (UpdateStatus
          [UpdateConditionFn cond;
           λ operatorStatus,
             (mkStaticPodOperatorStatus (Conditions operatorStatus) nextRevision, None)]);
      match updateError with
      | Some updateError => mret (true, Some updateError)
      | None =>
          if updated : bool
          then
            _ ← call (Eventf "RevisionCreate"
                   ("Revision " +:+ fmt.verb_d (LatestAvailableRevision operatorStatus)
                    +:+ " created because " +:+ reason));
            mret (false, None)
          else mret (false, None)
      end
  end.

(** [sync]: one reconciliation pass. *)
Definition sync (c : RevisionController) : Prog (option error) :=
  '(operatorSpec, originalOperatorStatus, resourceVersion, err) ← call OperatorClientGet;
  match err with
  | Some e => mret (Some e)
  | None =>
  let operatorStatus := originalOperatorStatus in
  if bool_decide (managementState operatorSpec = Unmanaged) then mret None
  else if bool_decide (managementState operatorSpec = Removed) then mret None
  else
  '(requeue, syncErr) ← createRevisionIfNeeded c operatorSpec operatorStatus resourceVersion;
  match requeue, syncErr with
  | true, None =>
      mret (Some (errorString ("synthetic requeue request (err: " +:+ "<nil>" +:+ ")")))
  | _, _ =>
  let err := syncErr in
  let cond :=
    match err with
    | Some e => mkOperatorCondition operatorStatusRevisionControllerFailing
                  ConditionTrue "Error" (Error e)
    | None => mkOperatorCondition operatorStatusRevisionControllerFailing
                ConditionFalse "" ""
    end in
  '(_, _, updateError) ← call (UpdateStatus [UpdateConditionFn cond]);
  match updateError with
  | Some updateError =>
      match err with
      | None => mret (Some updateError)
      | Some _ => mret err
      end
  | None => mret err
  end end end.

(** [processNextWorkItem]: one turn of the worker.  The deferred
    [queue.Done] runs when the function returns. *)
Definition processNextWorkItem (c : RevisionController) : Prog bool :=
  '(dsKey, quit) ← call QueueGet;
  if quit : bool then mret false else
  err ← sync c;
  match err with
  | None =>
      _ ← call (QueueForget dsKey);
      _ ← call (QueueDone dsKey);
      mret true
  | Some err =>
      _ ← call (HandleError (errorString (dsKey +:+ " failed with : " +:+ Error err)));
      _ ← call (QueueAddRateLimited dsKey);
      _ ← call (QueueDone dsKey);
      mret true
  end.

(** ** A model of the collaborators

    The Config Store, the Status Store, the event recorder and the queue as
    one world.  The stores answer as section 6 of the specification says;
    a fault plan makes chosen calls fail, to exercise the error paths. *)

Record Stored (D : Type) : Type := mkStored {
  storedData : D;
  storedOwners : list OwnerReference
}.
Arguments mkStored {D} _ _.
Arguments storedData {D} _.
Arguments storedOwners {D} _.

#[global] Instance Stored_eq_dec {D} `{EqDecision D} : EqDecision (Stored D).
Proof. solve_decision. Defined.

Record World : Type := mkWorld {
  wConfigMaps : gmap (string * string) (Stored (gmap string string));
  wSecrets : gmap (string * string) (Stored (gmap string (list Byte.byte)));
  wSpec : OperatorSpec;
  wStatus : StaticPodOperatorStatus;
  wResourceVersion : N;
  wEvents : list (string * string);
  wWarnings : list (string * string);
  wRequeues : nat;
  wShutDown : bool;
  wClock : nat
}.

(** The n-th call of a run fails with [plan n] when that is an error. *)
Definition FaultPlan : Type := nat → option error.
Definition noFaults : FaultPlan := λ _, None.

Definition uidOf (namespace name : string) : string := namespace +:+ "/" +:+ name.

Definition configMapAt (namespace name : string) (s : Stored (gmap string string))
  : ConfigMap :=
  mkConfigMap zeroTypeMeta
    (mkObjectMeta namespace name (uidOf namespace name) (storedOwners s))
    (storedData s).

Definition secretAt (namespace name : string) (s : Stored (gmap string (list Byte.byte)))
  : Secret :=
  mkSecret zeroTypeMeta
    (mkObjectMeta namespace name (uidOf namespace name) (storedOwners s))
    (storedData s).

Definition tick (w : World) : World :=
  mkWorld (wConfigMaps w) (wSecrets w) (wSpec w) (wStatus w) (wResourceVersion w)
    (wEvents w) (wWarnings w) (wRequeues w) (wShutDown w) (S (wClock w)).

Definition setConfigMaps (m : gmap (string * string) (Stored (gmap string string)))
    (w : World) : World :=
  mkWorld m (wSecrets w) (wSpec w) (wStatus w) (wResourceVersion w)
    (wEvents w) (wWarnings w) (wRequeues w) (wShutDown w) (wClock w).

Definition setSecrets (m : gmap (string * string) (Stored (gmap string (list Byte.byte))))
    (w : World) : World :=
  mkWorld (wConfigMaps w) m (wSpec w) (wStatus w) (wResourceVersion w)
    (wEvents w) (wWarnings w) (wRequeues w) (wShutDown w) (wClock w).

Definition setStatus (st : StaticPodOperatorStatus) (w : World) : World :=
  mkWorld (wConfigMaps w) (wSecrets w) (wSpec w) st (wResourceVersion w + 1)%N
    (wEvents w) (wWarnings w) (wRequeues w) (wShutDown w) (wClock w).

Definition addEvent (e : string * string) (w : World) : World :=
  mkWorld (wConfigMaps w) (wSecrets w) (wSpec w) (wStatus w) (wResourceVersion w)
    (wEvents w ++ [e]) (wWarnings w) (wRequeues w) (wShutDown w) (wClock w).

Definition addWarning (e : string * string) (w : World) : World :=
  mkWorld (wConfigMaps w) (wSecrets w) (wSpec w) (wStatus w) (wResourceVersion w)
    (wEvents w) (wWarnings w ++ [e]) (wRequeues w) (wShutDown w) (wClock w).

Definition setRequeues (n : nat) (w : World) : World :=
  mkWorld (wConfigMaps w) (wSecrets w) (wSpec w) (wStatus w) (wResourceVersion w)
    (wEvents w) (wWarnings w) n (wShutDown w) (wClock w).

(** The mutators of an [UpdateStatus] call applied in order; the first error
    stops them. *)
Fixpoint applyUpdateFuncs (updateFuncs : list UpdateStatusFunc)
    (st : StaticPodOperatorStatus) : StaticPodOperatorStatus * option error :=
  match updateFuncs with
  | [] => (st, None)
  | update :: rest =>
      match update st with
      | (st', None) => applyUpdateFuncs rest st'
      | (st', Some e) => (st', Some e)
      end
  end.

(** Modelled from the spec: the replies of the Config Store
    ([resourceapply.ApplyConfigMap], [SyncConfigMap], [SyncSecret] and the
    typed client's [Get]), of the Status Store ([common.UpdateStatus] and the
    operator client's [Get]), of the event recorder and of the queue, none of
    which is part of the controller's file.  [Get] fails with NotFound when
    the object is absent; [ApplyConfigMap] creates or updates; the sync calls
    copy the content under the new name with the owner references, or return
    no object when the source is absent; [UpdateStatus] applies the mutators
    to the stored status and writes the result when it differs. *)
Definition answer (c : Call) (w : World) : Reply c * World :=
  match c return Reply c * World with
  | ConfigMapsGet namespace name =>
      match wConfigMaps w !! (namespace, name) with
      | Some s => ((configMapAt namespace name s, None), w)
      | None => ((zeroConfigMap, Some (NewNotFound "configmaps" name)), w)
      end
  | SecretsGet namespace name =>
      match wSecrets w !! (namespace, name) with
      | Some s => ((secretAt namespace name s, None), w)
      | None => ((zeroSecret, Some (NewNotFound "secrets" name)), w)
      end
  | ApplyConfigMap required =>
      let key := (Namespace (cmObjectMeta required), Name (cmObjectMeta required)) in
      let s := mkStored (cmData required) (OwnerReferences (cmObjectMeta required)) in
      ((mkConfigMap (cmTypeMeta required)
          (mkObjectMeta key.1 key.2 (uidOf key.1 key.2) (storedOwners s))
          (cmData required),
        bool_decide (wConfigMaps w !! key ≠ Some s), None),
       setConfigMaps (<[key := s]> (wConfigMaps w)) w)
  | SyncConfigMap sourceNamespace sourceName targetNamespace targetName ownerRefs =>
      match wConfigMaps w !! (sourceNamespace, sourceName) with
      | None => ((None, false, None), w)
      | Some source =>
          let s := mkStored (storedData source) ownerRefs in
          ((Some (configMapAt targetNamespace targetName s),
            bool_decide (wConfigMaps w !! (targetNamespace, targetName) ≠ Some s), None),
           setConfigMaps (<[(targetNamespace, targetName) := s]> (wConfigMaps w)) w)
      end
  | SyncSecret sourceNamespace sourceName targetNamespace targetName ownerRefs =>
      match wSecrets w !! (sourceNamespace, sourceName) with
      | None => ((None, false, None), w)
      | Some source =>
          let s := mkStored (storedData source) ownerRefs in
          ((Some (secretAt targetNamespace targetName s),
            bool_decide (wSecrets w !! (targetNamespace, targetName) ≠ Some s), None),
           setSecrets (<[(targetNamespace, targetName) := s]> (wSecrets w)) w)
      end
  | OperatorClientGet =>
      ((wSpec w, wStatus w, pretty (wResourceVersion w), None), w)
  | UpdateStatus updateFuncs =>
      match applyUpdateFuncs updateFuncs (wStatus w) with
      | (newStatus, Some e) => ((newStatus, false, Some e), w)
      | (newStatus, None) =>
          if bool_decide (newStatus = wStatus w)
          then ((newStatus, false, None), w)
          else ((newStatus, true, None), setStatus newStatus w)
      end
  | Warningf reason message => (tt, addWarning (reason, message) w)
  | Eventf reason message => (tt, addEvent (reason, message) w)
  | QueueGet => ((revisionControllerWorkQueueKey, wShutDown w), w)
  | QueueDone _ => (tt, w)
  | QueueForget _ => (tt, setRequeues 0 w)
  | QueueAddRateLimited _ => (tt, setRequeues (S (wRequeues w)) w)
  | HandleError _ => (tt, w)
  end.

(** The reply of a call that fails with [e]: no object, nothing written. *)
Definition failure (c : Call) (e : error) (w : World) : Reply c :=
  match c return Reply c with
  | ConfigMapsGet _ _ => (zeroConfigMap, Some e)
  | SecretsGet _ _ => (zeroSecret, Some e)
  | ApplyConfigMap _ => (zeroConfigMap, false, Some e)
  | SyncConfigMap _ _ _ _ _ => (None, false, Some e)
  | SyncSecret _ _ _ _ _ => (None, false, Some e)
  | OperatorClientGet => (wSpec w, wStatus w, "", Some e)
  | UpdateStatus _ => (wStatus w, false, Some e)
  | Warningf _ _ => tt
  | Eventf _ _ => tt
  | QueueGet => (revisionControllerWorkQueueKey, wShutDown w)
  | QueueDone _ => tt
  | QueueForget _ => tt
  | QueueAddRateLimited _ => tt
  | HandleError _ => tt
  end.

(** Calls to the two stores, which are the ones that can fail. *)
Definition isStoreCall (c : Call) : bool :=
  match c with
  | ConfigMapsGet _ _ | SecretsGet _ _ | ApplyConfigMap _
  | SyncConfigMap _ _ _ _ _ | SyncSecret _ _ _ _ _
  | OperatorClientGet | UpdateStatus _ => true
  | _ => false
  end.

Definition serve (plan : FaultPlan) : Handler World :=
  λ c w,
    match plan (wClock w) with
    | Some e =>
        if isStoreCall c then (failure c e w, tick w)
        else let '(r, w') := answer c w in (r, tick w')
    | None => let '(r, w') := answer c w in (r, tick w')
    end.

(** The stores without faults. *)
Definition store : Handler World := serve noFaults.

(** ** Observations on a run *)

Definition calls (t : list Step) : list Call := map stepCall t.

Definition isGet (c : Call) : bool :=
  match c with
  | ConfigMapsGet _ _ | SecretsGet _ _ => true
  | _ => false
  end.

(** A snapshot copy. *)
Definition isCopy (c : Call) : bool :=
  match c with
  | SyncConfigMap _ _ _ _ _ | SyncSecret _ _ _ _ _ => true
  | _ => false
  end.

(** A call that writes to the Config Store or to the Status Store. *)
Definition isWrite (c : Call) : bool :=
  match c with
  | ApplyConfigMap _ | SyncConfigMap _ _ _ _ _ | SyncSecret _ _ _ _ _
  | UpdateStatus _ => true
  | _ => false
  end.

(** A snapshot copy of a source into [<source>-<revision>] of the same
    namespace that carries exactly the owner references [refs]. *)
Definition copyOwnedBy (c : RevisionController) (revision : Z)
    (refs : list OwnerReference) (call : Call) : Prop :=
  match call with
  | SyncConfigMap sns sname tns tname ownerRefs
  | SyncSecret sns sname tns tname ownerRefs =>
      sns = targetNamespace c ∧ tns = targetNamespace c ∧
      tname = nameFor sname revision ∧ ownerRefs = refs
  | _ => False
  end.

(** The error a store call was answered with. *)
Definition stepError (s : Step) : option error :=
  match s with
  | mkStep (ConfigMapsGet _ _) r => r.2
  | mkStep (SecretsGet _ _) r => r.2
  | mkStep (ApplyConfigMap _) r => r.2
  | mkStep (SyncConfigMap _ _ _ _ _) r => r.2
  | mkStep (SyncSecret _ _ _ _ _) r => r.2
  | mkStep OperatorClientGet r => r.2
  | mkStep (UpdateStatus _) r => r.2
  | _ => None
  end.

(** A snapshot copy that produced an object and no error. *)
Definition copySucceeded (s : Step) : Prop :=
  match s with
  | mkStep (SyncConfigMap _ _ _ _ _) r => is_Some r.1.1 ∧ r.2 = None
  | mkStep (SyncSecret _ _ _ _ _) r => is_Some r.1.1 ∧ r.2 = None
  | _ => True
  end.

(** A snapshot copy of the source [name] that reported no object and no
    error: the source is absent. *)
Definition copyFoundNothing (resource name : string) (s : Step) : Prop :=
  match s with
  | mkStep (SyncConfigMap _ sname _ _ _) r =>
      resource = "configmaps" ∧ sname = name ∧ r.1.1 = None ∧ r.2 = None
  | mkStep (SyncSecret _ sname _ _ _) r =>
      resource = "secrets" ∧ sname = name ∧ r.1.1 = None ∧ r.2 = None
  | _ => False
  end.

(** The errors of the status writes of a run, in order. *)
Fixpoint updateErrors (t : list Step) : list error :=
  match t with
  | [] => []
  | mkStep (UpdateStatus _) r :: t' =>
      match r.2 with
      | Some e => e :: updateErrors t'
      | None => updateErrors t'
      end
  | _ :: t' => updateErrors t'
  end.

(** The informational events of a run, in order. *)
Fixpoint eventsOf (t : list Step) : list (string * string) :=
  match t with
  | [] => []
  | mkStep (Eventf reason message) _ :: t' => (reason, message) :: eventsOf t'
  | _ :: t' => eventsOf t'
  end.

(** The mutator lists of the status writes of a run, in order. *)
Fixpoint updatesOf (t : list Step) : list (list UpdateStatusFunc) :=
  match t with
  | [] => []
  | mkStep (UpdateStatus updateFuncs) _ :: t' => updateFuncs :: updatesOf t'
  | _ :: t' => updatesOf t'
  end.

(** The configmaps applied in a run, in order. *)
Fixpoint appliesOf (t : list Step) : list ConfigMap :=
  match t with
  | [] => []
  | mkStep (ApplyConfigMap required) _ :: t' => required :: appliesOf t'
  | _ :: t' => appliesOf t'
  end.

(** ** Text *)

Fixpoint prefixb (p s : string) : bool :=
  match p, s with
  | EmptyString, _ => true
  | String a p', String b s' => bool_decide (a = b) && prefixb p' s'
  | String _ _, EmptyString => false
  end.

(** [infixb p s]: the text [p] occurs in [s]. *)
Fixpoint infixb (p s : string) : bool :=
  prefixb p s ||
  match s with
  | EmptyString => false
  | String _ s' => infixb p s'
  end.

(** An error names [s] when [s] is one of its details or occurs in its
    text. *)
Definition names (e : error) (s : string) : bool :=
  infixb s (Error e) ||
  match e with
  | StatusError _ detailsKind detailsName _ =>
      bool_decide (detailsKind = s) || bool_decide (detailsName = s)
  | errorString _ => false
  end.

(** ** The decision of section 4.2, in the specification's words

    Over the Config Store of a world: the configured configmap names in
    declared order, then the configured secret names in declared order; for
    each, the live source must exist, its snapshot [<source>-<r>] must exist
    and the two contents must be equal.  The first name that fails decides
    the reason. *)

Inductive SourceKind : Type := ConfigMapSource | SecretSource.

Definition resourceOf (k : SourceKind) : string :=
  match k with ConfigMapSource => "configmaps" | SecretSource => "secrets" end.

Definition kindOf (k : SourceKind) : string :=
  match k with ConfigMapSource => "configmap" | SecretSource => "secret" end.

Definition sources (c : RevisionController) : list (SourceKind * string) :=
  map (pair ConfigMapSource) (configMaps c) ++ map (pair SecretSource) (secrets c).

Definition present (w : World) (k : SourceKind) (namespace name : string) : bool :=
  match k with
  | ConfigMapSource => bool_decide (is_Some (wConfigMaps w !! (namespace, name)))
  | SecretSource => bool_decide (is_Some (wSecrets w !! (namespace, name)))
  end.

Definition sameContent (w : World) (k : SourceKind) (namespace name1 name2 : string)
  : bool :=
  match k with
  | ConfigMapSource =>
      bool_decide (storedData <$> wConfigMaps w !! (namespace, name1)
                   = storedData <$> wConfigMaps w !! (namespace, name2))
  | SecretSource =>
      bool_decide (storedData <$> wSecrets w !! (namespace, name1)
                   = storedData <$> wSecrets w !! (namespace, name2))
  end.

(** Why the source [src] makes revision [r] stale, if it does. *)
Definition staleReason (w : World) (c : RevisionController) (r : Z)
    (src : SourceKind * string) : option string :=
  let '(k, name) := src in
  if negb (present w k (targetNamespace c) name)
  then Some (Error (NewNotFound (resourceOf k) name))
  else if negb (present w k (targetNamespace c) (nameFor name r))
  then Some (Error (NewNotFound (resourceOf k) (nameFor name r)))
  else if negb (sameContent w k (targetNamespace c) name (nameFor name r))
  then Some (kindOf k +:+ "/" +:+ name +:+ " has changed")
  else None.

Fixpoint firstStale (w : World) (c : RevisionController) (r : Z)
    (l : list (SourceKind * string)) : option string :=
  match l with
  | [] => None
  | src :: l' =>
      match staleReason w c r src with
      | Some reason => Some reason
      | None => firstStale w c r l'
      end
  end.

Definition isCurrentSpec (w : World) (c : RevisionController) (r : Z) : bool * string :=
  match firstStale w c r (sources c) with
  | Some reason => (false, reason)
  | None => (true, "")
  end.

(** ** Values the reconciler builds *)

(** The Failing condition [sync] writes at the end of a pass that ended with
    [err]. *)
Definition finalCondition (err : option error) : OperatorCondition :=
  match err with
  | Some e => mkOperatorCondition operatorStatusRevisionControllerFailing
                ConditionTrue "Error" (Error e)
  | None => mkOperatorCondition operatorStatusRevisionControllerFailing
              ConditionFalse "" ""
  end.

Definition syntheticRequeue : error :=
  errorString "synthetic requeue request (err: <nil>)".

(** The Failing condition [createRevisionIfNeeded] writes when
    [createNewRevision] failed with [err]. *)
Definition creationFailedCondition (err : error) : OperatorCondition :=
  mkOperatorCondition "RevisionControllerFailing" ConditionTrue
    "ContentCreationError" (Error err).

(** The cleared Failing condition. *)
Definition notFailingCondition : OperatorCondition :=
  mkOperatorCondition "RevisionControllerFailing" ConditionFalse "" "".

(** The mutator of [createRevisionIfNeeded] that records the new revision. *)
Definition setLatestAvailableRevision (nextRevision : Z) : UpdateStatusFunc :=
  λ operatorStatus,
    (mkStaticPodOperatorStatus (Conditions operatorStatus) nextRevision, None).

(** The text of the RevisionCreate event for [revision]. *)
Definition revisionCreateMessage (revision : Z) (reason : string) : string :=
  "Revision " +:+ fmt.verb_d revision +:+ " created because " +:+ reason.

(** The text of the RevisionCreateFailed warning. *)
Definition revisionCreateFailedMessage (revision : Z) (err : error) : string :=
  "Failed to create revision " +:+ fmt.verb_d revision +:+ ": " +:+ Error err.

(** Calls to the Config Store. *)
Definition isConfigStoreCall (c : Call) : bool :=
  match c with
  | ConfigMapsGet _ _ | SecretsGet _ _ | ApplyConfigMap _
  | SyncConfigMap _ _ _ _ _ | SyncSecret _ _ _ _ _ => true
  | _ => false
  end.

(** The stores of [h] with every [Get] error other than NotFound erased from
    the reply. *)
Definition discardOtherErrors {W} (h : Handler W) : Handler W :=
  λ c,
    match c return W → Reply c * W with
    | ConfigMapsGet namespace name =>
        λ w, let '((obj, err), w') := h (ConfigMapsGet namespace name) w in
             ((obj, notFound err), w')
    | SecretsGet namespace name =>
        λ w, let '((obj, err), w') := h (SecretsGet namespace name) w in
             ((obj, notFound err), w')
    | c => h c
    end.

(** Two worlds with the same Config Store. *)
Definition sameConfigStore (w w' : World) : Prop :=
  wConfigMaps w = wConfigMaps w' ∧ wSecrets w = wSecrets w'.

(** The source [src] matches at revision [r]: the live object and its
    snapshot both exist and have the same content. *)
Definition pairMatches (w : World) (c : RevisionController) (r : Z)
    (src : SourceKind * string) : Prop :=
  match src with
  | (ConfigMapSource, name) =>
      ∃ live snapshot,
        wConfigMaps w !! (targetNamespace c, name) = Some live ∧
        wConfigMaps w !! (targetNamespace c, nameFor name r) = Some snapshot ∧
        storedData live = storedData snapshot
  | (SecretSource, name) =>
      ∃ live snapshot,
        wSecrets w !! (targetNamespace c, name) = Some live ∧
        wSecrets w !! (targetNamespace c, nameFor name r) = Some snapshot ∧
        storedData live = storedData snapshot
  end.

(** ** Scenarios *)

Definition conflict : error :=
  StatusError StatusReasonConflict "" "" "the object has been modified".
Definition timeout : error :=
  StatusError StatusReasonTimeout "" "" "request timed out".
Definition internalError : error :=
  StatusError StatusReasonInternalError "" "" "internal error".

(** The plan that fails the n-th call (counting from the clock of the world,
    which starts at zero) with [e]. *)
Definition failAt (n : nat) (e : error) : FaultPlan :=
  λ k, if Nat.eqb k n then Some e else None.

(** The plan that fails the calls number [n] and [m], with [e] and [e']. *)
Definition failAt2 (n : nat) (e : error) (m : nat) (e' : error) : FaultPlan :=
  λ k, if Nat.eqb k n then Some e else if Nat.eqb k m then Some e' else None.

Definition failAll (e : error) : FaultPlan := λ _, Some e.

(** Sources [config] and no secrets, as in scenarios A to C. *)
Definition controllerA : RevisionController :=
  mkRevisionController "target" ["config"] [].

(** Sources [config] and the secret [token], as in scenario D. *)
Definition controllerD : RevisionController :=
  mkRevisionController "target" ["config"] ["token"].

(** A world whose only object is the live configmap [config] with content
    [{a: v}], at the given revision and management directive. *)
Definition worldWith (state : ManagementState) (revision : Z) (v : string) : World :=
  mkWorld
    {[ ("target", "config") := mkStored {[ "a" := v ]} [] ]}
    ∅
    (mkOperatorSpec state)
    (mkStaticPodOperatorStatus [] revision)
    0 [] [] 0 false 0.

Definition worldA : World := worldWith Managed 0 "1".

(** A controller for the namespace [openshift-authentication] and a world
    with nothing in the Config Store. *)
Definition controllerN : RevisionController :=
  mkRevisionController "openshift-authentication" ["config"] [].

Definition emptyWorld : World :=
  mkWorld ∅ ∅ (mkOperatorSpec Managed) (mkStaticPodOperatorStatus [] 0)
    0 [] [] 0 false 0.

(** The revision counter of a world. *)
Definition revisionOf (w : World) : Z := LatestAvailableRevision (wStatus w).

(** A pass of [sync] from [w] that creates a revision: the status is read,
    the directive lets the pass go on, the recorded revision is found stale,
    [createNewRevision] of the next revision returns nil, and the status
    write that records the revision does not fail. *)
Definition passCreatesRevision (plan : FaultPlan) (c : RevisionController) (w : World)
  : Prop :=
  let nextRevision := Int32.add (revisionOf w) 1 in
  let decided := run (serve plan) (isLatestRevisionCurrent c (revisionOf w)) (tick w) in
  let created := run (serve plan) (createNewRevision c nextRevision) decided.1.2 in
  plan (wClock w) = None ∧
  managementState (wSpec w) ≠ Unmanaged ∧
  managementState (wSpec w) ≠ Removed ∧
  decided.1.1.1 = false ∧
  created.1.1 = None ∧
  plan (wClock created.1.2) = None.

(** Scenario B: the world after the pass of scenario A. *)
Definition worldB : World := final store (sync controllerA) worldA.

(** Scenario C: the world of scenario B with the live content of [config]
    changed to [{a: 2}]. *)
Definition worldC : World :=
  setConfigMaps
    (<[("target", "config") := mkStored {[ "a" := "2" ]} []]> (wConfigMaps worldB))
    worldB.

(** ** The worker loop *)

(** [runWorker]: the loop [for c.processNextWorkItem() {}].  The loop ends
    when a turn returns false; [fuel] bounds the number of turns, and the
    result tells whether the loop ended ([true]) or the fuel ran out with the
    loop still going ([false]). *)
Fixpoint runWorker (fuel : nat) (c : RevisionController) : Prog bool :=
  match fuel with
  | O => mret false
  | S fuel' =>
      more ← processNextWorkItem c;
      if more : bool then runWorker fuel' c else mret true
  end.

(** ** More observations on a run *)

Definition isQueueCall (c : Call) : bool :=
  match c with
  | QueueGet | QueueDone _ | QueueForget _ | QueueAddRateLimited _ => true
  | _ => false
  end.

(** The calls to the queue of a run, in order. *)
Fixpoint queueCallsOf (t : list Step) : list Call :=
  match t with
  | [] => []
  | s :: t' =>
      if isQueueCall (stepCall s) then stepCall s :: queueCallsOf t'
      else queueCallsOf t'
  end.

(** What the successive [queue.Get] of a run answered for [quit]. *)
Fixpoint quitsOf (t : list Step) : list bool :=
  match t with
  | [] => []
  | mkStep QueueGet r :: t' => r.2 :: quitsOf t'
  | _ :: t' => quitsOf t'
  end.

(** The warnings of a run, in order. *)
Fixpoint warningsOf (t : list Step) : list (string * string) :=
  match t with
  | [] => []
  | mkStep (Warningf reason message) _ :: t' => (reason, message) :: warningsOf t'
  | _ :: t' => warningsOf t'
  end.

(** A write to the Config Store. *)
Definition isConfigWrite (c : Call) : bool :=
  match c with
  | ApplyConfigMap _ | SyncConfigMap _ _ _ _ _ | SyncSecret _ _ _ _ _ => true
  | _ => false
  end.

(** A [Get] of the engine at revision [r]: of a configured configmap or
    secret, or of its snapshot, in the namespace of the controller. *)
Definition engineGet (c : RevisionController) (r : Z) (call : Call) : Prop :=
  match call with
  | ConfigMapsGet namespace name =>
      namespace = targetNamespace c ∧
      ∃ source, source ∈ configMaps c ∧ (name = source ∨ name = nameFor source r)
  | SecretsGet namespace name =>
      namespace = targetNamespace c ∧
      ∃ source, source ∈ secrets c ∧ (name = source ∨ name = nameFor source r)
  | _ => False
  end.

(** The copies of a successful [createNewRevision], in order. *)
Definition copiesFor (c : RevisionController) (revision : Z)
    (ownerRefs : list OwnerReference) : list Call :=
  map (λ name, SyncConfigMap (targetNamespace c) name (targetNamespace c)
                 (nameFor name revision) ownerRefs) (configMaps c)
  ++ map (λ name, SyncSecret (targetNamespace c) name (targetNamespace c)
                    (nameFor name revision) ownerRefs) (secrets c).

(** A step that went wrong: it was answered with an error, or it is a copy
    that found no source. *)
Definition stepFailed (s : Step) : Prop :=
  stepError s ≠ None ∨ ∃ resource name, copyFoundNothing resource name s.

(** No snapshot name of revision [r] is the name of a configured source of
    the same kind. *)
Definition snapshotsApart (c : RevisionController) (r : Z) : Prop :=
  (∀ n n', n ∈ configMaps c → n' ∈ configMaps c → nameFor n r ≠ n') ∧
  (∀ n n', n ∈ secrets c → n' ∈ secrets c → nameFor n r ≠ n').

(** The names [createNewRevision c r] writes under, by kind. *)
Definition writtenConfigMap (c : RevisionController) (r : Z) (name : string) : Prop :=
  name = nameFor "revision-status" r ∨ ∃ n, n ∈ configMaps c ∧ name = nameFor n r.

Definition writtenSecret (c : RevisionController) (r : Z) (name : string) : Prop :=
  ∃ n, n ∈ secrets c ∧ name = nameFor n r.

(** Two sources with colliding snapshot names, and a world that holds
    both. *)
Definition controllerX : RevisionController :=
  mkRevisionController "target" ["config-1"; "config"] [].

Definition worldX : World :=
  mkWorld
    {[ ("target", "config") := mkStored {[ "a" := "1" ]} [];
       ("target", "config-1") := mkStored {[ "a" := "2" ]} [] ]}
    ∅ (mkOperatorSpec Managed) (mkStaticPodOperatorStatus [] 0)
    0 [] [] 0 false 0.

(** Two worlds that differ at most in their clock. *)
Definition sameButClock (w w' : World) : Prop :=
  wConfigMaps w = wConfigMaps w' ∧ wSecrets w = wSecrets w' ∧ wSpec w = wSpec w' ∧
  wStatus w = wStatus w' ∧ wResourceVersion w = wResourceVersion w' ∧
  wEvents w = wEvents w' ∧ wWarnings w = wWarnings w' ∧
  wRequeues w = wRequeues w' ∧ wShutDown w = wShutDown w'.

(** ** Running programs *)

Lemma run_bind {W A B} (h : Handler W) (m : Prog A) (f : A → Prog B) (w : W) :
  run h (m ≫= f) w =
  let '(a, w1, t1) := run h m w in
  let '(b, w2, t2) := run h (f a) w1 in
  (b, w2, t1 ++ t2).
Proof.
  revert w. induction m as [a | c k IH]; intros w.
  - cbn. destruct (run h (f a) w) as [[b w2] t2]. reflexivity.
  - change (Do c k ≫= f) with (Do c (λ r, k r ≫= f)). cbn.
    destruct (h c w) as [r w1]. rewrite IH.
    destruct (run h (k r) w1) as [[a w2] t1].
    destruct (run h (f a) w2) as [[b w3] t2]. reflexivity.
Qed.

Lemma run_call {W} (h : Handler W) (c : Call) (w : W) :
  run h (call c) w = ((h c w).1, (h c w).2, [mkStep c (h c w).1]).
Proof. cbn. destruct (h c w). reflexivity. Qed.

Ltac run_call :=
  match goal with
  | |- context [run ?h (call ?c) ?w] =>
      first
        [ rewrite (run_call h c w)
        | let H := fresh in
          pose proof (run_call h c w) as H; cbn [Reply] in H; rewrite H; clear H ]
  end.

Lemma run_ret {W A} (h : Handler W) (a : A) (w : W) : run h (mret a) w = (a, w, []).
Proof. reflexivity. Qed.

Lemma run_range_cons {W A R} (h : Handler W) (x : A) (l : list A)
    (body : A → Prog (option R)) (w : W) :
  run h (range (x :: l) body) w =
  let '(r, w1, t1) := run h (body x) w in
  match r with
  | Some v => (Some v, w1, t1)
  | None => let '(r', w2, t2) := run h (range l body) w1 in (r', w2, t1 ++ t2)
  end.
Proof.
  cbn [range]. rewrite run_bind.
  destruct (run h (body x) w) as [[[v|] w1] t1].
  - rewrite run_ret. by rewrite app_nil_r.
  - reflexivity.
Qed.

(** Every step of a loop is a step of one of its rounds. *)
Lemma range_trace_Forall {W A R} (h : Handler W) (P : Step → Prop) (l : list A)
    (body : A → Prog (option R)) :
  (∀ x w, x ∈ l → Forall P (run h (body x) w).2) →
  ∀ w, Forall P (run h (range l body) w).2.
Proof.
  induction l as [|x l IH]; intros Hbody w.
  - constructor.
  - rewrite run_range_cons.
    pose proof (Hbody x w (list_elem_of_here _ _)) as Hx.
    destruct (run h (body x) w) as [[[v|] w1] t1]; [exact Hx|].
    specialize (IH (λ y w' Hy, Hbody y w' (list_elem_of_further _ _ _ Hy)) w1).
    destruct (run h (range l body) w1) as [[r' w2] t2].
    cbn in *. by apply Forall_app.
Qed.

(** A loop that falls through made every round fall through. *)
Lemma range_trace_None {W A R} (h : Handler W) (P : Step → Prop) (l : list A)
    (body : A → Prog (option R)) :
  (∀ x w, (run h (body x) w).1.1 = None → Forall P (run h (body x) w).2) →
  ∀ w, (run h (range l body) w).1.1 = None → Forall P (run h (range l body) w).2.
Proof.
  intros Hbody. induction l as [|x l IH]; intros w.
  - constructor.
  - rewrite run_range_cons. pose proof (Hbody x w) as Hx.
    destruct (run h (body x) w) as [[[v|] w1] t1]; [done|].
    specialize (IH w1).
    destruct (run h (range l body) w1) as [[r' w2] t2].
    cbn in *. intros ->. apply Forall_app; auto.
Qed.

(** A step after which its round returns [f] of it decides the loop. *)
Lemma range_trace_decides {W A R} (h : Handler W) (Q : Step → Prop) (v : R)
    (l : list A) (body : A → Prog (option R)) :
  (∀ x w s, s ∈ (run h (body x) w).2 → Q s → (run h (body x) w).1.1 = Some v) →
  ∀ w s, s ∈ (run h (range l body) w).2 → Q s →
         (run h (range l body) w).1.1 = Some v.
Proof.
  intros Hbody. induction l as [|x l IH]; intros w s.
  - cbn. by intros ?%elem_of_nil.
  - rewrite run_range_cons. pose proof (Hbody x w s) as Hx.
    destruct (run h (body x) w) as [[[v'|] w1] t1]; [exact Hx|].
    specialize (IH w1 s).
    destruct (run h (range l body) w1) as [[r' w2] t2].
    cbn in *. intros [Hs|Hs]%elem_of_app HQ; [|by auto].
    by specialize (Hx Hs HQ).
Qed.

(** A property of the world that every call of a run preserves holds at the
    end of the run. *)
Lemma run_preserves {W A} (h : Handler W) (P : W → Prop) (Q : Call → Prop)
    (m : Prog A) :
  (∀ c w, Q c → P w → P (h c w).2) →
  ∀ w, Forall Q (calls (run h m w).2) → P w → P (run h m w).1.2.
Proof.
  intros Hstep. induction m as [a | c k IH]; intros w; [done|].
  cbn. pose proof (Hstep c w) as Hc. destruct (h c w) as [r w1].
  specialize (IH r w1). destruct (run h (k r) w1) as [[a w2] t].
  cbn in *. intros [HQ Ht]%Forall_cons Hw. auto.
Qed.

(** ** The revision creator *)

Lemma statusConfigMapFor_spec (c : RevisionController) (revision : Z) :
  Namespace (cmObjectMeta (statusConfigMapFor c revision)) = targetNamespace c ∧
  Name (cmObjectMeta (statusConfigMapFor c revision))
    = "revision-status-" +:+ fmt.verb_d revision ∧
  cmData (statusConfigMapFor c revision) !! "status" = Some "InProgress" ∧
  cmData (statusConfigMapFor c revision) !! "revision" = Some (fmt.verb_d revision).
Proof.
  unfold statusConfigMapFor, nameFor. cbn. split_and!; reflexivity.
Qed.

(** The calls of [createNewRevision]: the apply of the marker, then, if it
    succeeded, copies that carry the owner reference of the marker the apply
    returned. *)
Lemma createNewRevision_steps {W} (h : Handler W) (c : RevisionController)
    (revision : Z) (w : W) :
  let marker := statusConfigMapFor c revision in
  ∃ (reply : Reply (ApplyConfigMap marker)) (rest : list Step),
    trace h (createNewRevision c revision) w = mkStep (ApplyConfigMap marker) reply :: rest ∧
    (reply.2 ≠ None →
       rest = [] ∧ result h (createNewRevision c revision) w = reply.2) ∧
    Forall (copyOwnedBy c revision (ownerRefsOf reply.1.1)) (calls rest).
Proof.
  intros marker.
  unfold trace, result, createNewRevision. fold marker.
  rewrite run_bind; run_call.
  destruct (h (ApplyConfigMap marker) w) as [[[applied changed] err] w1] eqn:Happly.
  cbn [fst snd].
  exists (applied, changed, err). cbn [fst snd].
  destruct err as [e|].
  - rewrite run_ret. exists []. cbn. repeat split; auto.
  - set (P := λ s : Step, copyOwnedBy c revision (ownerRefsOf applied) (stepCall s)).
    rewrite run_bind.
    match goal with |- context [run h (range (configMaps c) ?b) w1] =>
      set (copyConfigMaps := b) end.
    assert (Hcm : ∀ w', Forall P (run h (range (configMaps c) copyConfigMaps) w').2).
    { apply range_trace_Forall. intros name w' _. subst copyConfigMaps. cbn beta.
      rewrite run_bind; run_call.
      destruct (h _ w') as [[[obj ch] [e'|]] w'']; [|destruct obj];
        cbn; repeat constructor. }
    specialize (Hcm w1).
    destruct (run h (range (configMaps c) copyConfigMaps) w1) as [[r1 w2] t1].
    destruct r1 as [v|].
    + rewrite run_ret. exists (t1 ++ []). cbn. repeat split; try done.
      rewrite app_nil_r. unfold calls. by apply Forall_map.
    + rewrite run_bind.
      match goal with |- context [run h (range (secrets c) ?b) w2] =>
        set (copySecrets := b) end.
      assert (Hsec : ∀ w', Forall P (run h (range (secrets c) copySecrets) w').2).
      { apply range_trace_Forall. intros name w' _. subst copySecrets. cbn beta.
        rewrite run_bind; run_call.
        destruct (h _ w') as [[[obj ch] [e'|]] w'']; [|destruct obj];
          cbn; repeat constructor. }
      specialize (Hsec w2).
      destruct (run h (range (secrets c) copySecrets) w2) as [[r2 w3] t2].
      exists (t1 ++ t2 ++ []).
      destruct r2 as [v|]; rewrite run_ret; cbn; repeat split; try done;
        rewrite app_nil_r; unfold calls; apply Forall_map, Forall_app; by split.
Qed.

(** C8. In every execution of [createNewRevision c revision], against any
    implementation of the stores, the first call applies the marker
    [revision-status-<revision>] with status InProgress and the revision; when
    that apply fails nothing else is called and its error is returned; and
    every later call is a snapshot copy into [<source>-<revision>] carrying
    the owner reference of the marker the apply returned. *)
Theorem createNewRevision_marker_first {W} (h : Handler W) (c : RevisionController)
    (revision : Z) (w : W) :
  let marker := statusConfigMapFor c revision in
  (Name (cmObjectMeta marker) = "revision-status-" +:+ fmt.verb_d revision ∧
   cmData marker !! "status" = Some "InProgress" ∧
   cmData marker !! "revision" = Some (fmt.verb_d revision)) ∧
  ∃ (reply : Reply (ApplyConfigMap marker)) (rest : list Step),
    trace h (createNewRevision c revision) w = mkStep (ApplyConfigMap marker) reply :: rest ∧
    (reply.2 ≠ None →
       rest = [] ∧ result h (createNewRevision c revision) w = reply.2) ∧
    Forall (copyOwnedBy c revision (ownerRefsOf reply.1.1)) (calls rest) ∧
    ownerRefsOf reply.1.1 =
      [ mkOwnerReference (APIVersion (cmTypeMeta reply.1.1)) (Kind (cmTypeMeta reply.1.1))
          (Name (cmObjectMeta reply.1.1)) (UID (cmObjectMeta reply.1.1)) ].
Proof.
  intros marker. split; [apply statusConfigMapFor_spec|].
  destruct (createNewRevision_steps h c revision w) as (reply & rest & Ht & Hfail & Hrest).
  exists reply, rest. by split_and!.
Qed.

(** With the apply of the marker failing on an internal error, the creation
    of revision 1 in scenario A calls nothing else and returns that error. *)
Lemma createNewRevision_marker_first_witness :
  result (serve (failAt 0 internalError)) (createNewRevision controllerA 1) worldA
    = Some internalError ∧
  length (trace (serve (failAt 0 internalError)) (createNewRevision controllerA 1) worldA)
    = 1%nat.
Proof.
  destruct (createNewRevision_marker_first (serve (failAt 0 internalError))
              controllerA 1 worldA) as (_ & reply & rest & Ht & Hfail & _).
  assert (reply.2 = Some internalError) as Herr.
  { apply (f_equal (λ t, stepError <$> head t)) in Ht. cbn in Ht. by injection Ht as <-. }
  destruct Hfail as [-> Hres]; [by rewrite Herr|].
  split; [by rewrite Hres|by rewrite Ht].
Defined.

(** ** The reconciler *)

(** One pass of [sync], call by call. *)
Lemma run_sync {W} (h : Handler W) (c : RevisionController) (w : W) :
  run h (sync c) w =
  let got := h OperatorClientGet w in
  let '(operatorSpec, operatorStatus, resourceVersion, err) := got.1 in
  let get := mkStep OperatorClientGet got.1 in
  match err with
  | Some e => (Some e, got.2, [get])
  | None =>
  if bool_decide (managementState operatorSpec = Unmanaged) then (None, got.2, [get])
  else if bool_decide (managementState operatorSpec = Removed) then (None, got.2, [get])
  else
  let '((requeue, syncErr), w2, t2) :=
    run h (createRevisionIfNeeded c operatorSpec operatorStatus resourceVersion) got.2 in
  if requeue && bool_decide (syncErr = None)
  then (Some syntheticRequeue, w2, get :: t2)
  else
  let wrote := h (UpdateStatus [UpdateConditionFn (finalCondition syncErr)]) w2 in
  (match wrote.1.2, syncErr with
   | Some updateError, None => Some updateError
   | _, _ => syncErr
   end,
   wrote.2,
   get :: t2 ++ [mkStep (UpdateStatus [UpdateConditionFn (finalCondition syncErr)]) wrote.1])
  end.
Proof.
  unfold sync. rewrite run_bind; run_call.
  destruct (h OperatorClientGet w) as [[[[spec status] rv] [e|]] w1]; cbn [fst snd].
  - by rewrite run_ret.
  - repeat case_bool_decide; try by rewrite run_ret.
    rewrite run_bind.
    destruct (run h (createRevisionIfNeeded c spec status rv) w1)
      as [[[requeue syncErr] w2] t2].
    destruct requeue, syncErr as [e|]; cbn [andb]; try case_bool_decide; try done;
      try (by rewrite run_ret, app_nil_r);
      rewrite run_bind; run_call;
      destruct (h (UpdateStatus _) w2) as [[[st b] [u|]] w3]; cbn [fst snd];
      by rewrite run_ret, ?app_nil_r.
Qed.

(** One run of [createRevisionIfNeeded], call by call. *)
Lemma run_createRevisionIfNeeded {W} (h : Handler W) (c : RevisionController)
    (operatorSpec : OperatorSpec) (operatorStatus : StaticPodOperatorStatus)
    (resourceVersion : string) (w : W) :
  run h (createRevisionIfNeeded c operatorSpec operatorStatus resourceVersion) w =
  let latestRevision := LatestAvailableRevision operatorStatus in
  let nextRevision := Int32.add latestRevision 1 in
  let '((isCurrent, reason), w1, t1) := run h (isLatestRevisionCurrent c latestRevision) w in
  if isCurrent : bool then ((false, None), w1, t1) else
  let '(err, w2, t2) := run h (createNewRevision c nextRevision) w1 in
  match err with
  | Some e =>
      let update := UpdateStatus [UpdateConditionFn (creationFailedCondition e)] in
      let wrote := h update w2 in
      match wrote.1.2 with
      | Some updateError =>
          let warning := Warningf "RevisionCreateFailed"
                           (revisionCreateFailedMessage nextRevision e) in
          let warned := h warning wrote.2 in
          ((true, Some updateError), warned.2,
           t1 ++ t2 ++ [mkStep update wrote.1; mkStep warning warned.1])
      | None => ((true, None), wrote.2, t1 ++ t2 ++ [mkStep update wrote.1])
      end
  | None =>
      let update := UpdateStatus [UpdateConditionFn notFailingCondition;
                                  setLatestAvailableRevision nextRevision] in
      let wrote := h update w2 in
      match wrote.1.2 with
      | Some updateError =>
          ((true, Some updateError), wrote.2, t1 ++ t2 ++ [mkStep update wrote.1])
      | None =>
          if wrote.1.1.2 : bool
          then
            let event := Eventf "RevisionCreate"
                           (revisionCreateMessage latestRevision reason) in
            let emitted := h event wrote.2 in
            ((false, None), emitted.2,
             t1 ++ t2 ++ [mkStep update wrote.1; mkStep event emitted.1])
          else ((false, None), wrote.2, t1 ++ t2 ++ [mkStep update wrote.1])
      end
  end.
Proof.
  unfold createRevisionIfNeeded. cbn zeta. rewrite run_bind.
  destruct (run h (isLatestRevisionCurrent c _) w) as [[[[|] reason] w1] t1].
  - by rewrite run_ret, app_nil_r.
  - rewrite run_bind.
    destruct (run h (createNewRevision c _) w1) as [[[e|] w2] t2].
    + rewrite run_bind; run_call.
      destruct (h (UpdateStatus _) w2) as [[[st b] [u|]] w3]; cbn [fst snd].
      * rewrite run_bind; run_call. destruct (h (Warningf _ _) w3) as [[] w4].
        by rewrite run_ret.
      * by rewrite run_ret.
    + rewrite run_bind; run_call.
      destruct (h (UpdateStatus _) w2) as [[[st [|]] [u|]] w3]; cbn [fst snd];
        try by rewrite run_ret.
      rewrite run_bind; run_call. destruct (h (Eventf _ _) w3) as [[] w4].
      by rewrite run_ret.
Qed.

(** ** The revision decision engine *)

(** The engine only reads. *)
Lemma isLatestRevisionCurrent_reads {W} (h : Handler W) (c : RevisionController)
    (revision : Z) (w : W) :
  Forall (λ s, isGet (stepCall s) = true) (run h (isLatestRevisionCurrent c revision) w).2.
Proof.
  unfold isLatestRevisionCurrent. rewrite run_bind.
  match goal with |- context [run h (range (configMaps c) ?b) w] =>
    set (checkConfigMaps := b) end.
  assert (Hcm : ∀ w', Forall (λ s, isGet (stepCall s) = true)
                        (run h (range (configMaps c) checkConfigMaps) w').2).
  { apply range_trace_Forall. intros name w' _. subst checkConfigMaps. cbn beta.
    rewrite run_bind; run_call.
    destruct (h _ w') as [[required err] w1]; cbn [fst snd].
    destruct (notFound err); [by repeat constructor|].
    rewrite run_bind; run_call.
    destruct (h _ w1) as [[existing err'] w2]; cbn [fst snd].
    destruct (notFound err'); [by repeat constructor|].
    destruct (negb _); by repeat constructor. }
  specialize (Hcm w).
  destruct (run h (range (configMaps c) checkConfigMaps) w) as [[[v|] w1] t1].
  { rewrite run_ret. cbn. by rewrite app_nil_r. }
  rewrite run_bind.
  match goal with |- context [run h (range (secrets c) ?b) w1] =>
    set (checkSecrets := b) end.
  assert (Hsec : ∀ w', Forall (λ s, isGet (stepCall s) = true)
                         (run h (range (secrets c) checkSecrets) w').2).
  { apply range_trace_Forall. intros name w' _. subst checkSecrets. cbn beta.
    rewrite run_bind; run_call.
    destruct (h _ w') as [[required err] w2]; cbn [fst snd].
    destruct (notFound err); [by repeat constructor|].
    rewrite run_bind; run_call.
    destruct (h _ w2) as [[existing err'] w3]; cbn [fst snd].
    destruct (notFound err'); [by repeat constructor|].
    destruct (negb _); by repeat constructor. }
  specialize (Hsec w1).
  destruct (run h (range (secrets c) checkSecrets) w1) as [[[v|] w2] t2];
    rewrite run_ret; cbn; rewrite app_nil_r; by apply Forall_app.
Qed.

Lemma staleReason_ext (w w' : World) (c : RevisionController) (r : Z)
    (src : SourceKind * string) :
  sameConfigStore w w' → staleReason w c r src = staleReason w' c r src.
Proof.
  intros [Hcm Hsec]. destruct src as [[] name];
    unfold staleReason, present, sameContent; by rewrite ?Hcm, ?Hsec.
Qed.

Lemma firstStale_ext (w w' : World) (c : RevisionController) (r : Z)
    (l : list (SourceKind * string)) :
  sameConfigStore w w' → firstStale w c r l = firstStale w' c r l.
Proof.
  intros Hw. induction l as [|src l IH]; [done|].
  cbn. by rewrite (staleReason_ext w w' c r src Hw), IH.
Qed.

Lemma firstStale_app (w : World) (c : RevisionController) (r : Z)
    (l1 l2 : list (SourceKind * string)) :
  firstStale w c r (l1 ++ l2) =
  match firstStale w c r l1 with
  | Some reason => Some reason
  | None => firstStale w c r l2
  end.
Proof.
  induction l1 as [|src l1 IH]; [done|].
  cbn. destruct (staleReason w c r src); [done|exact IH].
Qed.

Lemma firstStale_None (w : World) (c : RevisionController) (r : Z)
    (l : list (SourceKind * string)) :
  firstStale w c r l = None ↔ ∀ src, src ∈ l → staleReason w c r src = None.
Proof.
  induction l as [|src l IH]; cbn.
  - split; [by intros _ ? ?%elem_of_nil|done].
  - destruct (staleReason w c r src) eqn:Hsrc.
    + split; [done|]. intros H. specialize (H src (list_elem_of_here _ _)). congruence.
    + rewrite IH. split.
      * intros H x [->|Hx]%elem_of_cons; auto.
      * intros H x Hx. apply H. by apply list_elem_of_further.
Qed.

Lemma firstStale_Some (w : World) (c : RevisionController) (r : Z)
    (l : list (SourceKind * string)) (reason : string) :
  firstStale w c r l = Some reason →
  ∃ before src after,
    l = before ++ src :: after ∧
    (∀ s, s ∈ before → staleReason w c r s = None) ∧
    staleReason w c r src = Some reason.
Proof.
  induction l as [|src l IH]; cbn; [done|].
  destruct (staleReason w c r src) as [reason'|] eqn:Hsrc.
  - intros [= ->]. exists [], src, l. split_and!; [done| |done].
    by intros ? ?%elem_of_nil.
  - intros (before & src' & after & -> & Hb & Hs)%IH.
    exists (src :: before), src', after. split_and!; [done| |done].
    intros s [->|Hx]%elem_of_cons; auto.
Qed.

(** A loop of the engine over the stores, from the verdict of each round. *)
Lemma range_firstStale (c : RevisionController) (r : Z) (k : SourceKind)
    (body : string → Prog (option (bool * string))) :
  (∀ name w,
     (run store (body name) w).1.1 = pair false <$> staleReason w c r (k, name) ∧
     sameConfigStore w (run store (body name) w).1.2) →
  ∀ l w,
    (run store (range l body) w).1.1 = pair false <$> firstStale w c r (map (pair k) l) ∧
    sameConfigStore w (run store (range l body) w).1.2.
Proof.
  intros Hbody. induction l as [|name l IH]; intros w; [done|].
  rewrite run_range_cons. destruct (Hbody name w) as [Hres Hw].
  destruct (run store (body name) w) as [[res w1] t1].
  cbn [fst snd] in Hres, Hw. subst res. cbn [map firstStale].
  destruct (staleReason w c r (k, name)) as [reason|]; cbn [fmap option_fmap option_map].
  - by split.
  - destruct (IH w1) as [Hres' Hw'].
    destruct (run store (range l body) w1) as [[res' w2] t2].
    cbn [fst snd] in *. rewrite (firstStale_ext w w1) by done. split; [done|].
    destruct Hw, Hw'. split; congruence.
Qed.

Lemma store_ConfigMapsGet (namespace name : string) (w : World) :
  store (ConfigMapsGet namespace name) w =
  (match wConfigMaps w !! (namespace, name) with
   | Some s => (configMapAt namespace name s, None)
   | None => (zeroConfigMap, Some (NewNotFound "configmaps" name))
   end, tick w).
Proof.
  unfold store, serve, noFaults. cbn.
  by destruct (wConfigMaps w !! (namespace, name)).
Qed.

Lemma store_SecretsGet (namespace name : string) (w : World) :
  store (SecretsGet namespace name) w =
  (match wSecrets w !! (namespace, name) with
   | Some s => (secretAt namespace name s, None)
   | None => (zeroSecret, Some (NewNotFound "secrets" name))
   end, tick w).
Proof.
  unfold store, serve, noFaults. cbn.
  by destruct (wSecrets w !! (namespace, name)).
Qed.

(** One round of the engine on a configmap, over the stores. *)
Lemma store_checkConfigMap (c : RevisionController) (r : Z) (name : string) (w : World) :
  let round : Prog (option (bool * string)) :=
    '(required, err) ← call (ConfigMapsGet (targetNamespace c) name);
    match notFound err with
    | Some e => mret (Some (false, Error e))
    | None =>
    '(existing, err) ← call (ConfigMapsGet (targetNamespace c) (nameFor name r));
    match notFound err with
    | Some e => mret (Some (false, Error e))
    | None =>
    if negb (DeepEqual (cmData existing) (cmData required))
    then mret (Some (false, "configmap/" +:+ Name (cmObjectMeta required) +:+ " has changed"))
    else mret None
    end end in
  (run store round w).1.1 = pair false <$> staleReason w c r (ConfigMapSource, name) ∧
  sameConfigStore w (run store round w).1.2.
Proof.
  cbn zeta. rewrite run_bind; run_call. rewrite store_ConfigMapsGet. cbn [fst snd].
  unfold staleReason, present, sameContent.
  destruct (wConfigMaps w !! (targetNamespace c, name)) as [live|] eqn:Hlive;
    [|by rewrite bool_decide_false by (by intros [? ?])].
  cbn [notFound]. rewrite run_bind; run_call. rewrite store_ConfigMapsGet. cbn [fst snd].
  change (wConfigMaps (tick w)) with (wConfigMaps w).
  rewrite (bool_decide_true (is_Some (Some live))) by eauto.
  destruct (wConfigMaps w !! (targetNamespace c, nameFor name r)) as [snapshot|] eqn:Hsnap;
    [|by rewrite bool_decide_false by (by intros [? ?])].
  rewrite (bool_decide_true (is_Some (Some snapshot))) by eauto.
  unfold DeepEqual.
  cbn [notFound cmData configMapAt cmObjectMeta Name fmap option_fmap option_map negb].
  destruct (decide (storedData snapshot = storedData live)) as [Heq|Hne].
  - rewrite (bool_decide_true _ Heq), bool_decide_true by congruence. by cbn.
  - rewrite (bool_decide_false _ Hne), bool_decide_false by congruence. by cbn.
Qed.

Lemma store_checkSecret (c : RevisionController) (r : Z) (name : string) (w : World) :
  let round : Prog (option (bool * string)) :=
    '(required, err) ← call (SecretsGet (targetNamespace c) name);
    match notFound err with
    | Some e => mret (Some (false, Error e))
    | None =>
    '(existing, err) ← call (SecretsGet (targetNamespace c) (nameFor name r));
    match notFound err with
    | Some e => mret (Some (false, Error e))
    | None =>
    if negb (DeepEqual (secretData existing) (secretData required))
    then mret (Some (false, "secret/" +:+ Name (secretObjectMeta required) +:+ " has changed"))
    else mret None
    end end in
  (run store round w).1.1 = pair false <$> staleReason w c r (SecretSource, name) ∧
  sameConfigStore w (run store round w).1.2.
Proof.
  cbn zeta. rewrite run_bind; run_call. rewrite store_SecretsGet. cbn [fst snd].
  unfold staleReason, present, sameContent.
  destruct (wSecrets w !! (targetNamespace c, name)) as [live|] eqn:Hlive;
    [|by rewrite bool_decide_false by (by intros [? ?])].
  cbn [notFound]. rewrite run_bind; run_call. rewrite store_SecretsGet. cbn [fst snd].
  change (wSecrets (tick w)) with (wSecrets w).
  rewrite (bool_decide_true (is_Some (Some live))) by eauto.
  destruct (wSecrets w !! (targetNamespace c, nameFor name r)) as [snapshot|] eqn:Hsnap;
    [|by rewrite bool_decide_false by (by intros [? ?])].
  rewrite (bool_decide_true (is_Some (Some snapshot))) by eauto.
  unfold DeepEqual.
  cbn [notFound secretData secretAt secretObjectMeta Name fmap option_fmap option_map negb].
  destruct (decide (storedData snapshot = storedData live)) as [Heq|Hne].
  - rewrite (bool_decide_true _ Heq), bool_decide_true by congruence. by cbn.
  - rewrite (bool_decide_false _ Hne), bool_decide_false by congruence. by cbn.
Qed.

(** Over the stores, the engine computes the decision of the specification
    and leaves the Config Store as it found it. *)
Lemma store_isLatestRevisionCurrent (c : RevisionController) (r : Z) (w : World) :
  (run store (isLatestRevisionCurrent c r) w).1.1 = isCurrentSpec w c r ∧
  sameConfigStore w (run store (isLatestRevisionCurrent c r) w).1.2.
Proof.
  unfold isLatestRevisionCurrent, isCurrentSpec, sources. rewrite firstStale_app.
  rewrite run_bind.
  match goal with |- context [run store (range (configMaps c) ?b) w] =>
    destruct (range_firstStale c r ConfigMapSource b
                (store_checkConfigMap c r) (configMaps c) w) as [Hres Hw];
    destruct (run store (range (configMaps c) b) w) as [[res w1] t1]
  end.
  cbn [fst snd] in Hres, Hw. subst res.
  destruct (firstStale w c r (map (pair ConfigMapSource) (configMaps c))) as [reason|];
    cbn [fmap option_fmap option_map].
  { by rewrite run_ret. }
  rewrite run_bind.
  match goal with |- context [run store (range (secrets c) ?b) w1] =>
    destruct (range_firstStale c r SecretSource b
                (store_checkSecret c r) (secrets c) w1) as [Hres' Hw'];
    destruct (run store (range (secrets c) b) w1) as [[res' w2] t2]
  end.
  cbn [fst snd] in Hres', Hw'. subst res'.
  rewrite (firstStale_ext w w1) by done.
  assert (sameConfigStore w w2) by (destruct Hw, Hw'; split; congruence).
  destruct (firstStale w1 c r (map (pair SecretSource) (secrets c))) as [reason|];
    cbn [fmap option_fmap option_map]; by rewrite run_ret.
Qed.

Lemma staleReason_None (w : World) (c : RevisionController) (r : Z)
    (src : SourceKind * string) :
  staleReason w c r src = None ↔ pairMatches w c r src.
Proof.
  destruct src as [[] name]; unfold staleReason, pairMatches, present, sameContent.
  - destruct (wConfigMaps w !! (targetNamespace c, name)) as [live|].
    2:{ rewrite bool_decide_false by (by intros [? ?]). cbn.
        split; [done|]. by intros (? & ? & ? & _). }
    rewrite bool_decide_true by eauto. cbn [negb].
    destruct (wConfigMaps w !! (targetNamespace c, nameFor name r)) as [snapshot|].
    2:{ rewrite bool_decide_false by (by intros [? ?]). cbn.
        split; [done|]. by intros (? & ? & ? & ? & _). }
    rewrite bool_decide_true by eauto. cbn [negb fmap option_fmap option_map].
    case_bool_decide as Heq; cbn.
    + split; [|done]. intros _. exists live, snapshot. split_and!; congruence.
    + split; [done|]. intros (? & ? & [= <-] & [= <-] & ?). congruence.
  - destruct (wSecrets w !! (targetNamespace c, name)) as [live|].
    2:{ rewrite bool_decide_false by (by intros [? ?]). cbn.
        split; [done|]. by intros (? & ? & ? & _). }
    rewrite bool_decide_true by eauto. cbn [negb].
    destruct (wSecrets w !! (targetNamespace c, nameFor name r)) as [snapshot|].
    2:{ rewrite bool_decide_false by (by intros [? ?]). cbn.
        split; [done|]. by intros (? & ? & ? & ? & _). }
    rewrite bool_decide_true by eauto. cbn [negb fmap option_fmap option_map].
    case_bool_decide as Heq; cbn.
    + split; [|done]. intros _. exists live, snapshot. split_and!; congruence.
    + split; [done|]. intros (? & ? & [= <-] & [= <-] & ?). congruence.
Qed.

(** C1. Over a Config Store in which an object is present or missing, the
    engine decides as the specification says: it goes through the configured
    configmap names in declared order and then the secret names in declared
    order, it answers current with the empty reason exactly when every source
    and its snapshot exist with equal content, and otherwise it answers
    not-current with the reason of the first source that fails (not found for
    a missing live object or snapshot, [<kind>/<name> has changed] for
    unequal content); later sources do not contribute. *)
Theorem isLatestRevisionCurrent_first_mismatch (c : RevisionController) (r : Z)
    (w : World) :
  result store (isLatestRevisionCurrent c r) w = isCurrentSpec w c r ∧
  (result store (isLatestRevisionCurrent c r) w = (true, "") ↔
   Forall (pairMatches w c r) (sources c)) ∧
  (∀ reason,
     result store (isLatestRevisionCurrent c r) w = (false, reason) →
     ∃ before src after,
       sources c = before ++ src :: after ∧
       Forall (pairMatches w c r) before ∧
       ¬ pairMatches w c r src ∧
       staleReason w c r src = Some reason) ∧
  (∀ b reason,
     result store (isLatestRevisionCurrent c r) w = (b, reason) →
     b = true → reason = "").
Proof.
  destruct (store_isLatestRevisionCurrent c r w) as [Hres _].
  unfold result. rewrite Hres. unfold isCurrentSpec.
  split; [done|]. split_and!.
  - rewrite Forall_forall.
    destruct (firstStale w c r (sources c)) as [reason|] eqn:Hfirst.
    + split; [done|]. intros Hall.
      apply firstStale_Some in Hfirst as (before & src & after & Hsrc & _ & Hstale).
      assert (pairMatches w c r src) as Hm%staleReason_None.
      { apply Hall. rewrite Hsrc. apply elem_of_app. right. apply list_elem_of_here. }
      congruence.
    + split; [|done]. intros _ src Hsrc. apply staleReason_None.
      by apply (proj1 (firstStale_None w c r (sources c)) Hfirst).
  - intros reason.
    destruct (firstStale w c r (sources c)) as [reason'|] eqn:Hfirst; [|done].
    intros [= <-].
    apply firstStale_Some in Hfirst as (before & src & after & Hsrc & Hbefore & Hstale).
    exists before, src, after. split_and!; [done| | |done].
    + apply Forall_forall. intros s Hs. by apply staleReason_None, Hbefore.
    + intros Hm%staleReason_None. congruence.
  - intros b reason. destruct (firstStale w c r (sources c)); by intros [= <- <-].
Qed.

(** Scenario B: the engine answers current at revision 1, so the configured
    source matches its snapshot. *)
Lemma isLatestRevisionCurrent_first_mismatch_witness :
  Forall (pairMatches worldB controllerA 1) (sources controllerA).
Proof.
  apply (proj1 (proj1 (proj2 (isLatestRevisionCurrent_first_mismatch controllerA 1 worldB)))).
  vm_compute. reflexivity.
Defined.

Lemma notFound_idemp (err : option error) : notFound (notFound err) = notFound err.
Proof.
  destruct err as [e|]; [|done]. cbn [notFound].
  destruct (IsNotFound (Some e)) eqn:He; [|done]. cbn [notFound]. by rewrite He.
Qed.

Lemma notFound_other (e : error) : IsNotFound (Some e) = false → notFound (Some e) = None.
Proof. intros He. cbn [notFound]. by rewrite He. Qed.

(** Two implementations that agree on every round agree on the loop. *)
Lemma range_agree {W A R} (h h' : Handler W) (l : list A)
    (body : A → Prog (option R)) :
  (∀ x w, (run h (body x) w).1 = (run h' (body x) w).1) →
  ∀ w, (run h (range l body) w).1 = (run h' (range l body) w).1.
Proof.
  intros Hbody. induction l as [|x l IH]; intros w; [done|].
  rewrite !run_range_cons. specialize (Hbody x w).
  destruct (run h (body x) w) as [[res w1] t1], (run h' (body x) w) as [[res' w1'] t1'].
  cbn [fst] in Hbody. injection Hbody as <- <-.
  destruct res; [done|]. specialize (IH w1).
  destruct (run h (range l body) w1) as [[res2 w2] t2],
           (run h' (range l body) w1) as [[res2' w2'] t2'].
  cbn [fst] in *. congruence.
Qed.

(** A loop whose every round falls through falls through. *)
Lemma range_falls_through {W A R} (h : Handler W) (l : list A)
    (body : A → Prog (option R)) :
  (∀ x w, (run h (body x) w).1.1 = None) →
  ∀ w, (run h (range l body) w).1.1 = None.
Proof.
  intros Hbody. induction l as [|x l IH]; intros w; [done|].
  rewrite run_range_cons. specialize (Hbody x w).
  destruct (run h (body x) w) as [[res w1] t1]. cbn [fst] in Hbody. subst res.
  specialize (IH w1). by destruct (run h (range l body) w1) as [[res2 w2] t2].
Qed.

(** C9. The engine treats only NotFound as decisive.  Against any
    implementation of the stores its verdict is the one it would give if
    every other error of a [Get] were erased from the reply: such an error is
    dropped and the comparison goes on with the objects returned.  So when
    every [Get] fails with an error other than NotFound and returns the zero
    object, the engine answers current with the empty reason. *)
Theorem isLatestRevisionCurrent_discards_other_errors {W} (h : Handler W)
    (c : RevisionController) (r : Z) (w : W) :
  result h (isLatestRevisionCurrent c r) w
    = result (discardOtherErrors h) (isLatestRevisionCurrent c r) w ∧
  ((∀ namespace name w', ∃ e,
      (h (ConfigMapsGet namespace name) w').1 = (zeroConfigMap, Some e) ∧
      IsNotFound (Some e) = false) →
   (∀ namespace name w', ∃ e,
      (h (SecretsGet namespace name) w').1 = (zeroSecret, Some e) ∧
      IsNotFound (Some e) = false) →
   result h (isLatestRevisionCurrent c r) w = (true, "")).
Proof.
  unfold result. split.
  - cut ((run h (isLatestRevisionCurrent c r) w).1
         = (run (discardOtherErrors h) (isLatestRevisionCurrent c r) w).1);
      [by intros ->|].
    unfold isLatestRevisionCurrent. rewrite !run_bind.
    match goal with |- context [run h (range (configMaps c) ?b) w] =>
      pose proof (range_agree h (discardOtherErrors h) (configMaps c) b) as Hcm end.
    lapply Hcm; clear Hcm.
    2:{ intros name w'. cbn beta. rewrite !run_bind. do 2 run_call.
        cbn [discardOtherErrors].
        destruct (h (ConfigMapsGet _ name) w') as [[required err] w1]. cbn [fst snd].
        rewrite notFound_idemp. destruct (notFound err); [done|].
        rewrite !run_bind. do 2 run_call. cbn [discardOtherErrors].
        destruct (h (ConfigMapsGet _ _) w1) as [[existing err'] w2]. cbn [fst snd].
        rewrite notFound_idemp. destruct (notFound err'); [done|].
        by destruct (negb _). }
    intros Hcm. specialize (Hcm w).
    destruct (run h (range (configMaps c) _) w) as [[res w1] t1],
             (run (discardOtherErrors h) (range (configMaps c) _) w) as [[res' w1'] t1'].
    cbn [fst] in Hcm. injection Hcm as <- <-.
    destruct res; [done|]. rewrite !run_bind.
    match goal with |- context [run h (range (secrets c) ?b) w1] =>
      pose proof (range_agree h (discardOtherErrors h) (secrets c) b) as Hsec end.
    lapply Hsec; clear Hsec.
    2:{ intros name w'. cbn beta. rewrite !run_bind. do 2 run_call.
        cbn [discardOtherErrors].
        destruct (h (SecretsGet _ name) w') as [[required err] w2]. cbn [fst snd].
        rewrite notFound_idemp. destruct (notFound err); [done|].
        rewrite !run_bind. do 2 run_call. cbn [discardOtherErrors].
        destruct (h (SecretsGet _ _) w2) as [[existing err'] w3]. cbn [fst snd].
        rewrite notFound_idemp. destruct (notFound err'); [done|].
        by destruct (negb _). }
    intros Hsec. specialize (Hsec w1).
    destruct (run h (range (secrets c) _) w1) as [[res w2] t2],
             (run (discardOtherErrors h) (range (secrets c) _) w1) as [[res' w2'] t2'].
    cbn [fst] in Hsec. injection Hsec as <- <-.
    by destruct res.
  - intros Hcms Hsecs. unfold isLatestRevisionCurrent. rewrite run_bind.
    match goal with |- context [run h (range (configMaps c) ?b) w] =>
      pose proof (range_falls_through h (configMaps c) b) as Hcm end.
    lapply Hcm; clear Hcm.
    2:{ intros name w'. cbn beta. rewrite run_bind; run_call.
        destruct (Hcms (targetNamespace c) name w') as (e & He & Hother).
        destruct (h (ConfigMapsGet _ name) w') as [reply w1]. cbn [fst snd] in *. subst reply.
        rewrite (notFound_other e Hother). rewrite run_bind; run_call.
        destruct (Hcms (targetNamespace c) (nameFor name r) w1) as (e' & He' & Hother').
        destruct (h (ConfigMapsGet _ _) w1) as [reply w2]. cbn [fst snd] in *. subst reply.
        by rewrite (notFound_other e' Hother'). }
    intros Hcm. specialize (Hcm w).
    destruct (run h (range (configMaps c) _) w) as [[res w1] t1].
    cbn [fst] in Hcm. subst res. rewrite run_bind.
    match goal with |- context [run h (range (secrets c) ?b) w1] =>
      pose proof (range_falls_through h (secrets c) b) as Hsec end.
    lapply Hsec; clear Hsec.
    2:{ intros name w'. cbn beta. rewrite run_bind; run_call.
        destruct (Hsecs (targetNamespace c) name w') as (e & He & Hother).
        destruct (h (SecretsGet _ name) w') as [reply w2]. cbn [fst snd] in *. subst reply.
        rewrite (notFound_other e Hother). rewrite run_bind; run_call.
        destruct (Hsecs (targetNamespace c) (nameFor name r) w2) as (e' & He' & Hother').
        destruct (h (SecretsGet _ _) w2) as [reply w3]. cbn [fst snd] in *. subst reply.
        by rewrite (notFound_other e' Hother'). }
    intros Hsec. specialize (Hsec w1).
    destruct (run h (range (secrets c) _) w1) as [[res w2] t2].
    cbn [fst] in Hsec. by subst res.
Qed.

(** With every call failing on an internal error, the engine calls revision
    0 of scenario A current although its snapshot does not exist. *)
Lemma isLatestRevisionCurrent_discards_other_errors_witness :
  result (serve (failAll internalError)) (isLatestRevisionCurrent controllerA 0) worldA
    = (true, "") ∧
  isCurrentSpec worldA controllerA 0 = (false, "configmaps " +:+ fmt.verb_q "config-0" +:+ " not found").
Proof.
  split; [|reflexivity].
  apply (proj2 (isLatestRevisionCurrent_discards_other_errors
                  (serve (failAll internalError)) controllerA 0 worldA));
    intros namespace name w'; exists internalError; split; reflexivity.
Defined.

(** ** What the parts of a pass call *)

Lemma createNewRevision_calls {W} (h : Handler W) (c : RevisionController)
    (revision : Z) (w : W) :
  Forall (λ s, isConfigStoreCall (stepCall s) = true)
    (run h (createNewRevision c revision) w).2.
Proof.
  unfold createNewRevision. cbn zeta. rewrite run_bind; run_call.
  destruct (h (ApplyConfigMap _) w) as [[[applied changed] [e|]] w1]; cbn [fst snd].
  { rewrite run_ret. by repeat constructor. }
  rewrite run_bind.
  match goal with |- context [run h (range (configMaps c) ?b) w1] =>
    pose proof (range_trace_Forall h (λ s, isConfigStoreCall (stepCall s) = true)
                  (configMaps c) b) as Hcm end.
  lapply Hcm; clear Hcm.
  2:{ intros name w' _. cbn beta. rewrite run_bind; run_call.
      destruct (h _ w') as [[[obj ch] [e'|]] w'']; [|destruct obj];
        cbn; by repeat constructor. }
  intros Hcm. specialize (Hcm w1).
  destruct (run h (range (configMaps c) _) w1) as [[[v|] w2] t1].
  { rewrite run_ret. cbn. rewrite app_nil_r. by constructor. }
  rewrite run_bind.
  match goal with |- context [run h (range (secrets c) ?b) w2] =>
    pose proof (range_trace_Forall h (λ s, isConfigStoreCall (stepCall s) = true)
                  (secrets c) b) as Hsec end.
  lapply Hsec; clear Hsec.
  2:{ intros name w' _. cbn beta. rewrite run_bind; run_call.
      destruct (h _ w') as [[[obj ch] [e'|]] w'']; [|destruct obj];
        cbn; by repeat constructor. }
  intros Hsec. specialize (Hsec w2).
  destruct (run h (range (secrets c) _) w2) as [[[v|] w3] t2];
    rewrite run_ret; cbn; rewrite app_nil_r; constructor; try done;
    by apply Forall_app.
Qed.

Lemma isLatestRevisionCurrent_calls {W} (h : Handler W) (c : RevisionController)
    (revision : Z) (w : W) :
  Forall (λ s, isConfigStoreCall (stepCall s) = true)
    (run h (isLatestRevisionCurrent c revision) w).2.
Proof.
  eapply Forall_impl; [apply isLatestRevisionCurrent_reads|].
  intros [[] ?]; by cbn.
Qed.

Lemma updateErrors_app (t1 t2 : list Step) :
  updateErrors (t1 ++ t2) = updateErrors t1 ++ updateErrors t2.
Proof.
  induction t1 as [|[call reply] t1 IH]; [done|].
  destruct call; cbn; try exact IH. destruct reply.2; cbn; by rewrite IH.
Qed.

Lemma updateErrors_configStore (t : list Step) :
  Forall (λ s, isConfigStoreCall (stepCall s) = true) t → updateErrors t = [].
Proof.
  induction 1 as [|[call reply] t Hcall _ IH]; [done|]. by destruct call.
Qed.

Lemma eventsOf_app (t1 t2 : list Step) :
  eventsOf (t1 ++ t2) = eventsOf t1 ++ eventsOf t2.
Proof.
  induction t1 as [|[call reply] t1 IH]; [done|].
  destruct call; cbn; by rewrite ?IH.
Qed.

Lemma eventsOf_configStore (t : list Step) :
  Forall (λ s, isConfigStoreCall (stepCall s) = true) t → eventsOf t = [].
Proof.
  induction 1 as [|[call reply] t Hcall _ IH]; [done|]. by destruct call.
Qed.

Lemma updatesOf_app (t1 t2 : list Step) :
  updatesOf (t1 ++ t2) = updatesOf t1 ++ updatesOf t2.
Proof.
  induction t1 as [|[call reply] t1 IH]; [done|].
  destruct call; cbn; by rewrite ?IH.
Qed.

Lemma updatesOf_configStore (t : list Step) :
  Forall (λ s, isConfigStoreCall (stepCall s) = true) t → updatesOf t = [].
Proof.
  induction 1 as [|[call reply] t Hcall _ IH]; [done|]. by destruct call.
Qed.

(** C7. When the operator client answers with a management directive of
    Unmanaged or Removed, [sync] returns nil and its only call is that read:
    it calls neither store to write, decides nothing, creates nothing and
    updates no condition. *)
Theorem sync_unmanaged_or_removed_noop {W} (h : Handler W) (c : RevisionController)
    (w : W) (operatorSpec : OperatorSpec) (operatorStatus : StaticPodOperatorStatus)
    (resourceVersion : string) :
  (h OperatorClientGet w).1 = (operatorSpec, operatorStatus, resourceVersion, None) →
  managementState operatorSpec = Unmanaged ∨ managementState operatorSpec = Removed →
  result h (sync c) w = None ∧
  trace h (sync c) w
    = [mkStep OperatorClientGet (operatorSpec, operatorStatus, resourceVersion, None)] ∧
  final h (sync c) w = (h OperatorClientGet w).2 ∧
  Forall (λ call, isWrite call = false) (calls (trace h (sync c) w)).
Proof.
  intros Hget Hstate. unfold result, trace, final. rewrite run_sync. cbn zeta.
  rewrite Hget. destruct Hstate as [Hstate|Hstate]; rewrite Hstate; cbn.
  - split_and!; try done. by repeat constructor.
  - split_and!; try done. by repeat constructor.
Qed.

(** An unmanaged operator in the world of scenario A: the pass succeeds and
    leaves both stores and the recorder untouched. *)
Lemma sync_unmanaged_or_removed_noop_witness :
  let w := worldWith Unmanaged 0 "1" in
  result store (sync controllerA) w = None ∧
  calls (trace store (sync controllerA) w) = [OperatorClientGet] ∧
  final store (sync controllerA) w = tick w.
Proof.
  intros w.
  destruct (sync_unmanaged_or_removed_noop store controllerA w
              (mkOperatorSpec Unmanaged) (mkStaticPodOperatorStatus [] 0) "0")
    as (Hres & Htrace & Hfinal & _).
  - reflexivity.
  - left. reflexivity.
  - rewrite Hres, Htrace, Hfinal. split_and!; reflexivity.
Defined.

(** One turn of the worker, call by call. *)
Lemma run_processNextWorkItem {W} (h : Handler W) (c : RevisionController) (w0 : W) :
  run h (processNextWorkItem c) w0 =
  let got := h QueueGet w0 in
  let '(dsKey, quit) := got.1 in
  let get := mkStep QueueGet got.1 in
  if quit : bool then (false, got.2, [get]) else
  let '(err, w1, t) := run h (sync c) got.2 in
  match err with
  | None =>
      let forgot := h (QueueForget dsKey) w1 in
      let done_ := h (QueueDone dsKey) forgot.2 in
      (true, done_.2,
       get :: t ++ [mkStep (QueueForget dsKey) forgot.1; mkStep (QueueDone dsKey) done_.1])
  | Some e =>
      let report := HandleError (errorString (dsKey +:+ " failed with : " +:+ Error e)) in
      let reported := h report w1 in
      let added := h (QueueAddRateLimited dsKey) reported.2 in
      let done_ := h (QueueDone dsKey) added.2 in
      (true, done_.2,
       get :: t ++ [mkStep report reported.1;
                    mkStep (QueueAddRateLimited dsKey) added.1;
                    mkStep (QueueDone dsKey) done_.1])
  end.
Proof.
  unfold processNextWorkItem. rewrite run_bind; run_call.
  destruct (h QueueGet w0) as [[dsKey [|]] w]; cbn [fst snd].
  - by rewrite run_ret.
  - rewrite run_bind. destruct (run h (sync c) w) as [[[e|] w1] t].
    + rewrite run_bind; run_call.
      destruct (h (HandleError (errorString (dsKey +:+ " failed with : " +:+ Error e))) w1)
        as [[] w2].
      rewrite run_bind; run_call.
      destruct (h (QueueAddRateLimited dsKey) w2) as [[] w3].
      rewrite run_bind; run_call. destruct (h (QueueDone dsKey) w3) as [[] w4].
      by rewrite run_ret.
    + rewrite run_bind; run_call. destruct (h (QueueForget dsKey) w1) as [[] w2].
      rewrite run_bind; run_call. destruct (h (QueueDone dsKey) w2) as [[] w3].
      by rewrite run_ret.
Qed.

(** C6. When [createRevisionIfNeeded] asks for a requeue, [sync] returns an
    error: the synthetic requeue error when the pass produced no error of its
    own (and then [sync] stops there, without a further status write), the
    error of the pass otherwise.  The worker that ran such a pass reports the
    error and puts the key back with the rate limiter; it does not forget the
    key. *)
Theorem sync_requeue_is_error {W} (h : Handler W) (c : RevisionController) (w : W)
    (operatorSpec : OperatorSpec) (operatorStatus : StaticPodOperatorStatus)
    (resourceVersion : string) (syncErr : option error) :
  (h OperatorClientGet w).1 = (operatorSpec, operatorStatus, resourceVersion, None) →
  managementState operatorSpec ≠ Unmanaged →
  managementState operatorSpec ≠ Removed →
  result h (createRevisionIfNeeded c operatorSpec operatorStatus resourceVersion)
    (h OperatorClientGet w).2 = (true, syncErr) →
  ∃ e,
    result h (sync c) w = Some e ∧
    (syncErr = None →
       e = syntheticRequeue ∧
       Error e = "synthetic requeue request (err: <nil>)" ∧
       trace h (sync c) w
         = mkStep OperatorClientGet (operatorSpec, operatorStatus, resourceVersion, None)
           :: trace h (createRevisionIfNeeded c operatorSpec operatorStatus resourceVersion)
                (h OperatorClientGet w).2) ∧
    (∀ e', syncErr = Some e' → e = e') ∧
    (∀ w0 key,
       h QueueGet w0 = ((key, false), w) →
       calls (trace h (processNextWorkItem c) w0)
         = QueueGet :: calls (trace h (sync c) w)
           ++ [HandleError (errorString (key +:+ " failed with : " +:+ Error e));
               QueueAddRateLimited key; QueueDone key]).
Proof.
  intros Hget Hunmanaged Hremoved Hpass.
  assert (∃ e, result h (sync c) w = Some e ∧
               (syncErr = None →
                  e = syntheticRequeue ∧
                  trace h (sync c) w
                    = mkStep OperatorClientGet
                        (operatorSpec, operatorStatus, resourceVersion, None)
                      :: trace h (createRevisionIfNeeded c operatorSpec operatorStatus
                                    resourceVersion) (h OperatorClientGet w).2) ∧
               (∀ e', syncErr = Some e' → e = e')) as (e & Hres & Hnone & Hsome).
  { unfold result, trace in *. rewrite run_sync. cbn zeta. rewrite Hget.
    rewrite !bool_decide_false by done.
    destruct (run h (createRevisionIfNeeded _ _ _ _) _) as [[[requeue syncErr'] w2] t2].
    cbn [fst snd] in Hpass. injection Hpass as -> ->.
    destruct syncErr as [e'|]; cbn [andb].
    - rewrite bool_decide_false by done.
      destruct (h (UpdateStatus _) w2) as [[[st b] [u|]] w3]; cbn [fst snd];
        exists e'; split_and!; try done; by intros ? [= ->].
    - rewrite bool_decide_true by done. exists syntheticRequeue. by split_and!. }
  exists e. split_and!; try done.
  - intros Hs. destruct (Hnone Hs) as [-> ?]. by split_and!.
  - intros w0 key Hqueue. unfold result, trace in *.
    rewrite run_processNextWorkItem. cbn zeta. rewrite Hqueue. cbn [fst snd].
    destruct (run h (sync c) w) as [[res w1] t]. cbn [fst snd] in *. subst res.
    unfold calls. cbn [fst snd]. by rewrite map_cons, map_app.
Qed.

(** Scenario D: the secret [token] is absent, so the creation fails, the
    Failing condition is written, and the pass ends in the synthetic requeue
    error. *)
Lemma sync_requeue_is_error_witness :
  result store (sync controllerD) worldA = Some syntheticRequeue.
Proof.
  destruct (sync_requeue_is_error store controllerD worldA
              (mkOperatorSpec Managed) (mkStaticPodOperatorStatus [] 0) "0" None)
    as (e & Hres & Hnone & _).
  - reflexivity.
  - discriminate.
  - discriminate.
  - vm_compute. reflexivity.
  - destruct (Hnone eq_refl) as [-> _]. exact Hres.
Defined.

(** ** Which error a pass returns *)

(** [createRevisionIfNeeded] makes at most one status write, and the error it
    returns is the error of that write. *)
Lemma createRevisionIfNeeded_updateErrors {W} (h : Handler W) (c : RevisionController)
    (operatorSpec : OperatorSpec) (operatorStatus : StaticPodOperatorStatus)
    (resourceVersion : string) (w : W) :
  let out := run h (createRevisionIfNeeded c operatorSpec operatorStatus resourceVersion) w in
  updateErrors out.2 = match out.1.1.2 with Some u => [u] | None => [] end ∧
  (is_Some out.1.1.2 → out.1.1.1 = true).
Proof.
  cbn zeta. rewrite run_createRevisionIfNeeded. cbn zeta.
  pose proof (isLatestRevisionCurrent_calls h c (LatestAvailableRevision operatorStatus) w)
    as Ht1.
  destruct (run h (isLatestRevisionCurrent c _) w) as [[[[|] reason] w1] t1];
    cbn [fst snd] in *.
  { split; [by apply updateErrors_configStore|by intros [? ?]]. }
  pose proof (createNewRevision_calls h c
                (Int32.add (LatestAvailableRevision operatorStatus) 1) w1) as Ht2.
  destruct (run h (createNewRevision c _) w1) as [[[e|] w2] t2]; cbn [fst snd] in *.
  - destruct (h (UpdateStatus _) w2) as [[[st b] [u|]] w3]; cbn [fst snd];
      rewrite !updateErrors_app, (updateErrors_configStore t1 Ht1),
        (updateErrors_configStore t2 Ht2); cbn; split; try done; by intros [? ?].
  - destruct (h (UpdateStatus _) w2) as [[[st [|]] [u|]] w3]; cbn [fst snd];
      rewrite !updateErrors_app, (updateErrors_configStore t1 Ht1),
        (updateErrors_configStore t2 Ht2); cbn; split; try done; by intros [? ?].
Qed.

(** C4, as the code has it. The error [sync] returns when a status write of
    the pass failed is the error of the first status write that failed.  So
    the error of a failed creation is superseded by the error of the
    ContentCreationError write when that write fails as well, in
    [createRevisionIfNeeded] and hence in [sync]; and the final write of the
    Failing condition yields the returned error only when no status write
    failed before it. *)
Theorem sync_returns_first_update_error {W} (h : Handler W) (c : RevisionController)
    (w : W) (u : error) (later : list error) :
  updateErrors (trace h (sync c) w) = u :: later →
  result h (sync c) w = Some u ∧
  (∀ operatorSpec operatorStatus resourceVersion w1 u1,
     updateErrors
       (trace h (createRevisionIfNeeded c operatorSpec operatorStatus resourceVersion) w1)
       = [u1] →
     result h (createRevisionIfNeeded c operatorSpec operatorStatus resourceVersion) w1
       = (true, Some u1)).
Proof.
  intros Hfirst. split.
  - revert Hfirst. unfold trace, result. rewrite run_sync. cbn zeta.
    destruct (h OperatorClientGet w) as [[[[spec status] rv] [e|]] w1]; cbn [fst snd];
      [done|].
    repeat case_bool_decide; try done.
    destruct (createRevisionIfNeeded_updateErrors h c spec status rv w1) as [Herrs Hreq].
    cbn zeta in Herrs, Hreq.
    destruct (run h (createRevisionIfNeeded c spec status rv) w1)
      as [[[requeue syncErr] w2] t2]. cbn [fst snd] in *.
    destruct syncErr as [u1|].
    + rewrite (Hreq (mk_is_Some _ _ eq_refl)). cbn [andb]. rewrite bool_decide_false by done.
      destruct (h (UpdateStatus _) w2) as [[[st b] [u2|]] w3]; cbn [fst snd updateErrors];
        rewrite updateErrors_app, Herrs; cbn; by intros [= ->].
    + destruct requeue; cbn [andb]; [rewrite bool_decide_true by done|].
      * cbn [fst snd updateErrors]. by rewrite Herrs.
      * destruct (h (UpdateStatus _) w2) as [[[st b] [u2|]] w3]; cbn [fst snd updateErrors];
          rewrite updateErrors_app, Herrs; cbn; [by intros [= ->]|done].
  - intros spec status rv w1 u1. unfold trace, result.
    destruct (createRevisionIfNeeded_updateErrors h c spec status rv w1) as [Herrs Hreq].
    cbn zeta in Herrs, Hreq.
    destruct (run h (createRevisionIfNeeded c spec status rv) w1)
      as [[[requeue syncErr] w2] t2]. cbn [fst snd] in *.
    rewrite Herrs. destruct syncErr as [u'|]; [|done].
    intros [= ->]. by rewrite (Hreq (mk_is_Some _ _ eq_refl)).
Qed.

(** Scenario D with the write of the ContentCreationError condition failing
    on a conflict: the pass returns the conflict, not the not-found error of
    the creation. *)
Lemma sync_returns_first_update_error_witness :
  result (serve (failAt 6 conflict)) (createNewRevision controllerD 1)
    (final (serve (failAt 6 conflict)) (isLatestRevisionCurrent controllerD 0) (tick worldA))
    = Some (NewNotFound "secrets" "token") ∧
  result (serve (failAt 6 conflict)) (sync controllerD) worldA = Some conflict.
Proof.
  split; [vm_compute; reflexivity|].
  apply (sync_returns_first_update_error (serve (failAt 6 conflict)) controllerD worldA
           conflict []).
  vm_compute. reflexivity.
Defined.

(** C4, as stated, fails in [sync]: in scenario A with the status write that
    advances the revision failing on a conflict and the final write of the
    Failing condition failing on a timeout, [createRevisionIfNeeded] returns
    the conflict, the final write fails, and [sync] returns the conflict (the
    original cause) instead of the timeout of the final write. *)
Lemma sync_final_write_error_superseded :
  let plan := failAt2 5 conflict 6 timeout in
  result (serve plan)
    (createRevisionIfNeeded controllerA (mkOperatorSpec Managed)
       (mkStaticPodOperatorStatus [] 0) "0") (tick worldA) = (true, Some conflict) ∧
  stepError <$> last (trace (serve plan) (sync controllerA) worldA) = Some (Some timeout) ∧
  calls (trace (serve plan) (sync controllerA) worldA) !! 6%nat
    = Some (UpdateStatus [UpdateConditionFn (finalCondition (Some conflict))]) ∧
  length (trace (serve plan) (sync controllerA) worldA) = 7%nat ∧
  result (serve plan) (sync controllerA) worldA = Some conflict ∧
  result (serve plan) (sync controllerA) worldA ≠ Some timeout.
Proof.
  cbn zeta. split_and!; try (vm_compute; reflexivity). vm_compute. discriminate.
Qed.

(** ** The RevisionCreate event *)

Lemma length_append (a b : string) :
  String.length (a +:+ b) = (String.length a + String.length b)%nat.
Proof.
  induction a as [|x a IH]; [done|].
  change (String x a +:+ b) with (String x (a +:+ b)).
  cbn [String.length]. by rewrite IH.
Qed.

Lemma append_inj_r (a b s : string) : a +:+ s = b +:+ s → a = b.
Proof.
  revert b. induction a as [|x a IH]; intros [|y b] Heq.
  - done.
  - change (s = String y (b +:+ s)) in Heq.
    apply (f_equal String.length) in Heq. cbn [String.length] in Heq.
    rewrite length_append in Heq. lia.
  - change (String x (a +:+ s) = s) in Heq.
    apply (f_equal String.length) in Heq. cbn [String.length] in Heq.
    rewrite length_append in Heq. lia.
  - change (String x (a +:+ s) = String y (b +:+ s)) in Heq.
    injection Heq as -> Heq. by rewrite (IH b Heq).
Qed.

Lemma revisionCreateMessage_inj (r1 r2 : Z) (reason : string) :
  revisionCreateMessage r1 reason = revisionCreateMessage r2 reason → r1 = r2.
Proof.
  unfold revisionCreateMessage, fmt.verb_d. intros Heq.
  apply (inj (String.app "Revision ")) in Heq.
  apply (inj pretty).
  apply (append_inj_r _ _ (" created because " +:+ reason)). exact Heq.
Qed.

Lemma Int32_add_1_neq (x : Z) : Int32.add x 1 ≠ x.
Proof.
  unfold Int32.add, Int32.wrap. intros Heq.
  pose proof (Z.mod_pos_bound (x + 1 + 2147483648) 4294967296 eq_refl) as Hbound.
  pose proof (Z.div_mod (x + 1 + 2147483648) 4294967296 ltac:(done)) as Hdiv.
  lia.
Qed.

(** C10. When the creation of revision latest+1 succeeded and the status
    write that records it reported an update, the only event the function
    records is RevisionCreate and its text names [LatestAvailableRevision] of the status
    the function was called with (the old revision), which is not the text
    for the revision just recorded: the mutator sets the revision of the
    status it is handed, not of the copy the text is formatted from. *)
Theorem revision_create_event_reports_old_revision {W} (h : Handler W)
    (c : RevisionController) (operatorSpec : OperatorSpec)
    (operatorStatus : StaticPodOperatorStatus) (resourceVersion : string) (w : W)
    (reason : string) (w1 w2 : W) (t1 t2 : list Step) (written : StaticPodOperatorStatus) :
  let latestRevision := LatestAvailableRevision operatorStatus in
  let nextRevision := Int32.add latestRevision 1 in
  let update := UpdateStatus [UpdateConditionFn notFailingCondition;
                              setLatestAvailableRevision nextRevision] in
  run h (isLatestRevisionCurrent c latestRevision) w = ((false, reason), w1, t1) →
  run h (createNewRevision c nextRevision) w1 = (None, w2, t2) →
  (h update w2).1 = (written, true, None) →
  result h (createRevisionIfNeeded c operatorSpec operatorStatus resourceVersion) w
    = (false, None) ∧
  updatesOf (trace h (createRevisionIfNeeded c operatorSpec operatorStatus resourceVersion) w)
    = [[UpdateConditionFn notFailingCondition; setLatestAvailableRevision nextRevision]] ∧
  (∀ st, LatestAvailableRevision
           (applyUpdateFuncs [UpdateConditionFn notFailingCondition;
                              setLatestAvailableRevision nextRevision] st).1
         = nextRevision) ∧
  eventsOf (trace h (createRevisionIfNeeded c operatorSpec operatorStatus resourceVersion) w)
    = [("RevisionCreate", revisionCreateMessage latestRevision reason)] ∧
  revisionCreateMessage latestRevision reason ≠ revisionCreateMessage nextRevision reason.
Proof.
  intros latestRevision nextRevision update Hcurrent Hcreate Hupdate.
  unfold result, trace. rewrite run_createRevisionIfNeeded. cbn zeta.
  fold latestRevision nextRevision. rewrite Hcurrent, Hcreate. fold update.
  rewrite Hupdate. cbn [fst snd].
  pose proof (isLatestRevisionCurrent_calls h c latestRevision w) as Ht1.
  pose proof (createNewRevision_calls h c nextRevision w1) as Ht2.
  rewrite Hcurrent in Ht1. rewrite Hcreate in Ht2. cbn [fst snd] in Ht1, Ht2.
  rewrite !updatesOf_app, !eventsOf_app.
  rewrite (updatesOf_configStore t1 Ht1), (updatesOf_configStore t2 Ht2).
  rewrite (eventsOf_configStore t1 Ht1), (eventsOf_configStore t2 Ht2).
  split_and!; try done.
  intros Heq%revisionCreateMessage_inj. symmetry in Heq.
  by apply Int32_add_1_neq in Heq.
Qed.

(** Scenario A: revision 1 is created and recorded, and the event says
    revision 0. *)
Lemma revision_create_event_reports_old_revision_witness :
  LatestAvailableRevision
    (wStatus (final store
      (createRevisionIfNeeded controllerA (mkOperatorSpec Managed)
         (mkStaticPodOperatorStatus [] 0) "0") worldA)) = 1 ∧
  eventsOf (trace store
    (createRevisionIfNeeded controllerA (mkOperatorSpec Managed)
       (mkStaticPodOperatorStatus [] 0) "0") worldA)
  = [("RevisionCreate",
      "Revision 0 created because configmaps " +:+ fmt.verb_q "config-0" +:+ " not found")].
Proof.
  split; [vm_compute; reflexivity|].
  pose (w1 := final store (isLatestRevisionCurrent controllerA 0) worldA).
  pose (w2 := final store (createNewRevision controllerA 1) w1).
  refine (proj1 (proj2 (proj2 (proj2
    (revision_create_event_reports_old_revision store controllerA
       (mkOperatorSpec Managed) (mkStaticPodOperatorStatus [] 0) "0" worldA
       ("configmaps " +:+ fmt.verb_q "config-0" +:+ " not found")
       w1 w2
       (trace store (isLatestRevisionCurrent controllerA 0) worldA)
       (trace store (createNewRevision controllerA 1) w1)
       (mkStaticPodOperatorStatus [notFailingCondition] 1) _ _ _))))).
  - vm_compute. reflexivity.
  - vm_compute. reflexivity.
  - vm_compute. reflexivity.
Defined.

(** ** The error of a missing source *)

Lemma prefixb_app (p s : string) : prefixb p (p +:+ s) = true.
Proof.
  induction p as [|a p IH]; [done|].
  change (String a p +:+ s) with (String a (p +:+ s)). cbn [prefixb].
  by rewrite bool_decide_true, IH.
Qed.

Lemma infixb_prefixb (p s : string) : prefixb p s = true → infixb p s = true.
Proof. intros H. destruct s; cbn [infixb]; by rewrite H. Qed.

Lemma infixb_app_l (p a s : string) : infixb p s = true → infixb p (a +:+ s) = true.
Proof.
  intros H. induction a as [|x a IH]; [done|].
  change (String x a +:+ s) with (String x (a +:+ s)). cbn [infixb].
  rewrite IH. apply orb_true_r.
Qed.

Lemma prefixb_app_r (p s b : string) : prefixb p s = true → prefixb p (s +:+ b) = true.
Proof.
  revert s. induction p as [|x p IH]; intros [|y s]; cbn [prefixb]; try done.
  change (String y s +:+ b) with (String y (s +:+ b)). cbn [prefixb].
  intros [-> ?]%andb_true_iff. rewrite andb_true_iff. split; [done|by apply IH].
Qed.

Lemma infixb_app_r (p s b : string) : infixb p s = true → infixb p (s +:+ b) = true.
Proof.
  induction s as [|x s IH].
  - destruct p; [|done]. intros _. by destruct b.
  - change (String x s +:+ b) with (String x (s +:+ b)). cbn [infixb].
    intros [H|H]%orb_true_iff; apply orb_true_iff.
    + left. by apply (prefixb_app_r p (String x s) b).
    + right. by apply IH.
Qed.

Lemma NewNotFound_names (resource name : string) :
  IsNotFound (Some (NewNotFound resource name)) = true ∧
  infixb resource (Error (NewNotFound resource name)) = true ∧
  infixb name (Error (NewNotFound resource name)) = true.
Proof.
  split_and!; [done| |].
  - apply infixb_prefixb, prefixb_app.
  - cbn [Error NewNotFound]. unfold fmt.verb_q.
    apply infixb_app_l, infixb_app_l, infixb_app_r, infixb_app_l, infixb_prefixb,
      prefixb_app.
Qed.

(** C5, as the code has it. When a snapshot copy of [createNewRevision]
    reports no object and no error, the operation fails with the not-found
    error built from the resource (configmaps or secrets) and the name of the
    missing source: its text is [<resource> "<name>" not found].  The
    namespace is not given to the error. *)
Theorem createNewRevision_not_found_names_source {W} (h : Handler W)
    (c : RevisionController) (revision : Z) (w : W) (resource name : string) (s : Step) :
  s ∈ trace h (createNewRevision c revision) w →
  copyFoundNothing resource name s →
  result h (createNewRevision c revision) w = Some (NewNotFound resource name) ∧
  IsNotFound (Some (NewNotFound resource name)) = true ∧
  Error (NewNotFound resource name) = resource +:+ " " +:+ fmt.verb_q name +:+ " not found" ∧
  infixb resource (Error (NewNotFound resource name)) = true ∧
  infixb name (Error (NewNotFound resource name)) = true.
Proof.
  intros Hs Hnothing.
  destruct (NewNotFound_names resource name) as (Hnf & Hres & Hname).
  split_and!; try done. clear Hnf Hres Hname.
  revert Hs. unfold trace, result, createNewRevision. cbn zeta.
  rewrite run_bind; run_call.
  destruct (h (ApplyConfigMap _) w) as [[[applied changed] [e|]] w1]; cbn [fst snd].
  { rewrite run_ret. cbn. intros [->|[]%elem_of_nil]%elem_of_cons. by destruct Hnothing. }
  rewrite run_bind.
  match goal with |- context [run h (range (configMaps c) ?b) w1] =>
    pose proof (range_trace_decides h (copyFoundNothing resource name)
                  (Some (NewNotFound resource name)) (configMaps c) b) as Hcm end.
  lapply Hcm; clear Hcm.
  2:{ intros name' w' s'. cbn beta. rewrite run_bind; run_call.
      destruct (h _ w') as [[[obj ch] [e'|]] w'']; [|destruct obj]; cbn;
        intros [->|[]%elem_of_nil]%elem_of_cons; cbn;
        intros (-> & -> & Hobj & Herr); done. }
  intros Hcm. specialize (Hcm w1 s).
  destruct (run h (range (configMaps c) _) w1) as [[[v|] w2] t1]; cbn [fst snd] in *.
  { rewrite run_ret. cbn. rewrite app_nil_r.
    intros [->|Hs]%elem_of_cons; [by destruct Hnothing|].
    specialize (Hcm Hs Hnothing). by injection Hcm as ->. }
  rewrite run_bind.
  match goal with |- context [run h (range (secrets c) ?b) w2] =>
    pose proof (range_trace_decides h (copyFoundNothing resource name)
                  (Some (NewNotFound resource name)) (secrets c) b) as Hsec end.
  lapply Hsec; clear Hsec.
  2:{ intros name' w' s'. cbn beta. rewrite run_bind; run_call.
      destruct (h _ w') as [[[obj ch] [e'|]] w'']; [|destruct obj]; cbn;
        intros [->|[]%elem_of_nil]%elem_of_cons; cbn;
        intros (-> & -> & Hobj & Herr); done. }
  intros Hsec. specialize (Hsec w2 s).
  destruct (run h (range (secrets c) _) w2) as [[[v|] w3] t2]; cbn [fst snd] in *;
    rewrite run_ret; cbn; rewrite app_nil_r;
    (intros [->|[Hs|Hs]%elem_of_app]%elem_of_cons;
     [by destruct Hnothing|by specialize (Hcm Hs Hnothing)|]);
    specialize (Hsec Hs Hnothing); [by injection Hsec as ->|done].
Qed.

(** The configmap [config] is absent from the empty store: the creation of
    revision 1 fails with the not-found error of [config]. *)
Lemma createNewRevision_not_found_names_source_witness :
  result store (createNewRevision controllerN 1) emptyWorld
    = Some (NewNotFound "configmaps" "config").
Proof.
  refine (proj1 (createNewRevision_not_found_names_source store controllerN 1 emptyWorld
           "configmaps" "config"
           (mkStep (SyncConfigMap "openshift-authentication" "config"
                      "openshift-authentication" "config-1"
                      [mkOwnerReference "" "" "revision-status-1"
                         "openshift-authentication/revision-status-1"])
              (None, false, None)) _ _)).
  - vm_compute. apply list_elem_of_further, list_elem_of_here.
  - vm_compute. by split_and!.
Defined.

(** C5, as stated, fails: in the namespace [openshift-authentication] with
    the source [config] absent, the copy reports no object, the operation
    fails with a not-found error, and that error names [config] but not the
    namespace. *)
Lemma createNewRevision_not_found_omits_namespace :
  targetNamespace controllerN = "openshift-authentication" ∧
  last (trace store (createNewRevision controllerN 1) emptyWorld)
    = Some (mkStep (SyncConfigMap "openshift-authentication" "config"
                      "openshift-authentication" "config-1"
                      [mkOwnerReference "" "" "revision-status-1"
                         "openshift-authentication/revision-status-1"])
              (None, false, None)) ∧
  result store (createNewRevision controllerN 1) emptyWorld
    = Some (NewNotFound "configmaps" "config") ∧
  IsNotFound (Some (NewNotFound "configmaps" "config")) = true ∧
  names (NewNotFound "configmaps" "config") "config" = true ∧
  names (NewNotFound "configmaps" "config") "openshift-authentication" = false.
Proof. split_and!; vm_compute; reflexivity. Qed.

(** ** The revision counter in the model of the stores *)

Lemma serve_configStore_status (plan : FaultPlan) (call : Call) (w : World) :
  isConfigStoreCall call = true → wStatus (serve plan call w).2 = wStatus w.
Proof.
  destruct call; try done; intros _; unfold serve; destruct (plan (wClock w)); cbn;
    try done.
  - by destruct (wConfigMaps w !! _).
  - by destruct (wSecrets w !! _).
  - by destruct (wConfigMaps w !! _).
  - by destruct (wSecrets w !! _).
Qed.

Lemma serve_run_configStore_status {A} (plan : FaultPlan) (m : Prog A) (w : World) :
  Forall (λ s, isConfigStoreCall (stepCall s) = true) (run (serve plan) m w).2 →
  wStatus (run (serve plan) m w).1.2 = wStatus w.
Proof.
  intros Hcalls.
  apply (run_preserves (serve plan) (λ w', wStatus w' = wStatus w)
           (λ call, isConfigStoreCall call = true)); [| |done].
  - intros call w' Hcall <-. by apply serve_configStore_status.
  - unfold calls. by apply Forall_map.
Qed.

Lemma SetOperatorCondition_elem (conditions : list OperatorCondition)
    (cond : OperatorCondition) :
  cond ∈ SetOperatorCondition conditions cond.
Proof.
  induction conditions as [|x l IH]; cbn; [apply list_elem_of_here|].
  case_bool_decide; [apply list_elem_of_here|by apply list_elem_of_further].
Qed.

(** A status write that only sets a condition. *)
Lemma serve_UpdateStatus_condition (plan : FaultPlan) (cond : OperatorCondition)
    (w : World) :
  let out := serve plan (UpdateStatus [UpdateConditionFn cond]) w in
  out.1.2 = plan (wClock w) ∧
  LatestAvailableRevision (wStatus out.2) = LatestAvailableRevision (wStatus w) ∧
  (out.1.2 = None → cond ∈ Conditions (wStatus out.2)).
Proof.
  unfold serve. destruct (plan (wClock w)) as [e|]; cbn; [done|].
  case_bool_decide as Heq; cbn.
  - split_and!; try done. intros _. rewrite <-Heq. cbn. apply SetOperatorCondition_elem.
  - split_and!; try done. intros _. apply SetOperatorCondition_elem.
Qed.

(** The status write that records the new revision. *)
Lemma serve_UpdateStatus_advance (plan : FaultPlan) (cond : OperatorCondition)
    (nextRevision : Z) (w : World) :
  let out := serve plan (UpdateStatus [UpdateConditionFn cond;
                                       setLatestAvailableRevision nextRevision]) w in
  out.1.2 = plan (wClock w) ∧
  match plan (wClock w) with
  | Some _ => wStatus out.2 = wStatus w
  | None => LatestAvailableRevision (wStatus out.2) = nextRevision
  end.
Proof.
  unfold serve. destruct (plan (wClock w)) as [e|]; cbn; [done|].
  case_bool_decide as Heq; cbn; [|done]. split; [done|]. by rewrite <-Heq.
Qed.

Lemma serve_recorder_status (plan : FaultPlan) (call : Call) (w : World) :
  match call with Warningf _ _ | Eventf _ _ => True | _ => False end →
  wStatus (serve plan call w).2 = wStatus w.
Proof. destruct call; try done; intros _; unfold serve; by destruct (plan (wClock w)). Qed.

(** What a loop returns was returned by one of its rounds. *)
Lemma range_returns {W A R} (h : Handler W) (P : R → Prop) (l : list A)
    (body : A → Prog (option R)) :
  (∀ x w v, (run h (body x) w).1.1 = Some v → P v) →
  ∀ w v, (run h (range l body) w).1.1 = Some v → P v.
Proof.
  intros Hbody. induction l as [|x l IH]; intros w v; [done|].
  rewrite run_range_cons. specialize (Hbody x w).
  destruct (run h (body x) w) as [[[v'|] w1] t1]; cbn [fst snd] in *.
  - intros [= <-]. by apply Hbody.
  - specialize (IH w1 v). by destruct (run h (range l body) w1) as [[r' w2] t2].
Qed.

(** A creation that returned nil made every copy succeed. *)
Lemma createNewRevision_None_copies {W} (h : Handler W) (c : RevisionController)
    (revision : Z) (w : W) :
  (run h (createNewRevision c revision) w).1.1 = None →
  Forall copySucceeded (run h (createNewRevision c revision) w).2.
Proof.
  unfold createNewRevision. cbn zeta. rewrite run_bind; run_call.
  destruct (h (ApplyConfigMap _) w) as [[[applied changed] [e|]] w1]; cbn [fst snd].
  { by rewrite run_ret. }
  rewrite run_bind.
  match goal with |- context [run h (range (configMaps c) ?b) w1] =>
    pose proof (range_trace_None h copySucceeded (configMaps c) b) as Hcm end.
  lapply Hcm; clear Hcm.
  2:{ intros name w'. cbn beta. rewrite run_bind; run_call.
      destruct (h _ w') as [[[obj ch] [e'|]] w'']; [|destruct obj]; cbn; try done.
      intros _. repeat constructor. by eexists. }
  intros Hcm. specialize (Hcm w1).
  match goal with |- context [run h (range (configMaps c) ?b) w1] =>
    pose proof (range_returns h (λ v : option error, v ≠ None) (configMaps c) b) as Hcm' end.
  lapply Hcm'; clear Hcm'.
  2:{ intros name w' v. cbn beta. rewrite run_bind; run_call.
      destruct (h _ w') as [[[obj ch] [e'|]] w'']; [|destruct obj]; cbn; try done;
        by intros [= <-]. }
  intros Hcm'. specialize (Hcm' w1).
  destruct (run h (range (configMaps c) _) w1) as [[[v|] w2] t1]; cbn [fst snd] in *.
  { rewrite run_ret. cbn. intros ->. by destruct (Hcm' None). }
  rewrite run_bind.
  match goal with |- context [run h (range (secrets c) ?b) w2] =>
    pose proof (range_trace_None h copySucceeded (secrets c) b) as Hsec;
    pose proof (range_returns h (λ v : option error, v ≠ None) (secrets c) b) as Hsec' end.
  lapply Hsec; clear Hsec.
  2:{ intros name w'. cbn beta. rewrite run_bind; run_call.
      destruct (h _ w') as [[[obj ch] [e'|]] w'']; [|destruct obj]; cbn; try done.
      intros _. repeat constructor. by eexists. }
  lapply Hsec'; clear Hsec'.
  2:{ intros name w' v. cbn beta. rewrite run_bind; run_call.
      destruct (h _ w') as [[[obj ch] [e'|]] w'']; [|destruct obj]; cbn; try done;
        by intros [= <-]. }
  intros Hsec' Hsec. specialize (Hsec w2). specialize (Hsec' w2).
  destruct (run h (range (secrets c) _) w2) as [[[v|] w3] t2]; cbn [fst snd] in *;
    rewrite run_ret; cbn; [intros ->; by destruct (Hsec' None)|].
  intros _. rewrite app_nil_r. constructor; [done|]. apply Forall_app; auto.
Qed.

(** [createRevisionIfNeeded] over the model of the stores, by the outcome of
    its decision, of its creation and of its status write. *)
Lemma serve_createRevisionIfNeeded (plan : FaultPlan) (c : RevisionController)
    (operatorSpec : OperatorSpec) (operatorStatus : StaticPodOperatorStatus)
    (resourceVersion : string) (w : World) :
  let latestRevision := LatestAvailableRevision operatorStatus in
  let nextRevision := Int32.add latestRevision 1 in
  let out := run (serve plan)
               (createRevisionIfNeeded c operatorSpec operatorStatus resourceVersion) w in
  let decided := run (serve plan) (isLatestRevisionCurrent c latestRevision) w in
  let created := run (serve plan) (createNewRevision c nextRevision) decided.1.2 in
  if decided.1.1.1 then out.1.1 = (false, None) ∧ wStatus out.1.2 = wStatus w
  else
    match created.1.1 with
    | Some e =>
        out.1.1.1 = true ∧
        LatestAvailableRevision (wStatus out.1.2) = LatestAvailableRevision (wStatus w) ∧
        updatesOf out.2 = [[UpdateConditionFn (creationFailedCondition e)]] ∧
        (out.1.1.2 = None → creationFailedCondition e ∈ Conditions (wStatus out.1.2))
    | None =>
        updatesOf out.2 = [[UpdateConditionFn notFailingCondition;
                            setLatestAvailableRevision nextRevision]] ∧
        match plan (wClock created.1.2) with
        | Some u => out.1.1 = (true, Some u) ∧ wStatus out.1.2 = wStatus w
        | None => out.1.1 = (false, None) ∧
                  LatestAvailableRevision (wStatus out.1.2) = nextRevision
        end
    end.
Proof.
  cbn zeta. rewrite run_createRevisionIfNeeded. cbn zeta.
  pose proof (isLatestRevisionCurrent_calls (serve plan) c
                (LatestAvailableRevision operatorStatus) w) as Ht1.
  pose proof (serve_run_configStore_status plan _ w Ht1) as Hw1.
  destruct (run (serve plan) (isLatestRevisionCurrent c _) w) as [[[[|] reason] w1] t1];
    cbn [fst snd] in *; [done|].
  pose proof (createNewRevision_calls (serve plan) c
                (Int32.add (LatestAvailableRevision operatorStatus) 1) w1) as Ht2.
  pose proof (serve_run_configStore_status plan _ w1 Ht2) as Hw2.
  destruct (run (serve plan) (createNewRevision c _) w1) as [[[e|] w2] t2];
    cbn [fst snd] in *.
  - destruct (serve_UpdateStatus_condition plan (creationFailedCondition e) w2)
      as (Herr & Hrev & Hcond). cbn zeta in *.
    destruct (serve plan (UpdateStatus _) w2) as [[[st b] err] w3]. cbn [fst snd] in *.
    rewrite Hw2, Hw1 in Hrev.
    destruct err as [u|]; cbn [fst snd].
    + rewrite (serve_recorder_status plan (Warningf _ _) w3 I).
      rewrite !updatesOf_app, (updatesOf_configStore t1 Ht1),
        (updatesOf_configStore t2 Ht2). by split_and!.
    + rewrite !updatesOf_app, (updatesOf_configStore t1 Ht1),
        (updatesOf_configStore t2 Ht2). by split_and!.
  - destruct (serve_UpdateStatus_advance plan notFailingCondition
                (Int32.add (LatestAvailableRevision operatorStatus) 1) w2)
      as (Herr & Hadv). cbn zeta in *.
    destruct (serve plan (UpdateStatus _) w2) as [[[st b] err] w3] eqn:Hwrite.
    cbn [fst snd] in *. subst err.
    destruct (plan (wClock w2)) as [u|] eqn:Hplan; cbn [fst snd].
    + rewrite !updatesOf_app, (updatesOf_configStore t1 Ht1),
        (updatesOf_configStore t2 Ht2). split_and!; try done. congruence.
    + destruct b; cbn [fst snd];
        rewrite ?(serve_recorder_status plan (Eventf _ _) w3 I);
        rewrite !updatesOf_app, (updatesOf_configStore t1 Ht1),
          (updatesOf_configStore t2 Ht2); by split_and!.
Qed.

(** C3, as the code has it. In the model of the stores, for a pass that
    found the revision stale: if [createNewRevision] returns an error, a
    requeue is returned, the revision counter stays, and the one status write
    made is the one that sets the Failing condition to true with reason
    ContentCreationError and the error text as message (the condition is in
    the status when that write did not fail).  The counter changes only if the
    creation returned nil, so that every copy succeeded, and the write that
    records the revision did not fail; and in that case it becomes the next
    revision. *)
Theorem createRevisionIfNeeded_counter_and_creation (plan : FaultPlan)
    (c : RevisionController) (operatorSpec : OperatorSpec)
    (operatorStatus : StaticPodOperatorStatus) (resourceVersion : string) (w : World) :
  let latestRevision := LatestAvailableRevision operatorStatus in
  let nextRevision := Int32.add latestRevision 1 in
  let out := run (serve plan)
               (createRevisionIfNeeded c operatorSpec operatorStatus resourceVersion) w in
  let decided := run (serve plan) (isLatestRevisionCurrent c latestRevision) w in
  let created := run (serve plan) (createNewRevision c nextRevision) decided.1.2 in
  (∀ e, decided.1.1.1 = false → created.1.1 = Some e →
     out.1.1.1 = true ∧
     revisionOf out.1.2 = revisionOf w ∧
     updatesOf out.2 = [[UpdateConditionFn (creationFailedCondition e)]] ∧
     creationFailedCondition e
       = mkOperatorCondition "RevisionControllerFailing" ConditionTrue
           "ContentCreationError" (Error e) ∧
     (∀ st, LatestAvailableRevision (UpdateConditionFn (creationFailedCondition e) st).1
            = LatestAvailableRevision st) ∧
     (out.1.1.2 = None → creationFailedCondition e ∈ Conditions (wStatus out.1.2))) ∧
  (revisionOf out.1.2 ≠ revisionOf w →
     decided.1.1.1 = false ∧
     created.1.1 = None ∧
     Forall copySucceeded created.2 ∧
     plan (wClock created.1.2) = None ∧
     out.1.1 = (false, None) ∧
     revisionOf out.1.2 = nextRevision) ∧
  (decided.1.1.1 = false → created.1.1 = None → plan (wClock created.1.2) = None →
     out.1.1 = (false, None) ∧ revisionOf out.1.2 = nextRevision).
Proof.
  cbn zeta. unfold revisionOf.
  pose proof (serve_createRevisionIfNeeded plan c operatorSpec operatorStatus
                resourceVersion w) as Hrun. cbn zeta in Hrun.
  pose proof (createNewRevision_None_copies (serve plan) c
                (Int32.add (LatestAvailableRevision operatorStatus) 1)
                (run (serve plan)
                   (isLatestRevisionCurrent c (LatestAvailableRevision operatorStatus)) w).1.2)
    as Hcopies.
  destruct (run (serve plan) (isLatestRevisionCurrent c _) w) as [[[[|] reason] w1] t1];
    cbn [fst snd] in *.
  { destruct Hrun as [_ Hst]. split_and!; try done. intros Hne. by rewrite Hst in Hne. }
  destruct (run (serve plan) (createNewRevision c _) w1) as [[[e|] w2] t2];
    cbn [fst snd] in *.
  - destruct Hrun as (Hreq & Hrev & Hupd & Hcond). split_and!; try done.
    intros e' _ [= <-]. by split_and!.
  - destruct Hrun as [Hupd Hrun].
    destruct (plan (wClock w2)) as [u|]; destruct Hrun as [Hres Hst].
    + split_and!; try done. intros Hne. by rewrite Hst in Hne.
    + split_and!; try done. intros _. split_and!; auto.
Qed.

(** Scenario D: the secret [token] is absent; the pass asks for a requeue,
    the counter stays at 0 and the status holds the ContentCreationError
    condition with the text of the not-found error. *)
Lemma createRevisionIfNeeded_counter_and_creation_witness :
  let out := run store
               (createRevisionIfNeeded controllerD (mkOperatorSpec Managed)
                  (mkStaticPodOperatorStatus [] 0) "0") worldA in
  out.1.1 = (true, None) ∧
  revisionOf out.1.2 = 0 ∧
  Conditions (wStatus out.1.2)
    = [mkOperatorCondition "RevisionControllerFailing" ConditionTrue "ContentCreationError"
         ("secrets " +:+ fmt.verb_q "token" +:+ " not found")].
Proof.
  cbn zeta.
  destruct (proj1 (createRevisionIfNeeded_counter_and_creation noFaults controllerD
                     (mkOperatorSpec Managed) (mkStaticPodOperatorStatus [] 0) "0" worldA)
              (NewNotFound "secrets" "token"))
    as (Hreq & Hrev & _).
  - vm_compute. reflexivity.
  - vm_compute. reflexivity.
  - split_and!; [|exact Hrev|]; vm_compute; reflexivity.
Defined.

(** C3, as stated, fails. In scenario A with the status write that records
    the revision failing on a conflict, the creation returns nil and its copy
    succeeded, but the counter stays at 0.  In scenario D with the write of
    the ContentCreationError condition failing on a conflict, the creation
    fails and the Failing condition the pass leaves has reason Error and the
    text of the conflict. *)
Lemma copies_succeed_but_counter_stays :
  (let plan := failAt 5 conflict in
   result (serve plan) (createNewRevision controllerA 1)
     (final (serve plan) (isLatestRevisionCurrent controllerA 0) (tick worldA)) = None ∧
   Forall copySucceeded (trace (serve plan) (sync controllerA) worldA) ∧
   revisionOf worldA = 0 ∧
   revisionOf (final (serve plan) (sync controllerA) worldA) = 0) ∧
  (let plan := failAt 6 conflict in
   result (serve plan) (createNewRevision controllerD 1)
     (final (serve plan) (isLatestRevisionCurrent controllerD 0) (tick worldA))
     = Some (NewNotFound "secrets" "token") ∧
   Conditions (wStatus (final (serve plan) (sync controllerD) worldA))
     = [mkOperatorCondition "RevisionControllerFailing" ConditionTrue "Error"
          "the object has been modified"]).
Proof.
  split; cbn zeta; split_and!; try (vm_compute; reflexivity).
  vm_compute. repeat constructor. by eexists.
Qed.

(** ** The revision counter across a pass *)

Lemma appliesOf_app (t1 t2 : list Step) :
  appliesOf (t1 ++ t2) = appliesOf t1 ++ appliesOf t2.
Proof.
  induction t1 as [|[call reply] t1 IH]; [done|].
  destruct call; cbn; by rewrite ?IH.
Qed.

Lemma appliesOf_reads (t : list Step) :
  Forall (λ s, isGet (stepCall s) = true) t → appliesOf t = [].
Proof.
  induction 1 as [|[call reply] t Hcall _ IH]; [done|]. by destruct call.
Qed.

Lemma appliesOf_copies (c : RevisionController) (revision : Z)
    (refs : list OwnerReference) (t : list Step) :
  Forall (copyOwnedBy c revision refs) (calls t) → appliesOf t = [].
Proof.
  induction t as [|[call reply] t IH]; [done|].
  intros [Hcall Ht]%Forall_cons. destruct call; cbn in *; by auto.
Qed.

(** The only configmap [createRevisionIfNeeded] applies is the marker of the
    revision after the one of the status it was given. *)
Lemma createRevisionIfNeeded_applies {W} (h : Handler W) (c : RevisionController)
    (operatorSpec : OperatorSpec) (operatorStatus : StaticPodOperatorStatus)
    (resourceVersion : string) (w : W) (m : ConfigMap) :
  m ∈ appliesOf
        (run h (createRevisionIfNeeded c operatorSpec operatorStatus resourceVersion) w).2 →
  m = statusConfigMapFor c (Int32.add (LatestAvailableRevision operatorStatus) 1).
Proof.
  rewrite run_createRevisionIfNeeded. cbn zeta.
  pose proof (isLatestRevisionCurrent_reads h c (LatestAvailableRevision operatorStatus) w)
    as Ht1%appliesOf_reads.
  destruct (run h (isLatestRevisionCurrent c _) w) as [[[[|] reason] w1] t1];
    cbn [fst snd] in *.
  { rewrite Ht1. by intros ?%elem_of_nil. }
  destruct (createNewRevision_steps h c
              (Int32.add (LatestAvailableRevision operatorStatus) 1) w1)
    as (reply & rest & Ht2 & _ & Hrest%appliesOf_copies).
  unfold trace in Ht2.
  destruct (run h (createNewRevision c _) w1) as [[err w2] t2]; cbn [fst snd] in *.
  subst t2.
  assert (∀ tail, appliesOf tail = [] →
            m ∈ appliesOf (t1 ++ (mkStep (ApplyConfigMap
                    (statusConfigMapFor c
                       (Int32.add (LatestAvailableRevision operatorStatus) 1))) reply
                  :: rest) ++ tail) →
            m = statusConfigMapFor c
                  (Int32.add (LatestAvailableRevision operatorStatus) 1)) as Hshape.
  { intros tail Htail. rewrite !appliesOf_app, Ht1. cbn [appliesOf app].
    rewrite Hrest, Htail. cbn. by intros [->|[]%elem_of_nil]%elem_of_cons. }
  destruct err as [e|].
  - destruct (h (UpdateStatus _) w2) as [[[st b] [u|]] w3]; cbn [fst snd];
      by apply Hshape.
  - destruct (h (UpdateStatus _) w2) as [[[st [|]] [u|]] w3]; cbn [fst snd];
      by apply Hshape.
Qed.

Lemma serve_OperatorClientGet (plan : FaultPlan) (w : World) :
  (serve plan OperatorClientGet w).2 = tick w ∧
  (serve plan OperatorClientGet w).1.1.1.1 = wSpec w ∧
  (serve plan OperatorClientGet w).1.1.1.2 = wStatus w ∧
  (serve plan OperatorClientGet w).1.2 = plan (wClock w).
Proof. unfold serve. by destruct (plan (wClock w)). Qed.

(** A pass either creates a revision, and the counter becomes the next
    revision, or leaves the counter as it was. *)
Lemma serve_sync_revision (plan : FaultPlan) (c : RevisionController) (w : World) :
  (passCreatesRevision plan c w ∧
   revisionOf (final (serve plan) (sync c) w) = Int32.add (revisionOf w) 1) ∨
  (¬ passCreatesRevision plan c w ∧
   revisionOf (final (serve plan) (sync c) w) = revisionOf w).
Proof.
  unfold final, passCreatesRevision, revisionOf. rewrite run_sync. cbn zeta.
  destruct (serve_OperatorClientGet plan w) as (Hw & Hspec & Hstatus & Herr).
  destruct (serve plan OperatorClientGet w) as [[[[spec status] rv] err] w0].
  cbn [fst snd] in *. subst w0 spec status err.
  destruct (plan (wClock w)) as [e|] eqn:Hplan.
  { right. split; [by intros (? & _)|done]. }
  case_bool_decide as Hunmanaged; [right; split; [by intros (_ & ? & _)|done]|].
  case_bool_decide as Hremoved; [right; split; [by intros (_ & _ & ? & _)|done]|].
  pose proof (serve_createRevisionIfNeeded plan c (wSpec w) (wStatus w) rv (tick w)) as Hrun.
  cbn zeta in Hrun.
  destruct (run (serve plan) (createRevisionIfNeeded c (wSpec w) (wStatus w) rv) (tick w))
    as [[[requeue syncErr] w2] t2]. cbn [fst snd] in *.
  assert (∀ cond,
            LatestAvailableRevision
              (wStatus (serve plan (UpdateStatus [UpdateConditionFn cond]) w2).2)
            = LatestAvailableRevision (wStatus w2)) as Hfinal.
  { intros cond. by destruct (serve_UpdateStatus_condition plan cond w2) as (_ & ? & _). }
  match goal with
  | |- context [LatestAvailableRevision (wStatus (if ?b then ?x else ?y).1.2)] =>
      assert (LatestAvailableRevision (wStatus (if b then x else y).1.2)
              = LatestAvailableRevision (wStatus w2)) as ->
  end.
  { destruct (requeue && bool_decide (syncErr = None)); [done|]. cbn [fst snd]. apply Hfinal. }
  destruct (run (serve plan) (isLatestRevisionCurrent c _) (tick w))
    as [[[[|] reason] w1] t1]; cbn [fst snd] in *.
  { destruct Hrun as [_ ->]. right. split; [by intros (_ & _ & _ & ? & _)|done]. }
  destruct (run (serve plan) (createNewRevision c _) w1) as [[[e|] w3] t3];
    cbn [fst snd] in *.
  - destruct Hrun as (_ & -> & _). right. split; [by intros (_ & _ & _ & _ & ? & _)|done].
  - destruct Hrun as [_ Hrun]. destruct (plan (wClock w3)) as [u|].
    + destruct Hrun as [_ ->]. right. split; [by intros (_ & _ & _ & _ & _ & ?)|done].
    + destruct Hrun as [_ ->]. left. by split_and!.
Qed.

Lemma Int32_add_1_small (x : Z) :
  Int32.in_range x → x < Int32.max_int → Int32.add x 1 = x + 1.
Proof.
  unfold Int32.in_range, Int32.min_int, Int32.max_int, Int32.add, Int32.wrap.
  intros [Hmin Hmax] Hlt. rewrite Z.mod_small by lia. lia.
Qed.

(** The only configmap a pass applies is the marker of the revision after
    the recorded one. *)
Lemma serve_sync_applies (plan : FaultPlan) (c : RevisionController) (w : World)
    (m : ConfigMap) :
  m ∈ appliesOf (trace (serve plan) (sync c) w) →
  m = statusConfigMapFor c (Int32.add (revisionOf w) 1).
Proof.
  unfold trace, revisionOf. rewrite run_sync. cbn zeta.
  destruct (serve_OperatorClientGet plan w) as (Hw & Hspec & Hstatus & Herr).
  destruct (serve plan OperatorClientGet w) as [[[[spec status] rv] err] w0].
  cbn [fst snd] in *. subst w0 spec status err.
  destruct (plan (wClock w)) as [e|]; [by intros ?%elem_of_nil|].
  repeat case_bool_decide; try by intros ?%elem_of_nil.
  pose proof (createRevisionIfNeeded_applies (serve plan) c (wSpec w) (wStatus w) rv
                (tick w) m) as Happlies.
  destruct (run (serve plan) (createRevisionIfNeeded c (wSpec w) (wStatus w) rv) (tick w))
    as [[[requeue syncErr] w2] t2]. cbn [fst snd] in *.
  destruct (requeue && bool_decide (syncErr = None)); cbn [fst snd appliesOf]; [done|].
  rewrite appliesOf_app. cbn [appliesOf]. by rewrite app_nil_r.
Qed.

(** Every status write of [createRevisionIfNeeded] keeps the revision of the
    status it is applied to or sets it to the revision after the one of the
    status the function was given. *)
Lemma createRevisionIfNeeded_mutators {W} (h : Handler W) (c : RevisionController)
    (operatorSpec : OperatorSpec) (operatorStatus : StaticPodOperatorStatus)
    (resourceVersion : string) (w : W) (updateFuncs : list UpdateStatusFunc)
    (st : StaticPodOperatorStatus) :
  updateFuncs ∈ updatesOf
    (run h (createRevisionIfNeeded c operatorSpec operatorStatus resourceVersion) w).2 →
  LatestAvailableRevision (applyUpdateFuncs updateFuncs st).1 = LatestAvailableRevision st ∨
  LatestAvailableRevision (applyUpdateFuncs updateFuncs st).1
    = Int32.add (LatestAvailableRevision operatorStatus) 1.
Proof.
  rewrite run_createRevisionIfNeeded. cbn zeta.
  pose proof (isLatestRevisionCurrent_calls h c (LatestAvailableRevision operatorStatus) w)
    as Ht1%updatesOf_configStore.
  destruct (run h (isLatestRevisionCurrent c _) w) as [[[[|] reason] w1] t1];
    cbn [fst snd] in *.
  { rewrite Ht1. by intros ?%elem_of_nil. }
  pose proof (createNewRevision_calls h c
                (Int32.add (LatestAvailableRevision operatorStatus) 1) w1)
    as Ht2%updatesOf_configStore.
  destruct (run h (createNewRevision c _) w1) as [[[e|] w2] t2]; cbn [fst snd] in *.
  - destruct (h (UpdateStatus _) w2) as [[[st' b] [u|]] w3]; cbn [fst snd];
      rewrite !updatesOf_app, Ht1, Ht2; cbn;
      intros [->|[]%elem_of_nil]%elem_of_cons; by left.
  - destruct (h (UpdateStatus _) w2) as [[[st' [|]] [u|]] w3]; cbn [fst snd];
      rewrite !updatesOf_app, Ht1, Ht2; cbn;
      intros [->|[]%elem_of_nil]%elem_of_cons; by right.
Qed.

(** The same for a whole pass, from the status the operator client
    returned. *)
Lemma sync_mutators {W} (h : Handler W) (c : RevisionController) (w : W)
    (updateFuncs : list UpdateStatusFunc) (st : StaticPodOperatorStatus) :
  updateFuncs ∈ updatesOf (run h (sync c) w).2 →
  LatestAvailableRevision (applyUpdateFuncs updateFuncs st).1 = LatestAvailableRevision st ∨
  LatestAvailableRevision (applyUpdateFuncs updateFuncs st).1
    = Int32.add (LatestAvailableRevision (h OperatorClientGet w).1.1.1.2) 1.
Proof.
  rewrite run_sync. cbn zeta.
  destruct (h OperatorClientGet w) as [[[[spec status] rv] [e|]] w1]; cbn [fst snd];
    [by intros ?%elem_of_nil|].
  repeat case_bool_decide; try by intros ?%elem_of_nil.
  pose proof (createRevisionIfNeeded_mutators h c spec status rv w1 updateFuncs st)
    as Hpass.
  destruct (run h (createRevisionIfNeeded c spec status rv) w1)
    as [[[requeue syncErr] w2] t2]. cbn [fst snd] in *.
  destruct (requeue && bool_decide (syncErr = None)); cbn [fst snd updatesOf]; [done|].
  rewrite updatesOf_app. cbn [updatesOf].
  intros [?|[->|[]%elem_of_nil]%elem_of_cons]%elem_of_app; [auto|by left].
Qed.

(** C2, as the code has it. In the model of the stores, a pass of [sync]
    leaves the revision counter as it was or sets it to the [int32] sum of the
    old value and 1; below the largest [int32] that sum is the old value plus
    1, so the counter does not decrease and grows by at most 1.  The counter
    changes exactly in a pass that creates a revision (the creation of the
    next revision returned nil and the status write recording it did not
    fail).  The only revision a pass attempts to create is that next one, and
    every status write of the pass keeps the revision of the status it is
    applied to or sets it to that next one. *)
Theorem sync_revision_step (plan : FaultPlan) (c : RevisionController) (w : World) :
  let old := revisionOf w in
  let new := revisionOf (final (serve plan) (sync c) w) in
  (new = old ∨ new = Int32.add old 1) ∧
  (Int32.in_range old → old < Int32.max_int → old <= new ∧ (new = old ∨ new = old + 1)) ∧
  (passCreatesRevision plan c w → new = Int32.add old 1) ∧
  (new ≠ old → passCreatesRevision plan c w) ∧
  (∀ m, m ∈ appliesOf (trace (serve plan) (sync c) w) →
        m = statusConfigMapFor c (Int32.add old 1)) ∧
  (∀ updateFuncs st,
     updateFuncs ∈ updatesOf (trace (serve plan) (sync c) w) →
     LatestAvailableRevision (applyUpdateFuncs updateFuncs st).1
       = LatestAvailableRevision st ∨
     LatestAvailableRevision (applyUpdateFuncs updateFuncs st).1 = Int32.add old 1).
Proof.
  cbn zeta. split_and!.
  - destruct (serve_sync_revision plan c w) as [[_ ->]|[_ ->]]; auto.
  - intros Hrange Hlt. rewrite <-(Int32_add_1_small _ Hrange Hlt).
    destruct (serve_sync_revision plan c w) as [[_ ->]|[_ ->]].
    + rewrite (Int32_add_1_small _ Hrange Hlt). split; [lia|auto].
    + split; [lia|auto].
  - intros Hpass. by destruct (serve_sync_revision plan c w) as [[_ ->]|[? _]].
  - intros Hne. by destruct (serve_sync_revision plan c w) as [[? _]|[_ ?]].
  - apply serve_sync_applies.
  - intros updateFuncs st Hin.
    destruct (sync_mutators (serve plan) c w updateFuncs st Hin) as [?|Hnext]; [by left|].
    right. rewrite Hnext. unfold revisionOf.
    by destruct (serve_OperatorClientGet plan w) as (_ & _ & -> & _).
Qed.

(** Scenario A: the pass takes the counter from 0 to 1. *)
Lemma sync_revision_step_witness :
  revisionOf worldA = 0 ∧ revisionOf (final store (sync controllerA) worldA) = 1.
Proof.
  split; [reflexivity|].
  assert (passCreatesRevision noFaults controllerA worldA) as Hpass.
  { unfold passCreatesRevision. cbn zeta. split_and!; try done; vm_compute; reflexivity. }
  destruct (sync_revision_step noFaults controllerA worldA)
    as (_ & Hbounds & Hadvance & _).
  destruct Hbounds as [_ [Hsame|Hnext]].
  - unfold Int32.in_range, Int32.min_int, Int32.max_int, revisionOf. cbn. lia.
  - unfold Int32.max_int, revisionOf. cbn. lia.
  - exfalso. rewrite (Hadvance Hpass) in Hsame. vm_compute in Hsame. discriminate.
  - exact Hnext.
Defined.

(** C2, as stated, fails at the largest [int32]: in scenario A with the
    counter at 2147483647 the pass succeeds and the counter becomes
    -2147483648. *)
Lemma revision_counter_wraps_at_max_int32 :
  let w := worldWith Managed 2147483647 "1" in
  revisionOf w = 2147483647 ∧
  result store (sync controllerA) w = None ∧
  revisionOf (final store (sync controllerA) w) = -2147483648 ∧
  revisionOf (final store (sync controllerA) w) < revisionOf w.
Proof. cbn zeta. split_and!; vm_compute; reflexivity. Qed.

(** ** The scenarios of section 8 *)

(** Scenario A: no snapshot of revision 0 exists; the pass creates the marker
    and the snapshot of revision 1 and records revision 1 with Failing
    false. *)
Example scenario_A :
  (result store (isLatestRevisionCurrent controllerA 0) worldA).1 = false ∧
  result store (sync controllerA) worldA = None ∧
  wStatus worldB = mkStaticPodOperatorStatus [notFailingCondition] 1 ∧
  storedData <$> wConfigMaps worldB !! ("target", "config-1") = Some {[ "a" := "1" ]} ∧
  storedData <$> wConfigMaps worldB !! ("target", "revision-status-1")
    = Some (<["status" := "InProgress"]> (<["revision" := "1"]> ∅)).
Proof. split_and!; vm_compute; reflexivity. Qed.

(** Scenario B: the snapshot of revision 1 equals the live content; the
    decision is current and the pass writes nothing. *)
Example scenario_B :
  result store (isLatestRevisionCurrent controllerA 1) worldB = (true, "") ∧
  result store (sync controllerA) worldB = None ∧
  wConfigMaps (final store (sync controllerA) worldB) = wConfigMaps worldB ∧
  wStatus (final store (sync controllerA) worldB) = wStatus worldB ∧
  wResourceVersion (final store (sync controllerA) worldB) = wResourceVersion worldB.
Proof. split_and!; vm_compute; reflexivity. Qed.

(** Scenario C: the live content changed; the decision names the configmap
    and the pass creates revision 2 with the new content. *)
Example scenario_C :
  result store (isLatestRevisionCurrent controllerA 1) worldC
    = (false, "configmap/config has changed") ∧
  revisionOf (final store (sync controllerA) worldC) = 2 ∧
  storedData <$> wConfigMaps (final store (sync controllerA) worldC) !! ("target", "config-2")
    = Some {[ "a" := "2" ]} ∧
  storedData <$> wConfigMaps (final store (sync controllerA) worldC) !! ("target", "config-1")
    = Some {[ "a" := "1" ]}.
Proof. split_and!; vm_compute; reflexivity. Qed.

(** Scenario D: the copy of the secret returns no object; the creation fails
    with NotFound for the secret, the counter stays and the Failing condition
    has reason ContentCreationError. *)
Example scenario_D :
  result store (createNewRevision controllerD 1) worldA
    = Some (NewNotFound "secrets" "token") ∧
  revisionOf (final store (sync controllerD) worldA) = 0 ∧
  Conditions (wStatus (final store (sync controllerD) worldA))
    = [creationFailedCondition (NewNotFound "secrets" "token")].
Proof. split_and!; vm_compute; reflexivity. Qed.

(** ** Snapshot names *)

(** X1. [nameFor] tells revisions apart and tells sources apart: the
    snapshots of one source at two revisions have different names, and so
    have the snapshots of two sources at one revision.  It does not tell
    pairs apart: a source whose name ends in a dash at revision 1 and the
    source without the dash at revision -1 share a snapshot name. *)
Theorem nameFor_inj (name name' : string) (r r' : Z) :
  (nameFor name r = nameFor name r' → r = r') ∧
  (nameFor name r = nameFor name' r → name = name') ∧
  nameFor "a-" 1 = nameFor "a" (-1).
Proof.
  unfold nameFor, fmt.verb_d. split_and!; [| |reflexivity].
  - intros Heq. apply (inj (String.app name)) in Heq.
    apply (inj (String.app "-")) in Heq. by apply (inj pretty).
  - apply append_inj_r.
Qed.

Lemma nameFor_inj_witness :
  nameFor "config" 1 ≠ nameFor "config" 2 ∧ nameFor "config" 1 ≠ nameFor "token" 1.
Proof.
  split.
  - intros Heq. by apply (proj1 (nameFor_inj "config" "config" 1 2)) in Heq.
  - intros Heq. by apply (proj1 (proj2 (nameFor_inj "config" "token" 1 1))) in Heq.
Defined.

(** ** The reads of the decision engine *)

Lemma range_trace_length_le {W A R} (h : Handler W) (k : nat) (l : list A)
    (body : A → Prog (option R)) :
  (∀ x w, (length (run h (body x) w).2 ≤ k)%nat) →
  ∀ w, (length (run h (range l body) w).2 ≤ k * length l)%nat.
Proof.
  intros Hbody. induction l as [|x l IH]; intros w; [cbn; lia|].
  rewrite run_range_cons. specialize (Hbody x w).
  destruct (run h (body x) w) as [[[v|] w1] t1]; cbn [fst snd length] in *; [lia|].
  specialize (IH w1). destruct (run h (range l body) w1) as [[r' w2] t2].
  cbn [fst snd] in *. rewrite length_app. lia.
Qed.

Lemma range_trace_length_None {W A R} (h : Handler W) (k : nat) (l : list A)
    (body : A → Prog (option R)) :
  (∀ x w, (run h (body x) w).1.1 = None → length (run h (body x) w).2 = k) →
  ∀ w, (run h (range l body) w).1.1 = None →
       length (run h (range l body) w).2 = (k * length l)%nat.
Proof.
  intros Hbody. induction l as [|x l IH]; intros w; [cbn; lia|].
  rewrite run_range_cons. specialize (Hbody x w).
  destruct (run h (body x) w) as [[[v|] w1] t1]; cbn [fst snd length] in *; [done|].
  specialize (IH w1). destruct (run h (range l body) w1) as [[r' w2] t2].
  cbn [fst snd] in *. intros Hnone. rewrite length_app, (IH Hnone), (Hbody eq_refl). lia.
Qed.

(** X2. Against any implementation of the stores, the decision engine only
    reads: each of its calls is a [Get], in the namespace of the controller,
    of a configured source or of its snapshot at the revision asked about.
    It makes at most two reads per configured source, and exactly two per
    source when it answers current. *)
Theorem isLatestRevisionCurrent_gets {W} (h : Handler W) (c : RevisionController)
    (r : Z) (w : W) :
  Forall (engineGet c r) (calls (trace h (isLatestRevisionCurrent c r) w)) ∧
  (length (trace h (isLatestRevisionCurrent c r) w)
     ≤ 2 * (length (configMaps c) + length (secrets c)))%nat ∧
  ((result h (isLatestRevisionCurrent c r) w).1 = true →
   length (trace h (isLatestRevisionCurrent c r) w)
     = (2 * (length (configMaps c) + length (secrets c)))%nat).
Proof.
  unfold trace, result, isLatestRevisionCurrent. rewrite run_bind.
  match goal with |- context [run h (range (configMaps c) ?b) w] =>
    set (checkConfigMaps := b) end.
  assert (∀ w', Forall (λ s, engineGet c r (stepCall s))
                  (run h (range (configMaps c) checkConfigMaps) w').2) as Hcm.
  { apply range_trace_Forall. intros name w' Hname. subst checkConfigMaps. cbn beta.
    rewrite run_bind; run_call.
    destruct (h _ w') as [[required err] w1]; cbn [fst snd].
    assert (engineGet c r (ConfigMapsGet (targetNamespace c) name)) by (cbn; eauto).
    assert (engineGet c r (ConfigMapsGet (targetNamespace c) (nameFor name r)))
      by (cbn; eauto).
    destruct (notFound err); [rewrite run_ret; cbn [fst snd app]; by repeat first [apply List.Forall_nil | apply List.Forall_cons; [assumption|]]|].
    rewrite run_bind; run_call.
    destruct (h _ w1) as [[existing err'] w2]; cbn [fst snd].
    destruct (notFound err'); [rewrite run_ret; cbn [fst snd app]; by repeat first [apply List.Forall_nil | apply List.Forall_cons; [assumption|]]|].
    destruct (negb _); rewrite run_ret; cbn [fst snd app]; by repeat first [apply List.Forall_nil | apply List.Forall_cons; [assumption|]]. }
  assert (∀ w', (length (run h (range (configMaps c) checkConfigMaps) w').2
                 ≤ 2 * length (configMaps c))%nat) as Hcmle.
  { apply range_trace_length_le. intros name w'. subst checkConfigMaps. cbn beta.
    rewrite run_bind; run_call.
    destruct (h _ w') as [[required err] w1]; cbn [fst snd].
    destruct (notFound err); [cbn; lia|].
    rewrite run_bind; run_call.
    destruct (h _ w1) as [[existing err'] w2]; cbn [fst snd].
    destruct (notFound err'); [cbn; lia|]. destruct (negb _); cbn; lia. }
  assert (∀ w', (run h (range (configMaps c) checkConfigMaps) w').1.1 = None →
                length (run h (range (configMaps c) checkConfigMaps) w').2
                = (2 * length (configMaps c))%nat) as Hcmeq.
  { apply range_trace_length_None. intros name w'. subst checkConfigMaps. cbn beta.
    rewrite run_bind; run_call.
    destruct (h _ w') as [[required err] w1]; cbn [fst snd].
    destruct (notFound err); [done|].
    rewrite run_bind; run_call.
    destruct (h _ w1) as [[existing err'] w2]; cbn [fst snd].
    destruct (notFound err'); [done|]. by destruct (negb _). }
  assert (∀ w' v, (run h (range (configMaps c) checkConfigMaps) w').1.1 = Some v →
                  v.1 = false) as Hcmret.
  { apply (range_returns h (λ v : bool * string, v.1 = false)).
    intros name w' v. subst checkConfigMaps. cbn beta.
    rewrite run_bind; run_call.
    destruct (h _ w') as [[required err] w1]; cbn [fst snd].
    destruct (notFound err); [by intros [= <-]|].
    rewrite run_bind; run_call.
    destruct (h _ w1) as [[existing err'] w2]; cbn [fst snd].
    destruct (notFound err'); [by intros [= <-]|].
    destruct (negb _); [by intros [= <-]|done]. }
  specialize (Hcm w). specialize (Hcmle w). specialize (Hcmeq w). specialize (Hcmret w).
  destruct (run h (range (configMaps c) checkConfigMaps) w) as [[[v|] w1] t1];
    cbn [fst snd] in *.
  { rewrite run_ret. cbn [fst snd]. rewrite app_nil_r. split_and!.
    - unfold calls. by apply Forall_map.
    - lia.
    - intros Htrue. by rewrite (Hcmret v eq_refl) in Htrue. }
  rewrite run_bind.
  match goal with |- context [run h (range (secrets c) ?b) w1] =>
    set (checkSecrets := b) end.
  assert (∀ w', Forall (λ s, engineGet c r (stepCall s))
                  (run h (range (secrets c) checkSecrets) w').2) as Hsec.
  { apply range_trace_Forall. intros name w' Hname. subst checkSecrets. cbn beta.
    rewrite run_bind; run_call.
    destruct (h _ w') as [[required err] w2]; cbn [fst snd].
    assert (engineGet c r (SecretsGet (targetNamespace c) name)) by (cbn; eauto).
    assert (engineGet c r (SecretsGet (targetNamespace c) (nameFor name r)))
      by (cbn; eauto).
    destruct (notFound err); [rewrite run_ret; cbn [fst snd app]; by repeat first [apply List.Forall_nil | apply List.Forall_cons; [assumption|]]|].
    rewrite run_bind; run_call.
    destruct (h _ w2) as [[existing err'] w3]; cbn [fst snd].
    destruct (notFound err'); [rewrite run_ret; cbn [fst snd app]; by repeat first [apply List.Forall_nil | apply List.Forall_cons; [assumption|]]|].
    destruct (negb _); rewrite run_ret; cbn [fst snd app]; by repeat first [apply List.Forall_nil | apply List.Forall_cons; [assumption|]]. }
  assert (∀ w', (length (run h (range (secrets c) checkSecrets) w').2
                 ≤ 2 * length (secrets c))%nat) as Hsecle.
  { apply range_trace_length_le. intros name w'. subst checkSecrets. cbn beta.
    rewrite run_bind; run_call.
    destruct (h _ w') as [[required err] w2]; cbn [fst snd].
    destruct (notFound err); [cbn; lia|].
    rewrite run_bind; run_call.
    destruct (h _ w2) as [[existing err'] w3]; cbn [fst snd].
    destruct (notFound err'); [cbn; lia|]. destruct (negb _); cbn; lia. }
  assert (∀ w', (run h (range (secrets c) checkSecrets) w').1.1 = None →
                length (run h (range (secrets c) checkSecrets) w').2
                = (2 * length (secrets c))%nat) as Hseceq.
  { apply range_trace_length_None. intros name w'. subst checkSecrets. cbn beta.
    rewrite run_bind; run_call.
    destruct (h _ w') as [[required err] w2]; cbn [fst snd].
    destruct (notFound err); [done|].
    rewrite run_bind; run_call.
    destruct (h _ w2) as [[existing err'] w3]; cbn [fst snd].
    destruct (notFound err'); [done|]. by destruct (negb _). }
  assert (∀ w' v, (run h (range (secrets c) checkSecrets) w').1.1 = Some v →
                  v.1 = false) as Hsecret.
  { apply (range_returns h (λ v : bool * string, v.1 = false)).
    intros name w' v. subst checkSecrets. cbn beta.
    rewrite run_bind; run_call.
    destruct (h _ w') as [[required err] w2]; cbn [fst snd].
    destruct (notFound err); [by intros [= <-]|].
    rewrite run_bind; run_call.
    destruct (h _ w2) as [[existing err'] w3]; cbn [fst snd].
    destruct (notFound err'); [by intros [= <-]|].
    destruct (negb _); [by intros [= <-]|done]. }
  specialize (Hsec w1). specialize (Hsecle w1). specialize (Hseceq w1).
  specialize (Hsecret w1).
  destruct (run h (range (secrets c) checkSecrets) w1) as [[[v|] w2] t2];
    cbn [fst snd] in *; rewrite run_ret; cbn [fst snd]; rewrite app_nil_r, length_app;
    (split_and!; [unfold calls; by apply Forall_map, Forall_app|lia|]).
  - intros Htrue. by rewrite (Hsecret v eq_refl) in Htrue.
  - intros _. rewrite (Hcmeq eq_refl), (Hseceq eq_refl). lia.
Qed.

(** Scenario B: the engine answers current after two reads for the one
    configured source. *)
Lemma isLatestRevisionCurrent_gets_witness :
  length (trace store (isLatestRevisionCurrent controllerA 1) worldB) = 2%nat.
Proof.
  apply (proj2 (proj2 (isLatestRevisionCurrent_gets store controllerA 1 worldB))).
  vm_compute. reflexivity.
Defined.

(** ** The calls of a creation *)

Lemma range_calls_None {W A R} (h : Handler W) (g : A → Call) (l : list A)
    (body : A → Prog (option R)) :
  (∀ x w, (run h (body x) w).1.1 = None → calls (run h (body x) w).2 = [g x]) →
  ∀ w, (run h (range l body) w).1.1 = None →
       calls (run h (range l body) w).2 = map g l.
Proof.
  intros Hbody. induction l as [|x l IH]; intros w; [done|].
  rewrite run_range_cons. specialize (Hbody x w).
  destruct (run h (body x) w) as [[[v|] w1] t1]; cbn [fst snd] in *; [done|].
  specialize (IH w1). destruct (run h (range l body) w1) as [[r' w2] t2].
  cbn [fst snd] in *. intros Hnone. unfold calls in *.
  rewrite map_app, (Hbody eq_refl), (IH Hnone). done.
Qed.

(** A loop that returned did so in its last step, after rounds that fell
    through. *)
Lemma range_trace_Some {W A R} (h : Handler W) (P : Step → Prop) (Q : R → Step → Prop)
    (l : list A) (body : A → Prog (option R)) :
  (∀ x w, (run h (body x) w).1.1 = None → Forall P (run h (body x) w).2) →
  (∀ x w v, (run h (body x) w).1.1 = Some v →
     ∃ before s, (run h (body x) w).2 = before ++ [s] ∧ Forall P before ∧ Q v s) →
  ∀ w v, (run h (range l body) w).1.1 = Some v →
     ∃ before s, (run h (range l body) w).2 = before ++ [s] ∧ Forall P before ∧ Q v s.
Proof.
  intros Hnone Hsome. induction l as [|x l IH]; intros w v; [done|].
  rewrite run_range_cons. specialize (Hnone x w). specialize (Hsome x w).
  destruct (run h (body x) w) as [[[v'|] w1] t1]; cbn [fst snd] in *.
  - intros [= <-]. by apply Hsome.
  - specialize (IH w1 v). destruct (run h (range l body) w1) as [[r' w2] t2].
    cbn [fst snd] in *. intros (before & s & -> & Hbefore & Hs)%IH.
    exists (t1 ++ before), s. rewrite app_assoc. split_and!; [done| |done].
    apply Forall_app. auto.
Qed.

Lemma copy_ok_not_failed (call : Call) (reply : Reply call) :
  isCopy call = true → copySucceeded (mkStep call reply) → ¬ stepFailed (mkStep call reply).
Proof.
  destruct call; try done; cbn; intros _ [[obj Hobj] Herr] [Hfail|(res & name & Hnothing)];
    cbn in *; try done; destruct Hnothing as (_ & _ & Hnone & _); congruence.
Qed.

(** X3. When [createNewRevision] returns nil, against any implementation of
    the stores, it has applied the marker and then copied every configured
    configmap, in declared order, and every configured secret, in declared
    order, each exactly once and with the owner reference of the marker the
    apply returned; and none of these calls failed. *)
Theorem createNewRevision_success_calls {W} (h : Handler W) (c : RevisionController)
    (revision : Z) (w : W) :
  result h (createNewRevision c revision) w = None →
  ∃ reply : Reply (ApplyConfigMap (statusConfigMapFor c revision)),
    head (trace h (createNewRevision c revision) w)
      = Some (mkStep (ApplyConfigMap (statusConfigMapFor c revision)) reply) ∧
    calls (trace h (createNewRevision c revision) w)
      = ApplyConfigMap (statusConfigMapFor c revision)
        :: copiesFor c revision (ownerRefsOf reply.1.1) ∧
    Forall (λ s, ¬ stepFailed s) (trace h (createNewRevision c revision) w).
Proof.
  unfold result, trace, createNewRevision, copiesFor. cbn zeta.
  rewrite run_bind; run_call.
  destruct (h (ApplyConfigMap _) w) as [[[applied changed] [e|]] w1]; cbn [fst snd].
  { by rewrite run_ret. }
  rewrite run_bind.
  match goal with |- context [run h (range (configMaps c) ?b) w1] =>
    set (copyConfigMaps := b) end.
  assert (∀ w', (run h (range (configMaps c) copyConfigMaps) w').1.1 = None →
            calls (run h (range (configMaps c) copyConfigMaps) w').2
            = map (λ name, SyncConfigMap (targetNamespace c) name (targetNamespace c)
                             (nameFor name revision) (ownerRefsOf applied))
                (configMaps c)) as Hcm.
  { apply range_calls_None. intros name w'. subst copyConfigMaps. cbn beta.
    rewrite run_bind; run_call.
    by destruct (h _ w') as [[[[obj|] ch] [e'|]] w'']. }
  assert (∀ w', (run h (range (configMaps c) copyConfigMaps) w').1.1 = None →
            Forall (λ s, ¬ stepFailed s)
              (run h (range (configMaps c) copyConfigMaps) w').2) as Hcmok.
  { apply range_trace_None. intros name w'. subst copyConfigMaps. cbn beta.
    rewrite run_bind; run_call.
    destruct (h _ w') as [[[[obj|] ch] [e'|]] w'']; cbn; try done.
    intros _. repeat constructor. apply copy_ok_not_failed; [done|]. by split; [eexists|]. }
  assert (∀ w' v, (run h (range (configMaps c) copyConfigMaps) w').1.1 = Some v →
                  v ≠ None) as Hcmret.
  { apply (range_returns h (λ v : option error, v ≠ None)).
    intros name w' v. subst copyConfigMaps. cbn beta. rewrite run_bind; run_call.
    destruct (h _ w') as [[[[obj|] ch] [e'|]] w'']; cbn; try done; by intros [= <-]. }
  specialize (Hcm w1). specialize (Hcmok w1). specialize (Hcmret w1).
  destruct (run h (range (configMaps c) copyConfigMaps) w1) as [[[v|] w2] t1];
    cbn [fst snd] in *.
  { rewrite run_ret. cbn. intros ->. by destruct (Hcmret None). }
  rewrite run_bind.
  match goal with |- context [run h (range (secrets c) ?b) w2] =>
    set (copySecrets := b) end.
  assert (∀ w', (run h (range (secrets c) copySecrets) w').1.1 = None →
            calls (run h (range (secrets c) copySecrets) w').2
            = map (λ name, SyncSecret (targetNamespace c) name (targetNamespace c)
                             (nameFor name revision) (ownerRefsOf applied))
                (secrets c)) as Hsec.
  { apply range_calls_None. intros name w'. subst copySecrets. cbn beta.
    rewrite run_bind; run_call.
    by destruct (h _ w') as [[[[obj|] ch] [e'|]] w'']. }
  assert (∀ w', (run h (range (secrets c) copySecrets) w').1.1 = None →
            Forall (λ s, ¬ stepFailed s)
              (run h (range (secrets c) copySecrets) w').2) as Hsecok.
  { apply range_trace_None. intros name w'. subst copySecrets. cbn beta.
    rewrite run_bind; run_call.
    destruct (h _ w') as [[[[obj|] ch] [e'|]] w'']; cbn; try done.
    intros _. repeat constructor. apply copy_ok_not_failed; [done|]. by split; [eexists|]. }
  assert (∀ w' v, (run h (range (secrets c) copySecrets) w').1.1 = Some v →
                  v ≠ None) as Hsecret.
  { apply (range_returns h (λ v : option error, v ≠ None)).
    intros name w' v. subst copySecrets. cbn beta. rewrite run_bind; run_call.
    destruct (h _ w') as [[[[obj|] ch] [e'|]] w'']; cbn; try done; by intros [= <-]. }
  specialize (Hsec w2). specialize (Hsecok w2). specialize (Hsecret w2).
  destruct (run h (range (secrets c) copySecrets) w2) as [[[v|] w3] t2];
    cbn [fst snd] in *; rewrite run_ret; cbn.
  { intros ->. by destruct (Hsecret None). }
  intros _. exists (applied, changed, None). rewrite app_nil_r. split_and!.
  - done.
  - unfold calls in *. by rewrite map_app, (Hcm eq_refl), (Hsec eq_refl).
  - constructor.
    + intros [Herr|(res & name & [])]. by cbn in Herr.
    + apply Forall_app. auto.
Qed.

(** Scenario A: the creation of revision 1 applies the marker and copies
    [config], two calls in all. *)
Lemma createNewRevision_success_calls_witness :
  ∃ reply : Reply (ApplyConfigMap (statusConfigMapFor controllerA 1)),
    calls (trace store (createNewRevision controllerA 1) worldA)
    = [ApplyConfigMap (statusConfigMapFor controllerA 1);
       SyncConfigMap "target" "config" "target" "config-1" (ownerRefsOf reply.1.1)].
Proof.
  destruct (createNewRevision_success_calls store controllerA 1 worldA)
    as (reply & _ & Hcalls & _).
  - vm_compute. reflexivity.
  - exists reply. exact Hcalls.
Defined.

(** X4. When [createNewRevision] returns an error, against any
    implementation of the stores, the call that failed is the last call it
    made: every call before it went well, and the error returned is the error
    of that last call, or the not-found error of the source when that last
    call is a copy that found nothing. *)
Theorem createNewRevision_stops_at_failure {W} (h : Handler W) (c : RevisionController)
    (revision : Z) (w : W) (e : error) :
  result h (createNewRevision c revision) w = Some e →
  ∃ before s,
    trace h (createNewRevision c revision) w = before ++ [s] ∧
    Forall (λ s, ¬ stepFailed s) before ∧
    (stepError s = Some e ∨
     ∃ resource name, copyFoundNothing resource name s ∧ e = NewNotFound resource name).
Proof.
  set (Q := λ (v : option error) (s : Step),
              ∃ e', v = Some e' ∧
                (stepError s = Some e' ∨
                 ∃ resource name, copyFoundNothing resource name s ∧
                                  e' = NewNotFound resource name)).
  unfold result, trace, createNewRevision. cbn zeta.
  rewrite run_bind; run_call.
  destruct (h (ApplyConfigMap _) w) as [[[applied changed] [e0|]] w1] eqn:Happly;
    cbn [fst snd].
  { rewrite run_ret. cbn. intros [= ->].
    eexists [], _. split_and!; [done|constructor|]. by left. }
  assert (¬ stepFailed (mkStep (ApplyConfigMap (statusConfigMapFor c revision))
                          (applied, changed, None))) as Hmarker.
  { intros [Herr|(res & name & [])]. by cbn in Herr. }
  rewrite run_bind.
  match goal with |- context [run h (range (configMaps c) ?b) w1] =>
    set (copyConfigMaps := b) end.
  assert (∀ w', (run h (range (configMaps c) copyConfigMaps) w').1.1 = None →
            Forall (λ s, ¬ stepFailed s)
              (run h (range (configMaps c) copyConfigMaps) w').2) as Hcmok.
  { apply range_trace_None. intros name w'. subst copyConfigMaps. cbn beta.
    rewrite run_bind; run_call.
    destruct (h _ w') as [[[[obj|] ch] [e'|]] w'']; cbn; try done.
    intros _. repeat constructor. apply copy_ok_not_failed; [done|]. by split; [eexists|]. }
  assert (∀ w' v, (run h (range (configMaps c) copyConfigMaps) w').1.1 = Some v →
            ∃ before s, (run h (range (configMaps c) copyConfigMaps) w').2 = before ++ [s] ∧
                        Forall (λ s, ¬ stepFailed s) before ∧ Q v s) as Hcm.
  { apply range_trace_Some.
    - intros name w'. subst copyConfigMaps. cbn beta. rewrite run_bind; run_call.
      destruct (h _ w') as [[[[obj|] ch] [e'|]] w'']; cbn; try done.
      intros _. repeat constructor. apply copy_ok_not_failed; [done|].
      by split; [eexists|].
    - intros name w' v. subst copyConfigMaps. cbn beta. rewrite run_bind; run_call.
      destruct (h _ w') as [[[[obj|] ch] [e'|]] w'']; cbn; try done; intros [= <-];
        eexists [], _; (split_and!; [done|constructor|]); eexists; (split; [done|]);
        try (by left).
      right. exists "configmaps", name. by split_and!. }
  specialize (Hcmok w1). specialize (Hcm w1).
  destruct (run h (range (configMaps c) copyConfigMaps) w1) as [[[v|] w2] t1];
    cbn [fst snd] in *.
  { rewrite run_ret. cbn. intros ->.
    destruct (Hcm _ eq_refl) as (before & s & -> & Hbefore & e' & [= <-] & Hs).
    exists (mkStep (ApplyConfigMap (statusConfigMapFor c revision))
              (applied, changed, None) :: before), s.
    rewrite app_nil_r. split_and!; [done|by constructor|done]. }
  rewrite run_bind.
  match goal with |- context [run h (range (secrets c) ?b) w2] =>
    set (copySecrets := b) end.
  assert (∀ w' v, (run h (range (secrets c) copySecrets) w').1.1 = Some v →
            ∃ before s, (run h (range (secrets c) copySecrets) w').2 = before ++ [s] ∧
                        Forall (λ s, ¬ stepFailed s) before ∧ Q v s) as Hsec.
  { apply range_trace_Some.
    - intros name w'. subst copySecrets. cbn beta. rewrite run_bind; run_call.
      destruct (h _ w') as [[[[obj|] ch] [e'|]] w'']; cbn; try done.
      intros _. repeat constructor. apply copy_ok_not_failed; [done|].
      by split; [eexists|].
    - intros name w' v. subst copySecrets. cbn beta. rewrite run_bind; run_call.
      destruct (h _ w') as [[[[obj|] ch] [e'|]] w'']; cbn; try done; intros [= <-];
        eexists [], _; (split_and!; [done|constructor|]); eexists; (split; [done|]);
        try (by left).
      right. exists "secrets", name. by split_and!. }
  specialize (Hsec w2).
  destruct (run h (range (secrets c) copySecrets) w2) as [[[v|] w3] t2];
    cbn [fst snd] in *; rewrite run_ret; cbn; [|done].
  intros ->.
  destruct (Hsec _ eq_refl) as (before & s & -> & Hbefore & e' & [= <-] & Hs).
  exists (mkStep (ApplyConfigMap (statusConfigMapFor c revision))
            (applied, changed, None) :: t1 ++ before), s.
  rewrite app_nil_r. split_and!; [|constructor; [done|apply Forall_app; auto]|done].
  cbn. by rewrite app_assoc.
Qed.

(** Scenario A with the copy of [config] failing on a timeout: the creation
    returns the timeout and stops there. *)
Lemma createNewRevision_stops_at_failure_witness :
  result (serve (failAt 1 timeout)) (createNewRevision controllerA 1) worldA = Some timeout ∧
  ∃ before s,
    trace (serve (failAt 1 timeout)) (createNewRevision controllerA 1) worldA
      = before ++ [s] ∧ Forall (λ s, ¬ stepFailed s) before.
Proof.
  assert (result (serve (failAt 1 timeout)) (createNewRevision controllerA 1) worldA
          = Some timeout) as Hres by (vm_compute; reflexivity).
  split; [exact Hres|].
  destruct (createNewRevision_stops_at_failure (serve (failAt 1 timeout)) controllerA 1
              worldA timeout Hres) as (before & s & Ht & Hbefore & _).
  by exists before, s.
Defined.

(** ** Failures of a pass *)

Lemma createNewRevision_None_steps {W} (h : Handler W) (c : RevisionController)
    (revision : Z) (w : W) :
  (run h (createNewRevision c revision) w).1.1 = None →
  Forall (λ s, ¬ stepFailed s) (run h (createNewRevision c revision) w).2.
Proof.
  intros Hnone.
  pose proof (createNewRevision_None_copies h c revision w Hnone) as Hcopies.
  destruct (createNewRevision_steps h c revision w) as (reply & rest & Ht & Hfail & Hrest).
  unfold trace, result in *. rewrite Ht in *. constructor.
  - intros [Herr|(res & name & [])]. cbn in Herr.
    destruct (Hfail Herr) as [_ Hres]. congruence.
  - apply Forall_cons in Hcopies as [_ Hcopies].
    unfold calls in Hrest. rewrite Forall_map in Hrest.
    rewrite Forall_forall in Hcopies, Hrest. apply Forall_forall.
    intros [call r] Hs. apply copy_ok_not_failed; [|by apply Hcopies].
    specialize (Hrest _ Hs). by destruct call.
Qed.

(** A failed call of [createRevisionIfNeeded] other than a read makes it ask
    for a requeue. *)
Lemma createRevisionIfNeeded_failures {W} (h : Handler W) (c : RevisionController)
    (operatorSpec : OperatorSpec) (operatorStatus : StaticPodOperatorStatus)
    (resourceVersion : string) (w : W) (s : Step) :
  s ∈ (run h (createRevisionIfNeeded c operatorSpec operatorStatus resourceVersion) w).2 →
  isGet (stepCall s) = false → stepFailed s →
  (run h (createRevisionIfNeeded c operatorSpec operatorStatus resourceVersion) w).1.1.1
    = true.
Proof.
  rewrite run_createRevisionIfNeeded. cbn zeta.
  pose proof (isLatestRevisionCurrent_reads h c (LatestAvailableRevision operatorStatus) w)
    as Ht1.
  destruct (run h (isLatestRevisionCurrent c _) w) as [[[[|] reason] w1] t1];
    cbn [fst snd] in *.
  { rewrite Forall_forall in Ht1. intros Hs Hget. rewrite (Ht1 _ Hs) in Hget. done. }
  pose proof (createNewRevision_None_steps h c
                (Int32.add (LatestAvailableRevision operatorStatus) 1) w1) as Ht2.
  destruct (run h (createNewRevision c _) w1) as [[[e|] w2] t2]; cbn [fst snd] in *.
  { by destruct (h (UpdateStatus _) w2) as [[[st b] [u|]] w3]. }
  specialize (Ht2 eq_refl). rewrite Forall_forall in Ht1, Ht2.
  destruct (h (UpdateStatus _) w2) as [[[st b] [u|]] w3]; cbn [fst snd]; [done|].
  destruct b; cbn [fst snd].
  - intros [Hs|[Hs|[->|[->|[]%elem_of_nil]%elem_of_cons]%elem_of_cons]%elem_of_app]%elem_of_app
      Hget Hfailed.
    + rewrite (Ht1 _ Hs) in Hget. done.
    + by destruct (Ht2 _ Hs).
    + by destruct Hfailed as [?|(? & ? & [])].
    + by destruct Hfailed as [?|(? & ? & [])].
  - intros [Hs|[Hs|[->|[]%elem_of_nil]%elem_of_cons]%elem_of_app]%elem_of_app
      Hget Hfailed.
    + rewrite (Ht1 _ Hs) in Hget. done.
    + by destruct (Ht2 _ Hs).
    + by destruct Hfailed as [?|(? & ? & [])].
Qed.

(** X5. [sync] swallows no failure of a write: against any implementation of
    the collaborators, when the read of the operator status, the apply of the
    marker, a copy or a status write of the pass was answered with an error,
    or a copy found no source, [sync] returns an error.  (The reads of the
    decision engine are the exception, see C9.) *)
Theorem sync_failures_surface {W} (h : Handler W) (c : RevisionController) (w : W)
    (s : Step) :
  s ∈ trace h (sync c) w →
  isGet (stepCall s) = false →
  stepFailed s →
  result h (sync c) w ≠ None.
Proof.
  unfold trace, result. rewrite run_sync. cbn zeta.
  destruct (h OperatorClientGet w) as [[[[spec status] rv] [e|]] w1]; cbn [fst snd];
    [done|].
  assert (¬ stepFailed (mkStep OperatorClientGet (spec, status, rv, None))) as Hget.
  { by intros [?|(? & ? & [])]. }
  case_bool_decide.
  { by intros [->|[]%elem_of_nil]%elem_of_cons _ ?. }
  case_bool_decide.
  { by intros [->|[]%elem_of_nil]%elem_of_cons _ ?. }
  pose proof (createRevisionIfNeeded_failures h c spec status rv w1 s) as Hpass.
  destruct (run h (createRevisionIfNeeded c spec status rv) w1)
    as [[[requeue syncErr] w2] t2]. cbn [fst snd] in *.
  destruct requeue, syncErr as [u|]; cbn [andb]; try case_bool_decide; try done;
    cbn [fst snd].
  - by destruct (h (UpdateStatus _) w2) as [[[st b] [u'|]] w3].
  - by destruct (h (UpdateStatus _) w2) as [[[st b] [u'|]] w3].
  - destruct (h (UpdateStatus _) w2) as [[[st b] [u'|]] w3]; cbn [fst snd]; [done|].
    intros [->|[Hs|[->|[]%elem_of_nil]%elem_of_cons]%elem_of_app]%elem_of_cons Hisget Hfailed.
    + done.
    + by specialize (Hpass Hs Hisget Hfailed).
    + by destruct Hfailed as [?|(? & ? & [])].
Qed.

(** Scenario A with the apply of the marker failing on an internal error:
    the pass returns an error. *)
Lemma sync_failures_surface_witness :
  result (serve (failAt 3 internalError)) (sync controllerA) worldA ≠ None.
Proof.
  apply (sync_failures_surface (serve (failAt 3 internalError)) controllerA worldA
           (mkStep (ApplyConfigMap (statusConfigMapFor controllerA 1))
              (zeroConfigMap, false, Some internalError))).
  - vm_compute. do 3 apply list_elem_of_further. apply list_elem_of_here.
  - reflexivity.
  - left. discriminate.
Defined.

(** ** A pass that finds the revision current *)

Lemma warningsOf_app (t1 t2 : list Step) :
  warningsOf (t1 ++ t2) = warningsOf t1 ++ warningsOf t2.
Proof.
  induction t1 as [|[call reply] t1 IH]; [done|].
  destruct call; cbn; by rewrite ?IH.
Qed.

Lemma warningsOf_configStore (t : list Step) :
  Forall (λ s, isConfigStoreCall (stepCall s) = true) t → warningsOf t = [].
Proof.
  induction 1 as [|[call reply] t Hcall _ IH]; [done|]. by destruct call.
Qed.

(** X6. When the decision engine answers current, against any implementation
    of the collaborators, [sync] reads the status, lets the engine read, and
    writes the cleared Failing condition, and that is all: it applies
    nothing, copies nothing, records no event and no warning, and returns the
    error of that one status write (nil when it succeeded). *)
Theorem sync_current_pass {W} (h : Handler W) (c : RevisionController) (w : W)
    (operatorSpec : OperatorSpec) (operatorStatus : StaticPodOperatorStatus)
    (resourceVersion reason : string) :
  let decision := isLatestRevisionCurrent c (LatestAvailableRevision operatorStatus) in
  let write := UpdateStatus [UpdateConditionFn notFailingCondition] in
  (h OperatorClientGet w).1 = (operatorSpec, operatorStatus, resourceVersion, None) →
  managementState operatorSpec ≠ Unmanaged →
  managementState operatorSpec ≠ Removed →
  result h decision (h OperatorClientGet w).2 = (true, reason) →
  calls (trace h (sync c) w)
    = OperatorClientGet :: calls (trace h decision (h OperatorClientGet w).2) ++ [write] ∧
  Forall (λ call, isConfigWrite call = false) (calls (trace h (sync c) w)) ∧
  eventsOf (trace h (sync c) w) = [] ∧
  warningsOf (trace h (sync c) w) = [] ∧
  result h (sync c) w
    = (h write (final h decision (h OperatorClientGet w).2)).1.2.
Proof.
  intros decision write Hget Hunmanaged Hremoved Hcurrent.
  unfold trace, result, final in *. rewrite run_sync. cbn zeta. rewrite Hget.
  rewrite !bool_decide_false by done. rewrite run_createRevisionIfNeeded. cbn zeta.
  fold decision.
  pose proof (isLatestRevisionCurrent_reads h c (LatestAvailableRevision operatorStatus)
                (h OperatorClientGet w).2) as Hreads.
  pose proof (isLatestRevisionCurrent_calls h c (LatestAvailableRevision operatorStatus)
                (h OperatorClientGet w).2) as Hcalls.
  fold decision in Hreads, Hcalls.
  destruct (run h decision (h OperatorClientGet w).2) as [[[cur reason'] w1] t1].
  cbn [fst snd] in *. injection Hcurrent as -> ->. cbn [andb fst snd].
  change (finalCondition None) with notFailingCondition. fold write.
  destruct (h write w1) as [[[st b] err] w2]. cbn [fst snd].
  split_and!.
  - unfold calls. by rewrite map_cons, map_app.
  - unfold calls. rewrite map_cons, map_app. constructor; [done|].
    apply Forall_app. split; [|by repeat constructor].
    apply Forall_map. eapply Forall_impl; [exact Hreads|].
    intros [[] ?]; by cbn.
  - cbn [eventsOf]. rewrite eventsOf_app, (eventsOf_configStore t1 Hcalls). done.
  - cbn [warningsOf]. rewrite warningsOf_app, (warningsOf_configStore t1 Hcalls). done.
  - by destruct err.
Qed.

(** Scenario B: the pass reads twice, writes the cleared condition and
    returns nil. *)
Lemma sync_current_pass_witness :
  calls (trace store (sync controllerA) worldB)
  = [OperatorClientGet; ConfigMapsGet "target" "config"; ConfigMapsGet "target" "config-1";
     UpdateStatus [UpdateConditionFn notFailingCondition]].
Proof.
  destruct (sync_current_pass store controllerA worldB (mkOperatorSpec Managed)
              (mkStaticPodOperatorStatus [notFailingCondition] 1) "1" "")
    as (Hcalls & _).
  - vm_compute. reflexivity.
  - discriminate.
  - discriminate.
  - vm_compute. reflexivity.
  - rewrite Hcalls. vm_compute. reflexivity.
Defined.

(** ** The warning of a failed creation *)

(** X7. [createRevisionIfNeeded] records a warning exactly when the creation
    failed and the write of the ContentCreationError condition failed as
    well.  It is then the one warning of the run, its reason is
    RevisionCreateFailed, and its text names the revision that was being
    created and the error of the creation, while the error the function
    returns is the one of the status write. *)
Theorem createRevisionIfNeeded_warning {W} (h : Handler W) (c : RevisionController)
    (operatorSpec : OperatorSpec) (operatorStatus : StaticPodOperatorStatus)
    (resourceVersion : string) (w : W) :
  let nextRevision := Int32.add (LatestAvailableRevision operatorStatus) 1 in
  let pass := createRevisionIfNeeded c operatorSpec operatorStatus resourceVersion in
  let decided :=
    run h (isLatestRevisionCurrent c (LatestAvailableRevision operatorStatus)) w in
  let created := run h (createNewRevision c nextRevision) decided.1.2 in
  (warningsOf (trace h pass w) ≠ [] ↔
   decided.1.1.1 = false ∧ is_Some created.1.1 ∧ is_Some (result h pass w).2) ∧
  (∀ e u, decided.1.1.1 = false → created.1.1 = Some e → (result h pass w).2 = Some u →
     warningsOf (trace h pass w)
       = [("RevisionCreateFailed",
           "Failed to create revision " +:+ fmt.verb_d nextRevision +:+ ": " +:+ Error e)] ∧
     updateErrors (trace h pass w) = [u]).
Proof.
  cbn zeta. unfold trace, result. rewrite run_createRevisionIfNeeded. cbn zeta.
  pose proof (isLatestRevisionCurrent_calls h c (LatestAvailableRevision operatorStatus) w)
    as Ht1.
  destruct (run h (isLatestRevisionCurrent c _) w) as [[[[|] reason] w1] t1];
    cbn [fst snd] in *.
  { rewrite (warningsOf_configStore t1 Ht1). split; [|done].
    split; [done|]. by intros (? & _). }
  pose proof (createNewRevision_calls h c
                (Int32.add (LatestAvailableRevision operatorStatus) 1) w1) as Ht2.
  destruct (run h (createNewRevision c _) w1) as [[[e|] w2] t2]; cbn [fst snd] in *.
  - destruct (h (UpdateStatus _) w2) as [[[st b] [u|]] w3]; cbn [fst snd];
      rewrite !warningsOf_app, !updateErrors_app, (warningsOf_configStore t1 Ht1),
        (warningsOf_configStore t2 Ht2), (updateErrors_configStore t1 Ht1),
        (updateErrors_configStore t2 Ht2); cbn.
    + split; [split; [by eauto|done]|]. by intros e' u' _ [= <-] [= <-].
    + split; [|done]. split; [done|]. by intros (_ & _ & [? ?]).
  - destruct (h (UpdateStatus _) w2) as [[[st [|]] [u|]] w3]; cbn [fst snd];
      rewrite !warningsOf_app, (warningsOf_configStore t1 Ht1),
        (warningsOf_configStore t2 Ht2); cbn;
      (split; [|done]); (split; [done|]); by intros (_ & [? ?] & _).
Qed.

(** Scenario D with the write of the ContentCreationError condition failing
    on a conflict: the warning names revision 1 and the missing secret. *)
Lemma createRevisionIfNeeded_warning_witness :
  warningsOf (trace (serve (failAt 5 conflict))
                (createRevisionIfNeeded controllerD (mkOperatorSpec Managed)
                   (mkStaticPodOperatorStatus [] 0) "0") worldA)
  = [("RevisionCreateFailed",
      "Failed to create revision 1: secrets " +:+ fmt.verb_q "token" +:+ " not found")].
Proof.
  refine (proj1 (proj2 (createRevisionIfNeeded_warning (serve (failAt 5 conflict))
            controllerD (mkOperatorSpec Managed) (mkStaticPodOperatorStatus [] 0) "0"
            worldA) (NewNotFound "secrets" "token") conflict _ _ _));
    vm_compute; reflexivity.
Defined.

(** ** The worker and the queue *)

Lemma queueCallsOf_app (t1 t2 : list Step) :
  queueCallsOf (t1 ++ t2) = queueCallsOf t1 ++ queueCallsOf t2.
Proof.
  induction t1 as [|s t1 IH]; [done|].
  cbn. destruct (isQueueCall (stepCall s)); cbn; by rewrite IH.
Qed.

Lemma queueCallsOf_configStore (t : list Step) :
  Forall (λ s, isConfigStoreCall (stepCall s) = true) t → queueCallsOf t = [].
Proof.
  induction 1 as [|[call reply] t Hcall _ IH]; [done|]. by destruct call.
Qed.

Lemma quitsOf_app (t1 t2 : list Step) : quitsOf (t1 ++ t2) = quitsOf t1 ++ quitsOf t2.
Proof.
  induction t1 as [|[call reply] t1 IH]; [done|].
  destruct call; cbn; by rewrite ?IH.
Qed.

Lemma quitsOf_no_queue (t : list Step) : queueCallsOf t = [] → quitsOf t = [].
Proof.
  induction t as [|[call reply] t IH]; [done|]. destruct call; cbn; auto; done.
Qed.

(** A pass never calls the queue. *)
Lemma sync_no_queue {W} (h : Handler W) (c : RevisionController) (w : W) :
  queueCallsOf (run h (sync c) w).2 = [].
Proof.
  rewrite run_sync. cbn zeta.
  destruct (h OperatorClientGet w) as [[[[spec status] rv] [e|]] w1]; cbn [fst snd];
    [done|].
  repeat case_bool_decide; try done.
  rewrite run_createRevisionIfNeeded. cbn zeta.
  pose proof (isLatestRevisionCurrent_calls h c (LatestAvailableRevision status) w1)
    as Ht1%queueCallsOf_configStore.
  destruct (run h (isLatestRevisionCurrent c _) w1) as [[[[|] reason] w2] t1];
    cbn [fst snd andb] in *.
  { cbn. by rewrite queueCallsOf_app, Ht1. }
  pose proof (createNewRevision_calls h c (Int32.add (LatestAvailableRevision status) 1) w2)
    as Ht2%queueCallsOf_configStore.
  destruct (run h (createNewRevision c _) w2) as [[[e|] w3] t2]; cbn [fst snd] in *.
  - destruct (h (UpdateStatus _) w3) as [[[st b] [u|]] w4]; cbn [fst snd andb];
      try rewrite bool_decide_false by done; try rewrite bool_decide_true by done;
      cbn [fst snd queueCallsOf stepCall isQueueCall];
      by rewrite !queueCallsOf_app, Ht1, Ht2.
  - destruct (h (UpdateStatus _) w3) as [[[st [|]] [u|]] w4]; cbn [fst snd andb];
      try rewrite bool_decide_false by done;
      cbn [fst snd queueCallsOf stepCall isQueueCall];
      by rewrite !queueCallsOf_app, Ht1, Ht2.
Qed.

Lemma last_cons_app_snoc {A} (x : A) (l m : list A) (z : A) :
  last (x :: l ++ m ++ [z]) = Some z.
Proof. by rewrite app_comm_cons, app_assoc, last_snoc. Qed.

(** One turn of the worker, as the queue sees it. *)
Lemma processNextWorkItem_queue {W} (h : Handler W) (c : RevisionController) (w0 : W) :
  let got := h QueueGet w0 in
  let out := run h (processNextWorkItem c) w0 in
  quitsOf out.2 = [got.1.2] ∧
  out.1.1 = negb got.1.2 ∧
  if got.1.2 then calls out.2 = [QueueGet]
  else
    queueCallsOf out.2
      = [QueueGet;
         match (run h (sync c) got.2).1.1 with
         | None => QueueForget got.1.1
         | Some _ => QueueAddRateLimited got.1.1
         end;
         QueueDone got.1.1] ∧
    last (calls out.2) = Some (QueueDone got.1.1).
Proof.
  cbn zeta. rewrite run_processNextWorkItem. cbn zeta.
  destruct (h QueueGet w0) as [[key [|]] w]; cbn [fst snd]; [done|].
  pose proof (sync_no_queue h c w) as Hsync.
  pose proof (quitsOf_no_queue _ Hsync) as Hquits.
  destruct (run h (sync c) w) as [[[e|] w1] t]; cbn [fst snd] in *.
  - cbn [quitsOf queueCallsOf stepCall isQueueCall].
    rewrite quitsOf_app, queueCallsOf_app, Hquits, Hsync. split_and!; try done.
    unfold calls. rewrite map_cons, map_app. cbn [map stepCall].
    apply (last_cons_app_snoc _ _ [_; _]).
  - cbn [quitsOf queueCallsOf stepCall isQueueCall].
    rewrite quitsOf_app, queueCallsOf_app, Hquits, Hsync. split_and!; try done.
    unfold calls. rewrite map_cons, map_app. cbn [map stepCall].
    apply (last_cons_app_snoc _ _ [_]).
Qed.

(** X8. One turn of the worker, against any implementation of the
    collaborators.  When the queue reports that it is shut down, the turn
    returns false after that one call: no pass is run and nothing is marked
    done.  Otherwise the turn returns true, the pass itself never calls the
    queue, and the queue sees three calls: the dequeue, then a forget of the
    key when the pass returned nil or a rate limited re-add of the key when it
    returned an error (never both), then the done of the key, which is the last
    call of the turn. *)
Theorem processNextWorkItem_queue_protocol {W} (h : Handler W) (c : RevisionController)
    (w0 : W) :
  let got := h QueueGet w0 in
  let key := got.1.1 in
  queueCallsOf (trace h (sync c) got.2) = [] ∧
  if got.1.2 then
    result h (processNextWorkItem c) w0 = false ∧
    calls (trace h (processNextWorkItem c) w0) = [QueueGet]
  else
    result h (processNextWorkItem c) w0 = true ∧
    queueCallsOf (trace h (processNextWorkItem c) w0)
      = [QueueGet;
         match result h (sync c) got.2 with
         | None => QueueForget key
         | Some _ => QueueAddRateLimited key
         end;
         QueueDone key] ∧
    last (calls (trace h (processNextWorkItem c) w0)) = Some (QueueDone key).
Proof.
  cbn zeta. split; [apply sync_no_queue|].
  destruct (processNextWorkItem_queue h c w0) as (_ & Hres & Hrest). cbn zeta in *.
  unfold result, trace. rewrite Hres.
  destruct (h QueueGet w0).1.2; [by split|]. by destruct Hrest.
Qed.

Lemma replicate_false_snoc (n : nat) :
  false :: replicate n false = replicate n false ++ [false].
Proof. induction n as [|n IH]; [done|]. cbn. by rewrite <-IH. Qed.

(** X9. The worker loop, against any implementation of the collaborators and
    for any bound on its turns.  When the loop ends, it does so at the first
    dequeue that reports the shutdown: every dequeue before it reported none,
    that dequeue is the last call of the loop, and each earlier turn made its
    three calls to the queue.  When the bound is reached with the loop still
    going, no dequeue has reported the shutdown. *)
Theorem runWorker_stops_at_quit {W} (h : Handler W) (c : RevisionController)
    (fuel : nat) (w : W) :
  if result h (runWorker fuel c) w then
    ∃ turns, (turns < fuel)%nat ∧
      quitsOf (trace h (runWorker fuel c) w) = replicate turns false ++ [true] ∧
      length (queueCallsOf (trace h (runWorker fuel c) w)) = (3 * turns + 1)%nat ∧
      last (calls (trace h (runWorker fuel c) w)) = Some QueueGet
  else
    quitsOf (trace h (runWorker fuel c) w) = replicate fuel false ∧
    length (queueCallsOf (trace h (runWorker fuel c) w)) = (3 * fuel)%nat.
Proof.
  unfold result, trace. revert w. induction fuel as [|fuel IH]; intros w; [done|].
  cbn [runWorker]. rewrite run_bind.
  destruct (processNextWorkItem_queue h c w) as (Hquits & Hres & Hrest). cbn zeta in *.
  destruct (run h (processNextWorkItem c) w) as [[more w1] t1]. cbn [fst snd] in *.
  destruct (h QueueGet w).1.2 eqn:Hquit; cbn [negb] in Hres; subst more.
  - rewrite run_ret. cbn [fst snd]. rewrite app_nil_r.
    exists 0%nat. split_and!; [lia|by rewrite Hquits| |].
    + assert (queueCallsOf t1 = [QueueGet]) as ->; [|done].
      clear -Hrest. destruct t1 as [|[call r] [|? ?]]; try done.
      cbn in Hrest. by injection Hrest as ->.
    + by rewrite Hrest.
  - destruct Hrest as [Hqueue Hlast]. specialize (IH w1).
    destruct (run h (runWorker fuel c) w1) as [[[|] w2] t2]; cbn [fst snd] in *.
    + destruct IH as (turns & Hlt & Hq & Hlen & Hl).
      exists (S turns). rewrite quitsOf_app, queueCallsOf_app, Hquits, Hq, Hqueue.
      split_and!; [lia|done| |].
      * rewrite length_app, Hlen. cbn. lia.
      * unfold calls in *. rewrite map_app.
        destruct (map stepCall t2) as [|x l] eqn:Ht2; [done|].
        by rewrite last_app, Hl.
    + destruct IH as [Hq Hlen].
      rewrite quitsOf_app, queueCallsOf_app, Hquits, Hq, Hqueue. split.
      * done.
      * rewrite length_app, Hlen. cbn. lia.
Qed.

Lemma runWorker_stops_at_quit_witness :
  result store (runWorker 3 controllerA) worldA = false ∧
  quitsOf (trace store (runWorker 3 controllerA) worldA) = [false; false; false].
Proof.
  pose proof (runWorker_stops_at_quit store controllerA 3 worldA) as H.
  assert (result store (runWorker 3 controllerA) worldA = false) as Hres
    by (vm_compute; reflexivity).
  rewrite Hres in H. split; [exact Hres|exact (proj1 H)].
Defined.

(** ** What a creation writes in the model of the stores *)

Lemma nameFor_inj_name (n n' : string) (r : Z) : nameFor n r = nameFor n' r → n = n'.
Proof. apply append_inj_r. Qed.

Section CopyLoop.
Context {D : Type} (get : World → gmap (string * string) (Stored D)).
Context {T : Type} (rest : World → T).
Context (plan : FaultPlan) (ns : string) (r : Z) (refs : list OwnerReference).
Context (body : string → Prog (option (option error))).

(** A round copies its live source under the snapshot name, or fails and
    writes nothing. *)
Hypothesis round :
  ∀ x w,
    rest (run (serve plan) (body x) w).1.2 = rest w ∧
    (((run (serve plan) (body x) w).1.1 = None ∧
      ∃ live, get w !! (ns, x) = Some live ∧
              get (run (serve plan) (body x) w).1.2
              = <[(ns, nameFor x r) := mkStored (storedData live) refs]> (get w)) ∨
     ((run (serve plan) (body x) w).1.1 ≠ None ∧
      get (run (serve plan) (body x) w).1.2 = get w)).

Lemma copy_loop_rest (l : list string) (w : World) :
  rest (run (serve plan) (range l body) w).1.2 = rest w.
Proof.
  revert w. induction l as [|x l IH]; intros w; [done|].
  rewrite run_range_cons. destruct (round x w) as [Hrest _].
  destruct (run (serve plan) (body x) w) as [[[v|] w1] t1]; cbn [fst snd] in *; [done|].
  specialize (IH w1). destruct (run (serve plan) (range l body) w1) as [[r' w2] t2].
  cbn [fst snd] in *. congruence.
Qed.

Lemma copy_loop_frame (l : list string) (w : World) (key : string * string) :
  (∀ n, n ∈ l → key ≠ (ns, nameFor n r)) →
  get (run (serve plan) (range l body) w).1.2 !! key = get w !! key.
Proof.
  revert w. induction l as [|x l IH]; intros w Hkey; [done|].
  rewrite run_range_cons. destruct (round x w) as [_ Hround].
  assert (get (run (serve plan) (body x) w).1.2 !! key = get w !! key) as Hx.
  { destruct Hround as [(_ & live & _ & ->)|[_ ->]]; [|done].
    rewrite lookup_insert_ne; [done|]. intros Heq. apply (Hkey x); [|done].
    apply list_elem_of_here. }
  destruct (run (serve plan) (body x) w) as [[[v|] w1] t1]; cbn [fst snd] in *; [done|].
  specialize (IH w1 (λ n Hn, Hkey n (list_elem_of_further _ _ _ Hn))).
  destruct (run (serve plan) (range l body) w1) as [[r' w2] t2].
  cbn [fst snd] in *. congruence.
Qed.

Lemma copy_loop_copies (l : list string) (w : World) :
  (run (serve plan) (range l body) w).1.1 = None →
  (∀ n m, n ∈ l → m ∈ l → nameFor m r ≠ n) →
  ∀ n, n ∈ l →
    ∃ live, get w !! (ns, n) = Some live ∧
            get (run (serve plan) (range l body) w).1.2 !! (ns, nameFor n r)
            = Some (mkStored (storedData live) refs).
Proof.
  revert w. induction l as [|x l IH]; intros w Hnone Hapart n Hn.
  { by apply elem_of_nil in Hn. }
  pose proof (copy_loop_frame l) as Hframe.
  revert Hnone. rewrite run_range_cons. destruct (round x w) as [_ Hround].
  destruct (run (serve plan) (body x) w) as [[[v|] w1] t1]; cbn [fst snd] in *; [done|].
  destruct Hround as [(_ & live & Hlive & Hw1)|[? _]]; [|done].
  specialize (IH w1). specialize (Hframe w1).
  destruct (run (serve plan) (range l body) w1) as [[r' w2] t2].
  cbn [fst snd] in *. intros ->.
  assert (∀ n', n' ∈ l →
            ∃ live', get w !! (ns, n') = Some live' ∧
                     get w2 !! (ns, nameFor n' r) = Some (mkStored (storedData live') refs))
    as Htail.
  { intros n' Hn'.
    destruct (IH eq_refl
                (λ a b Ha Hb, Hapart a b (list_elem_of_further _ _ _ Ha)
                                (list_elem_of_further _ _ _ Hb)) n' Hn')
      as (live' & Hlive' & Hsnap).
    exists live'. split; [|done]. rewrite Hw1 in Hlive'.
    rewrite lookup_insert_ne in Hlive'; [done|]. intros [= Heq].
    eapply (Hapart n' x); [by apply list_elem_of_further|apply list_elem_of_here|done]. }
  apply elem_of_cons in Hn as [->|Hn]; [|by apply Htail].
  destruct (decide (x ∈ l)) as [Hin|Hnotin]; [by apply Htail|].
  exists live. split; [done|]. rewrite Hframe.
  - rewrite Hw1. apply lookup_insert_eq.
  - intros m Hm [= Heq%nameFor_inj_name]. congruence.
Qed.
End CopyLoop.

(** The parts of a world that a creation never touches. *)
Lemma serve_copyConfigMap_round (plan : FaultPlan) (c : RevisionController) (r : Z)
    (refs : list OwnerReference) (x : string) (w : World) :
  let body : string → Prog (option (option error)) := λ name,
    '(obj, _, err) ← call (SyncConfigMap (targetNamespace c) name
                             (targetNamespace c) (nameFor name r) refs);
    match err with
    | Some e => mret (Some (Some e))
    | None =>
    match obj with
    | None => mret (Some (Some (NewNotFound "configmaps" name)))
    | Some _ => mret None
    end end in
  let rest := λ w : World,
    (wSecrets w, wSpec w, wStatus w, wResourceVersion w, wEvents w, wWarnings w,
     wRequeues w, wShutDown w) in
  rest (run (serve plan) (body x) w).1.2 = rest w ∧
  (((run (serve plan) (body x) w).1.1 = None ∧
    ∃ live, wConfigMaps w !! (targetNamespace c, x) = Some live ∧
            wConfigMaps (run (serve plan) (body x) w).1.2
            = <[(targetNamespace c, nameFor x r) := mkStored (storedData live) refs]>
                (wConfigMaps w)) ∨
   ((run (serve plan) (body x) w).1.1 ≠ None ∧
    wConfigMaps (run (serve plan) (body x) w).1.2 = wConfigMaps w)).
Proof.
  cbn beta zeta. rewrite run_bind; run_call. unfold serve.
  destruct (plan (wClock w)) as [e|]; cbn [isStoreCall failure answer fst snd].
  { rewrite run_ret. cbn. split; [done|]. by right. }
  destruct (wConfigMaps w !! (targetNamespace c, x)) as [live|] eqn:Hlive;
    cbn [fst snd]; rewrite run_ret; cbn.
  - split; [done|]. left. split; [done|]. by exists live.
  - split; [done|]. by right.
Qed.

Lemma serve_copySecret_round (plan : FaultPlan) (c : RevisionController) (r : Z)
    (refs : list OwnerReference) (x : string) (w : World) :
  let body : string → Prog (option (option error)) := λ name,
    '(obj, _, err) ← call (SyncSecret (targetNamespace c) name
                             (targetNamespace c) (nameFor name r) refs);
    match err with
    | Some e => mret (Some (Some e))
    | None =>
    match obj with
    | None => mret (Some (Some (NewNotFound "secrets" name)))
    | Some _ => mret None
    end end in
  let rest := λ w : World,
    (wConfigMaps w, wSpec w, wStatus w, wResourceVersion w, wEvents w, wWarnings w,
     wRequeues w, wShutDown w) in
  rest (run (serve plan) (body x) w).1.2 = rest w ∧
  (((run (serve plan) (body x) w).1.1 = None ∧
    ∃ live, wSecrets w !! (targetNamespace c, x) = Some live ∧
            wSecrets (run (serve plan) (body x) w).1.2
            = <[(targetNamespace c, nameFor x r) := mkStored (storedData live) refs]>
                (wSecrets w)) ∨
   ((run (serve plan) (body x) w).1.1 ≠ None ∧
    wSecrets (run (serve plan) (body x) w).1.2 = wSecrets w)).
Proof.
  cbn beta zeta. rewrite run_bind; run_call. unfold serve.
  destruct (plan (wClock w)) as [e|]; cbn [isStoreCall failure answer fst snd].
  { rewrite run_ret. cbn. split; [done|]. by right. }
  destruct (wSecrets w !! (targetNamespace c, x)) as [live|] eqn:Hlive;
    cbn [fst snd]; rewrite run_ret; cbn.
  - split; [done|]. left. split; [done|]. by exists live.
  - split; [done|]. by right.
Qed.

(** What a creation does to the stores of the model. *)
Lemma serve_createNewRevision_writes (plan : FaultPlan) (c : RevisionController) (r : Z)
    (w : World) :
  let out := run (serve plan) (createNewRevision c r) w in
  let ns := targetNamespace c in
  ((wSpec out.1.2, wStatus out.1.2, wResourceVersion out.1.2, wEvents out.1.2,
    wWarnings out.1.2, wRequeues out.1.2, wShutDown out.1.2)
   = (wSpec w, wStatus w, wResourceVersion w, wEvents w, wWarnings w, wRequeues w,
      wShutDown w)) ∧
  (∀ key, key ≠ (ns, nameFor "revision-status" r) →
          (∀ n, n ∈ configMaps c → key ≠ (ns, nameFor n r)) →
          wConfigMaps out.1.2 !! key = wConfigMaps w !! key) ∧
  (∀ key, (∀ n, n ∈ secrets c → key ≠ (ns, nameFor n r)) →
          wSecrets out.1.2 !! key = wSecrets w !! key) ∧
  (out.1.1 = None → snapshotsApart c r →
   ∀ src, src ∈ sources c → pairMatches out.1.2 c r src).
Proof.
  cbn zeta. unfold createNewRevision. cbn zeta. rewrite run_bind; run_call.
  assert (∃ w1 reply,
            serve plan (ApplyConfigMap (statusConfigMapFor c r)) w = (reply, w1) ∧
            (wSecrets w1, wSpec w1, wStatus w1, wResourceVersion w1, wEvents w1,
             wWarnings w1, wRequeues w1, wShutDown w1)
            = (wSecrets w, wSpec w, wStatus w, wResourceVersion w, wEvents w,
               wWarnings w, wRequeues w, wShutDown w) ∧
            (∀ key, key ≠ (targetNamespace c, nameFor "revision-status" r) →
                    wConfigMaps w1 !! key = wConfigMaps w !! key))
    as (w1 & [[applied changed] err] & Happly & Hrest1 & Hframe1).
  { unfold serve. destruct (plan (wClock w)); cbn [isStoreCall failure answer].
    - eexists _, _. split_and!; [done|done|done].
    - eexists _, _. split_and!; [done|done|].
      intros key Hkey. cbn. by rewrite lookup_insert_ne. }
  rewrite Happly. cbn [fst snd].
  destruct err as [e|].
  { rewrite run_ret. cbn [fst snd]. injection Hrest1 as ? ? ? ? ? ? ? ?.
    split_and!; [congruence|auto|by intros; congruence|done]. }
  rewrite run_bind.
  match goal with |- context [run (serve plan) (range (configMaps c) ?b) w1] =>
    set (copyConfigMaps := b) end.
  pose proof (copy_loop_rest wConfigMaps _ plan (targetNamespace c) r (ownerRefsOf applied)
                copyConfigMaps (serve_copyConfigMap_round plan c r (ownerRefsOf applied))
                (configMaps c) w1) as Hrest2.
  pose proof (copy_loop_frame wConfigMaps _ plan (targetNamespace c) r (ownerRefsOf applied)
                copyConfigMaps (serve_copyConfigMap_round plan c r (ownerRefsOf applied))
                (configMaps c) w1) as Hframe2.
  pose proof (copy_loop_copies wConfigMaps _ plan (targetNamespace c) r
                (ownerRefsOf applied) copyConfigMaps
                (serve_copyConfigMap_round plan c r (ownerRefsOf applied))
                (configMaps c) w1) as Hcopies2.
  assert (∀ v, (run (serve plan) (range (configMaps c) copyConfigMaps) w1).1.1 = Some v →
               v ≠ None) as Hret2.
  { apply (range_returns (serve plan) (λ v : option error, v ≠ None)).
    intros name w' v. subst copyConfigMaps. cbn beta. rewrite run_bind; run_call.
    destruct (serve plan _ w') as [[[[obj|] ch] [e'|]] w'']; cbn; try done;
      by intros [= <-]. }
  destruct (run (serve plan) (range (configMaps c) copyConfigMaps) w1)
    as [[res2 w2] t2]. cbn [fst snd] in *.
  assert (∀ key, key ≠ (targetNamespace c, nameFor "revision-status" r) →
                 (∀ n, n ∈ configMaps c → key ≠ (targetNamespace c, nameFor n r)) →
                 wConfigMaps w2 !! key = wConfigMaps w !! key) as Hframe12.
  { intros key Hmarker Hkey. by rewrite Hframe2, Hframe1. }
  injection Hrest1 as Hs1 Hsp1 Hst1 Hrv1 Hev1 Hwa1 Hrq1 Hsd1.
  injection Hrest2 as Hs2 Hsp2 Hst2 Hrv2 Hev2 Hwa2 Hrq2 Hsd2.
  destruct res2 as [v|].
  { rewrite run_ret. cbn [fst snd].
    split_and!; [congruence|done|by intros; congruence|].
    intros ->. by destruct (Hret2 None). }
  rewrite run_bind.
  match goal with |- context [run (serve plan) (range (secrets c) ?b) w2] =>
    set (copySecrets := b) end.
  pose proof (copy_loop_rest wSecrets _ plan (targetNamespace c) r (ownerRefsOf applied)
                copySecrets (serve_copySecret_round plan c r (ownerRefsOf applied))
                (secrets c) w2) as Hrest3.
  pose proof (copy_loop_frame wSecrets _ plan (targetNamespace c) r (ownerRefsOf applied)
                copySecrets (serve_copySecret_round plan c r (ownerRefsOf applied))
                (secrets c) w2) as Hframe3.
  pose proof (copy_loop_copies wSecrets _ plan (targetNamespace c) r
                (ownerRefsOf applied) copySecrets
                (serve_copySecret_round plan c r (ownerRefsOf applied))
                (secrets c) w2) as Hcopies3.
  assert (∀ v, (run (serve plan) (range (secrets c) copySecrets) w2).1.1 = Some v →
               v ≠ None) as Hret3.
  { apply (range_returns (serve plan) (λ v : option error, v ≠ None)).
    intros name w' v. subst copySecrets. cbn beta. rewrite run_bind; run_call.
    destruct (serve plan _ w') as [[[[obj|] ch] [e'|]] w'']; cbn; try done;
      by intros [= <-]. }
  destruct (run (serve plan) (range (secrets c) copySecrets) w2)
    as [[res3 w3] t3]. cbn [fst snd] in *.
  injection Hrest3 as Hc3 Hsp3 Hst3 Hrv3 Hev3 Hwa3 Hrq3 Hsd3.
  assert (∀ key, (∀ n, n ∈ secrets c → key ≠ (targetNamespace c, nameFor n r)) →
                 wSecrets w3 !! key = wSecrets w !! key) as Hframe123.
  { intros key Hkey. rewrite Hframe3 by done. congruence. }
  assert ((match res3 with Some v => v | None => None end) = None →
          snapshotsApart c r →
          ∀ src, src ∈ sources c → pairMatches w3 c r src) as Hmatches.
  { intros Hnone [Hcm Hsec] [k name] Hsrc.
    assert (res3 = None) as -> by (destruct res3 as [v|]; [by destruct (Hret3 v)|done]).
    unfold sources in Hsrc. apply elem_of_app in Hsrc as [Hsrc|Hsrc];
      apply list_elem_of_fmap in Hsrc as (n & [= -> ->] & Hn); cbn [pairMatches].
    - destruct (Hcopies2 eq_refl (λ a b Ha Hb, Hcm b a Hb Ha) n Hn)
        as (live & Hlive & Hsnap).
      exists live, (mkStored (storedData live) (ownerRefsOf applied)).
      rewrite Hc3. split_and!; [|done|done].
      rewrite Hframe2; [done|]. intros m Hm [= Heq]. by apply (Hcm m n Hm Hn).
    - destruct (Hcopies3 eq_refl (λ a b Ha Hb, Hsec b a Hb Ha) n Hn)
        as (live & Hlive & Hsnap).
      exists live, (mkStored (storedData live) (ownerRefsOf applied)).
      split_and!; [|done|done].
      rewrite Hframe3; [done|]. intros m Hm [= Heq]. by apply (Hsec m n Hm Hn). }
  destruct res3 as [v|]; rewrite run_ret; cbn [fst snd];
    (split_and!; [congruence|by rewrite Hc3|done|done]).
Qed.

(** X10. In the model of the stores, whichever calls fail, a creation of
    revision [r] writes only under the names of that revision: a configmap
    that is neither the marker [revision-status-<r>] nor the snapshot
    [<source>-<r>] of a configured configmap, and a secret that is not the
    snapshot of a configured secret, is after the creation what it was before,
    and so are objects of other namespaces, the operator status, and the
    recorded events and warnings.  When no snapshot name of the revision is the
    name of a configured source, the configured sources themselves are left as
    they were (the marker name apart). *)
Theorem createNewRevision_writes_only_its_names (plan : FaultPlan)
    (c : RevisionController) (r : Z) (w : World) :
  let after := final (serve plan) (createNewRevision c r) w in
  (∀ namespace name,
     namespace ≠ targetNamespace c ∨ ¬ writtenConfigMap c r name →
     wConfigMaps after !! (namespace, name) = wConfigMaps w !! (namespace, name)) ∧
  (∀ namespace name,
     namespace ≠ targetNamespace c ∨ ¬ writtenSecret c r name →
     wSecrets after !! (namespace, name) = wSecrets w !! (namespace, name)) ∧
  wStatus after = wStatus w ∧
  wResourceVersion after = wResourceVersion w ∧
  wEvents after = wEvents w ∧
  wWarnings after = wWarnings w ∧
  (snapshotsApart c r →
   (∀ n, n ∈ configMaps c → n ≠ nameFor "revision-status" r →
         wConfigMaps after !! (targetNamespace c, n)
         = wConfigMaps w !! (targetNamespace c, n)) ∧
   (∀ n, n ∈ secrets c →
         wSecrets after !! (targetNamespace c, n) = wSecrets w !! (targetNamespace c, n))).
Proof.
  cbn zeta. unfold final.
  destruct (serve_createNewRevision_writes plan c r w) as (Hrest & Hcm & Hsec & _).
  cbn zeta in *. injection Hrest as Hsp Hst Hrv Hev Hwa Hrq Hsd.
  split_and!; try done.
  - intros namespace name Hother. apply Hcm.
    + intros [= -> ->]. destruct Hother as [?|Hname]; [done|]. apply Hname. by left.
    + intros n Hn [= -> ->]. destruct Hother as [?|Hname]; [done|].
      apply Hname. right. by exists n.
  - intros namespace name Hother. apply Hsec.
    intros n Hn [= -> ->]. destruct Hother as [?|Hname]; [done|].
    apply Hname. by exists n.
  - intros [Hapartcm Hapartsec]. split.
    + intros n Hn Hmarker. apply Hcm; [by intros [= ->]|].
      intros m Hm [= Heq]. by apply (Hapartcm m n Hm Hn).
    + intros n Hn. apply Hsec. intros m Hm [= Heq]. by apply (Hapartsec m n Hm Hn).
Qed.

Lemma snapshotsApart_controllerA : snapshotsApart controllerA 1.
Proof.
  split.
  - intros n n' Hn Hn'. apply list_elem_of_singleton in Hn as ->.
    apply list_elem_of_singleton in Hn' as ->. by vm_compute.
  - by intros n n' ?%elem_of_nil.
Qed.

(** Scenario A: the creation of revision 1 leaves the live [config] as it
    was.  With the sources [config-1] and [config], whose snapshot names
    collide, the creation of revision 1 overwrites the live [config-1]. *)
Lemma createNewRevision_writes_only_its_names_witness :
  wConfigMaps (final store (createNewRevision controllerA 1) worldA) !! ("target", "config")
    = wConfigMaps worldA !! ("target", "config") ∧
  storedData <$> wConfigMaps (final store (createNewRevision controllerX 1) worldX)
                   !! ("target", "config-1") = Some {[ "a" := "1" ]} ∧
  storedData <$> wConfigMaps worldX !! ("target", "config-1") = Some {[ "a" := "2" ]}.
Proof.
  split_and!; [|vm_compute; reflexivity..].
  destruct (createNewRevision_writes_only_its_names noFaults controllerA 1 worldA)
    as (_ & _ & _ & _ & _ & _ & Hsources).
  destruct (Hsources snapshotsApart_controllerA) as [Hcm _].
  apply (Hcm "config"); [apply list_elem_of_here|by vm_compute].
Defined.

(** X11. Create, then check: in the model of the stores, when a creation of
    revision [r] returns nil and no snapshot name of the revision is the name
    of a configured source, the decision engine asked about [r] right after
    answers current with the empty reason. *)
Theorem createNewRevision_then_current (plan : FaultPlan) (c : RevisionController) (r : Z)
    (w : World) :
  result (serve plan) (createNewRevision c r) w = None →
  snapshotsApart c r →
  result store (isLatestRevisionCurrent c r) (final (serve plan) (createNewRevision c r) w)
    = (true, "").
Proof.
  intros Hnone Hapart. unfold result, final in *.
  destruct (serve_createNewRevision_writes plan c r w) as (_ & _ & _ & Hmatches).
  cbn zeta in *. specialize (Hmatches Hnone Hapart).
  destruct (store_isLatestRevisionCurrent c r
              (run (serve plan) (createNewRevision c r) w).1.2) as [-> _].
  unfold isCurrentSpec.
  assert (firstStale (run (serve plan) (createNewRevision c r) w).1.2 c r (sources c)
          = None) as ->; [|done].
  apply firstStale_None. intros src Hsrc. by apply staleReason_None, Hmatches.
Qed.

(** Scenario A: revision 1 is current right after its creation.  With the
    colliding sources [config-1] and [config] it is not. *)
Lemma createNewRevision_then_current_witness :
  result store (isLatestRevisionCurrent controllerA 1)
    (final store (createNewRevision controllerA 1) worldA) = (true, "") ∧
  result store (createNewRevision controllerX 1) worldX = None ∧
  result store (isLatestRevisionCurrent controllerX 1)
    (final store (createNewRevision controllerX 1) worldX)
    = (false, "configmap/config-1 has changed").
Proof.
  split_and!; [|vm_compute; reflexivity..].
  apply (createNewRevision_then_current noFaults controllerA 1 worldA).
  - vm_compute. reflexivity.
  - exact snapshotsApart_controllerA.
Defined.

(** ** A second pass *)

Lemma SetOperatorCondition_idemp (conditions : list OperatorCondition)
    (cond : OperatorCondition) :
  SetOperatorCondition (SetOperatorCondition conditions cond) cond
  = SetOperatorCondition conditions cond.
Proof.
  induction conditions as [|x l IH]; cbn.
  - by rewrite bool_decide_true.
  - case_bool_decide as Hx; cbn.
    + by rewrite bool_decide_true.
    + by rewrite bool_decide_false, IH.
Qed.

Lemma isCurrentSpec_ext (w w' : World) (c : RevisionController) (r : Z) :
  sameConfigStore w w' → isCurrentSpec w c r = isCurrentSpec w' c r.
Proof. intros Hw. unfold isCurrentSpec. by rewrite (firstStale_ext w w' c r _ Hw). Qed.

Lemma sameButClock_trans (w1 w2 w3 : World) :
  sameButClock w1 w2 → sameButClock w2 w3 → sameButClock w1 w3.
Proof. unfold sameButClock. intros H1 H2. destruct_and!. split_and!; congruence. Qed.

Lemma store_get_sameButClock (call : Call) (w : World) :
  isGet call = true → sameButClock w (store call w).2.
Proof.
  destruct call; try done; intros _; unfold store, serve, noFaults; cbn.
  - by destruct (wConfigMaps w !! _).
  - by destruct (wSecrets w !! _).
Qed.

(** A status write over the stores without faults: the Config Store and the
    directive stay, and the conditions become the old conditions with the
    condition set. *)
Lemma store_UpdateStatus_condition (cond : OperatorCondition) (w : World) :
  let out := store (UpdateStatus [UpdateConditionFn cond]) w in
  out.1.2 = None ∧
  sameConfigStore w out.2 ∧ wSpec out.2 = wSpec w ∧
  LatestAvailableRevision (wStatus out.2) = LatestAvailableRevision (wStatus w) ∧
  Conditions (wStatus out.2) = SetOperatorCondition (Conditions (wStatus w)) cond ∧
  (SetOperatorCondition (Conditions (wStatus w)) cond = Conditions (wStatus w) →
   sameButClock w out.2).
Proof.
  unfold store, serve, noFaults. cbn. case_bool_decide as Heq; cbn.
  - split_and!; try done.
    apply (f_equal Conditions) in Heq. by cbn in Heq.
  - split_and!; try done. intros Hfix. destruct Heq. rewrite Hfix.
    by destruct (wStatus w).
Qed.

Lemma store_UpdateStatus_frame (updateFuncs : list UpdateStatusFunc) (w : World) :
  sameConfigStore w (store (UpdateStatus updateFuncs) w).2 ∧
  wSpec (store (UpdateStatus updateFuncs) w).2 = wSpec w.
Proof.
  unfold store, serve, noFaults. cbn.
  destruct (applyUpdateFuncs updateFuncs (wStatus w)) as [st [e|]]; [done|].
  by case_bool_decide.
Qed.

(** After [createRevisionIfNeeded] returned without asking for a requeue,
    the recorded revision is current. *)
Lemma store_createRevisionIfNeeded_settles (c : RevisionController)
    (resourceVersion : string) (w : World) :
  snapshotsApart c (Int32.add (revisionOf w) 1) →
  let out := run store (createRevisionIfNeeded c (wSpec w) (wStatus w) resourceVersion) w in
  out.1.1.1 = false →
  isCurrentSpec out.1.2 c (revisionOf out.1.2) = (true, "") ∧ wSpec out.1.2 = wSpec w.
Proof.
  intros Hapart. cbn zeta. unfold revisionOf in *.
  rewrite run_createRevisionIfNeeded. cbn zeta.
  destruct (store_isLatestRevisionCurrent c (LatestAvailableRevision (wStatus w)) w)
    as [Hdecision Hsame].
  pose proof (isLatestRevisionCurrent_reads store c (LatestAvailableRevision (wStatus w)) w)
    as Hreads.
  assert (sameButClock w
            (run store (isLatestRevisionCurrent c (LatestAvailableRevision (wStatus w)))
               w).1.2) as Hclock.
  { apply (run_preserves store (sameButClock w) (λ call, isGet call = true)).
    - intros call w' Hcall Hw'. eapply sameButClock_trans; [exact Hw'|].
      by apply store_get_sameButClock.
    - unfold calls. by apply Forall_map.
    - unfold sameButClock. by split_and!. }
  destruct (run store (isLatestRevisionCurrent c _) w) as [[[cur reason] w1] t1].
  cbn [fst snd] in *.
  destruct Hclock as (_ & _ & Hspec1 & Hstatus1 & _).
  destruct cur; cbn [fst snd].
  { intros _. rewrite <-Hstatus1, <-(isCurrentSpec_ext w w1) by done. split; [|done].
    unfold isCurrentSpec in *. by destruct (firstStale w c _ (sources c)). }
  destruct (serve_createNewRevision_writes noFaults c
              (Int32.add (LatestAvailableRevision (wStatus w)) 1) w1)
    as (Hrest & _ & _ & Hmatches).
  cbn zeta in *. change (serve noFaults) with store in *.
  destruct (run store (createNewRevision c _) w1) as [[[e|] w2] t2]; cbn [fst snd] in *.
  { by destruct (store (UpdateStatus _) w2) as [[[st b] [u|]] w3]. }
  injection Hrest as Hspec2 Hstatus2 _ _ _ _ _.
  specialize (Hmatches eq_refl Hapart).
  assert (isCurrentSpec w2 c (Int32.add (LatestAvailableRevision (wStatus w)) 1)
          = (true, "")) as Hcurrent2.
  { unfold isCurrentSpec.
    assert (firstStale w2 c (Int32.add (LatestAvailableRevision (wStatus w)) 1) (sources c)
            = None) as ->; [|done].
    apply firstStale_None. intros src Hsrc. by apply staleReason_None, Hmatches. }
  destruct (serve_UpdateStatus_advance noFaults notFailingCondition
              (Int32.add (LatestAvailableRevision (wStatus w)) 1) w2) as [Herr3 Hrev3].
  destruct (store_UpdateStatus_frame
              [UpdateConditionFn notFailingCondition;
               setLatestAvailableRevision
                 (Int32.add (LatestAvailableRevision (wStatus w)) 1)] w2)
    as [Hsame3 Hspec3].
  cbn zeta in *. change (serve noFaults) with store in *.
  destruct (store (UpdateStatus _) w2) as [[[st b] err] w3]. cbn [fst snd] in *.
  unfold noFaults in Herr3, Hrev3. subst err.
  cbn [fst snd]. intros _.
  assert (isCurrentSpec w3 c (LatestAvailableRevision (wStatus w3)) = (true, "")
          ∧ wSpec w3 = wSpec w) as Hgoal.
  { rewrite Hrev3, <-(isCurrentSpec_ext w2 w3) by done. split; [done|congruence]. }
  destruct b; cbn [fst snd]; [|done].
  unfold store at 1 2, serve, noFaults. cbn. destruct Hgoal as [Hcur3 Hsp3].
  split; [|done].
  match goal with |- isCurrentSpec ?w' _ _ = _ =>
    rewrite (isCurrentSpec_ext w' w3); [done|by split] end.
Qed.

(** X12. A second pass does nothing.  Over the stores without faults, when a
    pass of [sync] returned nil (and no snapshot name of the next revision is
    the name of a configured source), the pass that follows it returns nil as
    well, makes no write to the Config Store, and leaves the world as the
    first pass left it: same configmaps, secrets, status, resource version,
    events and warnings. *)
Theorem sync_second_pass_settled (c : RevisionController) (w : World) :
  snapshotsApart c (Int32.add (revisionOf w) 1) →
  result store (sync c) w = None →
  let w1 := final store (sync c) w in
  result store (sync c) w1 = None ∧
  sameButClock w1 (final store (sync c) w1) ∧
  Forall (λ call, isConfigWrite call = false) (calls (trace store (sync c) w1)).
Proof.
  intros Hapart Hnil. cbn zeta.
  (* what the first pass leaves *)
  assert (wSpec (final store (sync c) w) = wSpec w ∧
          (managementState (wSpec w) ≠ Unmanaged → managementState (wSpec w) ≠ Removed →
           isCurrentSpec (final store (sync c) w) c (revisionOf (final store (sync c) w))
           = (true, "") ∧
           SetOperatorCondition (Conditions (wStatus (final store (sync c) w)))
             notFailingCondition
           = Conditions (wStatus (final store (sync c) w)))) as [Hspec Hsettled].
  { revert Hnil. unfold result, final, revisionOf. rewrite run_sync. cbn zeta.
    change (store OperatorClientGet w)
      with ((wSpec w, wStatus w, pretty (wResourceVersion w), @None error), tick w).
    cbn [fst snd].
    case_bool_decide; [done|]. case_bool_decide; [done|].
    pose proof (store_createRevisionIfNeeded_settles c (pretty (wResourceVersion w))
                  (tick w) Hapart) as Hpass. cbn zeta in Hpass.
    change (wSpec (tick w)) with (wSpec w) in Hpass.
    change (wStatus (tick w)) with (wStatus w) in Hpass.
    destruct (run store (createRevisionIfNeeded c (wSpec w) (wStatus w) _) (tick w))
      as [[[requeue syncErr] w2] t2]. cbn [fst snd] in *.
    destruct requeue, syncErr as [u|]; cbn [andb]; try case_bool_decide; try done;
      cbn [fst snd].
    - by destruct (store (UpdateStatus _) w2) as [[[st b] [u'|]] w3].
    - by destruct (store (UpdateStatus _) w2) as [[[st b] [u'|]] w3].
    - destruct (Hpass eq_refl) as [Hcurrent Hspec2].
      destruct (store_UpdateStatus_condition notFailingCondition w2)
        as (_ & Hsame & Hspec3 & Hrev3 & Hconds3 & _). cbn zeta in *.
      change (finalCondition None) with notFailingCondition.
      destruct (store (UpdateStatus [UpdateConditionFn notFailingCondition]) w2)
        as [[[st b] err] w3]. cbn [fst snd] in *.
      intros _. split; [congruence|]. intros _ _. unfold revisionOf in *. split.
      + rewrite Hrev3, <-(isCurrentSpec_ext w2 w3) by done. done.
      + rewrite Hconds3. apply SetOperatorCondition_idemp. }
  set (w1 := final store (sync c) w) in *.
  (* the second pass *)
  unfold result, final, trace. rewrite run_sync. cbn zeta.
  change (store OperatorClientGet w1)
    with ((wSpec w1, wStatus w1, pretty (wResourceVersion w1), @None error), tick w1).
  cbn [fst snd]. rewrite Hspec.
  assert (sameButClock w1 (tick w1)) as Htick by (unfold sameButClock; by split_and!).
  case_bool_decide; [by split_and!; [|exact Htick|repeat constructor]|].
  case_bool_decide; [by split_and!; [|exact Htick|repeat constructor]|].
  destruct (Hsettled ltac:(done) ltac:(done)) as [Hcurrent Hfix].
  rewrite run_createRevisionIfNeeded. cbn zeta.
  destruct (store_isLatestRevisionCurrent c (LatestAvailableRevision (wStatus w1)) (tick w1))
    as [Hdecision _].
  pose proof (isLatestRevisionCurrent_reads store c (LatestAvailableRevision (wStatus w1))
                (tick w1)) as Hreads.
  assert (sameButClock w1
            (run store (isLatestRevisionCurrent c (LatestAvailableRevision (wStatus w1)))
               (tick w1)).1.2) as Hclock.
  { apply (run_preserves store (sameButClock w1) (λ call, isGet call = true)).
    - intros call w' Hcall Hw'. eapply sameButClock_trans; [exact Hw'|].
      by apply store_get_sameButClock.
    - unfold calls. by apply Forall_map.
    - exact Htick. }
  rewrite (isCurrentSpec_ext (tick w1) w1) in Hdecision by done.
  unfold revisionOf in Hcurrent. rewrite Hcurrent in Hdecision.
  destruct (run store (isLatestRevisionCurrent c _) (tick w1)) as [[[cur reason] w2] t1].
  cbn [fst snd] in *. injection Hdecision as -> ->. cbn [fst snd andb].
  change (finalCondition None) with notFailingCondition.
  destruct (store_UpdateStatus_condition notFailingCondition w2)
    as (Herr & _ & _ & _ & _ & Hnoop). cbn zeta in *.
  assert (sameButClock w2
            (store (UpdateStatus [UpdateConditionFn notFailingCondition]) w2).2) as Hw3.
  { apply Hnoop. destruct Hclock as (_ & _ & _ & <- & _). exact Hfix. }
  destruct (store (UpdateStatus [UpdateConditionFn notFailingCondition]) w2)
    as [[[st b] err] w3]. cbn [fst snd] in *. subst err.
  split_and!.
  - done.
  - by eapply sameButClock_trans.
  - unfold calls. rewrite map_cons, map_app. constructor; [done|].
    apply Forall_app. split; [|by repeat constructor].
    apply Forall_map. eapply Forall_impl; [exact Hreads|]. intros [[] ?]; by cbn.
Qed.

(** Scenario A: the pass that creates revision 1 returns nil, and the pass
    after it changes nothing. *)
Lemma sync_second_pass_settled_witness :
  result store (sync controllerA) worldB = None ∧
  sameButClock worldB (final store (sync controllerA) worldB).
Proof.
  destruct (sync_second_pass_settled controllerA worldA) as (Hres & Hsame & _).
  - exact snapshotsApart_controllerA.
  - vm_compute. reflexivity.
  - split; [exact Hres|exact Hsame].
Defined.

(** ** The outcomes of a pass over stores without faults *)




